(** * BME UDF decoding: framing detection, record extraction, field decoding

    A shallow embedding of the binary decoding engine of the BME converter
    scripts ([bme_udf_parser.py], [bme_udf_to_rawdata.py],
    [bme_udf_converter.py]) and the properties of its natural-language
    specification that were checked against it.

    Conventions of the embedding:
    - a Python [int] is a [Z]; a [bytes] object is a [list byte];
      a [str] is a [list ascii] whose characters are code points below 256;
    - a Python exception is an explicit [Raise] result;
    - [int] on a decimal string is the interpreter's: it raises
      [ValueError] on more than [sys.get_int_max_str_digits()] digits, 4300
      unless the interpreter is told otherwise;
    - a [while] loop is a fuelled fixpoint which answers [None] when the
      fuel runs out, and the callers give it more fuel than it can burn;
    - the iteration order of a Python [set] is not fixed by the language:
      it enters the model as the function [set_iter]. *)

From Stdlib Require Import Strings.Ascii Strings.String Strings.Byte.
From Stdlib Require Import ZArith List Lia Bool Sorting.Sorted.
From Stdlib Require Import Floats.SpecFloat Numbers.DecimalString.
Import ListNotations.

Local Open Scope Z_scope.

(** ** Python primitives *)

Module Py.

Definition bytes := list byte.
Definition text := list ascii.

Inductive exn : Type :=
| ValueError (msg : string)
| TypeError
| IndexError
| StructError.

Inductive res (A : Type) : Type :=
| Ok (a : A)
| Raise (e : exn).
Arguments Ok {A} a.
Arguments Raise {A} e.

Definition bind {A B : Type} (m : res A) (k : A -> res B) : res B :=
  match m with
  | Ok a => k a
  | Raise e => Raise e
  end.

(** [try: m  except Exception: h] *)
Definition try_except {A : Type} (m : res A) (h : exn -> A) : A :=
  match m with
  | Ok a => a
  | Raise e => h e
  end.

Definition len {A : Type} (l : list A) : Z := Z.of_nat (List.length l).

(** [l[lo:hi]] for non-negative bounds: both ends are clipped to the list. *)
Definition slice {A : Type} (l : list A) (lo hi : Z) : list A :=
  firstn (Z.to_nat (hi - lo)) (skipn (Z.to_nat lo) l).

(** [l[lo:]] for a non-negative bound. *)
Definition slice_from {A : Type} (l : list A) (lo : Z) : list A :=
  skipn (Z.to_nat lo) l.

(** [range(n)] and [range(lo, hi)]. *)
Definition range (n : Z) : list Z := map Z.of_nat (seq 0 (Z.to_nat n)).
Definition range2 (lo hi : Z) : list Z :=
  map (fun k => lo + Z.of_nat k) (seq 0 (Z.to_nat (hi - lo))).

(** [l[i]] on a list of integers, for an index inside the list. *)
Definition getitem (l : list Z) (i : Z) : Z := nth (Z.to_nat i) l 0.

Definition byte_val (b : byte) : Z := Z.of_N (Byte.to_N b).

Definition bytes_eqb (a b : bytes) : bool :=
  if list_eq_dec Byte.byte_eq_dec a b then true else false.

(** [l.count(x)] *)
Definition count (l : list Z) (x : Z) : Z :=
  Z.of_nat (count_occ Z.eq_dec l x).

(** [max(items, key=key)]: the running maximum is replaced only by an item
    whose key is strictly greater, so among the items of greatest key the
    first one met wins; an empty iterable is a [ValueError]. *)
Fixpoint max_loop (key : Z -> Z) (best : Z) (items : list Z) : Z :=
  match items with
  | [] => best
  | x :: rest => max_loop key (if key best <? key x then x else best) rest
  end.

Definition max_key (key : Z -> Z) (items : list Z) : res Z :=
  match items with
  | [] => Raise (ValueError "max() arg is an empty sequence")
  | x :: rest => Ok (max_loop key x rest)
  end.

End Py.

Import Py.

Declare Scope py_scope.
Notation "x <- m ;; k" := (bind m (fun x => k))
  (at level 61, m at next level, right associativity) : py_scope.
Local Open Scope py_scope.

(** ** Marker scan shared by the three scripts *)

Module Scan.

Definition marker : bytes := [x00; xff].

(** [for i in range(...): if data[i:i+2] == marker: positions.append(i);
     if len(positions) >= 10: break] *)
Fixpoint scan_loop (data : bytes) (idxs : list Z) (positions : list Z)
  : list Z :=
  match idxs with
  | [] => positions
  | i :: rest =>
      if bytes_eqb (slice data i (i + 2)) marker then
        let positions' := positions ++ [i] in
        if 10 <=? len positions' then positions'
        else scan_loop data rest positions'
      else scan_loop data rest positions
  end.

(** The capped scan of [_calculate_record_size] and [_detect_record_size]. *)
Definition scan_markers (data : bytes) : list Z :=
  scan_loop data (range (Z.min 1000 (len data - 1))) [].

(** The list comprehension of [parse_udf_file]: no cap on the count. *)
Definition scan_markers_all (data : bytes) : list Z :=
  filter (fun i => bytes_eqb (slice data i (i + 2)) marker)
         (range (Z.min 1000 (len data - 1))).

(** [[positions[i+1] - positions[i] for i in range(len(positions)-1)]] *)
Definition intervals_all (positions : list Z) : list Z :=
  map (fun i => getitem positions (i + 1) - getitem positions i)
      (range (len positions - 1)).

(** [[positions[i+1] - positions[i] for i in range(1, len(positions)-1)]] *)
Definition intervals_tail (positions : list Z) : list Z :=
  map (fun i => getitem positions (i + 1) - getitem positions i)
      (range2 1 (len positions - 1)).

Section Mode.

(** The order in which [set(intervals)] hands out its elements. *)
Variable set_iter : list Z -> list Z.

(** [max(set(intervals), key=intervals.count)] *)
Definition most_common (intervals : list Z) : res Z :=
  max_key (count intervals) (set_iter intervals).

End Mode.

(** What the language promises of [set(l)]: the elements of [l], each once. *)
Definition mem (x : Z) (l : list Z) : bool :=
  existsb (Z.eqb x) l.

Fixpoint nodupb (l : list Z) : bool :=
  match l with
  | [] => true
  | x :: rest => negb (mem x rest) && nodupb rest
  end.

Definition is_set_of (order l : list Z) : bool :=
  nodupb order
  && forallb (fun x => mem x l) order
  && forallb (fun x => mem x order) l.

(** One lawful iteration order, used to run the model: first occurrences. *)
Fixpoint first_seen (seen l : list Z) : list Z :=
  match l with
  | [] => []
  | x :: rest =>
      if mem x seen then first_seen seen rest
      else x :: first_seen (x :: seen) rest
  end.

Definition set_first_seen (l : list Z) : list Z := first_seen [] l.

End Scan.

Import Scan.

(** ** Text: the [str] methods and the regular expressions the scripts use *)

Module Text.

Definition code (c : ascii) : Z := Z.of_N (N_of_ascii c).

(** [str.isspace] on a code point below 256; the class [\s] of [re] on a
    [str] pattern is the same set. *)
Definition is_space (c : ascii) : bool :=
  let n := code c in
  ((9 <=? n) && (n <=? 13)) || ((28 <=? n) && (n <=? 32))
  || (n =? 133) || (n =? 160).

(** The class [\d] on a code point below 256. *)
Definition is_digit (c : ascii) : bool :=
  let n := code c in (48 <=? n) && (n <=? 57).

Definition not_colon (c : ascii) : bool := negb (Ascii.eqb c ":").

(** [.] matches everything but a line feed. *)
Definition is_dot (c : ascii) : bool := negb (code c =? 10).

Fixpoint lstrip (s : text) : text :=
  match s with
  | c :: rest => if is_space c then lstrip rest else s
  | [] => []
  end.

(** [s.strip()] *)
Definition strip (s : text) : text := rev (lstrip (rev (lstrip s))).

(** [s.split(sep)] for a one-character separator: never an empty list. *)
Fixpoint split (sep : ascii) (s : text) : list text :=
  match s with
  | [] => [[]]
  | c :: rest =>
      if Ascii.eqb c sep then [] :: split sep rest
      else match split sep rest with
           | piece :: pieces => (c :: piece) :: pieces
           | [] => [[c]]
           end
  end.

(** [sys.get_int_max_str_digits()] of an interpreter started with its
    defaults: the most digits [int] converts from a decimal string. *)
Definition int_max_str_digits : Z := 4300.

(** The [ValueError] of [int] on a string with more digits than that. (The
    interpreter's message goes on with the limit and the number of digits,
    in a wording that depends on its version.) *)
Definition int_limit_error : exn :=
  ValueError "Exceeds the limit for integer string conversion".

(** The decimal value of a run of digits. *)
Definition decimal (s : text) : Z :=
  fold_left (fun acc c => 10 * acc + (code c - 48)) s 0.

(** [int(s)] on a match of [\d+]: the decimal value, or the [ValueError]
    when the run has more digits than the limit (leading zeros count). *)
Definition int_of_digits (s : text) : res Z :=
  if int_max_str_digits <? len s then Raise int_limit_error
  else Ok (decimal s).

(** [c.isdigit()] on a code point below 256: the ASCII digits and the
    superscripts one, two and three. *)
Definition is_py_digit (c : ascii) : bool :=
  let n := code c in
  is_digit c || (n =? 178) || (n =? 179) || (n =? 185).

(** The digits of an integer literal after its sign: decimal digits, with
    single underscores allowed between two digits. [after_digit] tells
    whether the previous character was a digit. *)
Fixpoint int_digits (s : text) (after_digit : bool) (acc : Z) : option Z :=
  match s with
  | [] => if after_digit then Some acc else None
  | c :: rest =>
      if is_digit c then int_digits rest true (10 * acc + (code c - 48))
      else if Ascii.eqb c "_" && after_digit then
        match rest with
        | d :: _ => if is_digit d then int_digits rest false acc else None
        | [] => None
        end
      else None
  end.

(** [int(s)] on a string: surrounding whitespace is dropped, one sign is
    allowed, and the digits may not be more than the limit (the sign and
    the underscores do not count); anything else is a [ValueError], here
    [None]. *)
Definition py_int (s : text) : option Z :=
  let s := strip s in
  if int_max_str_digits <? len (filter is_digit s) then None
  else
    match s with
    | [] => None
    | c :: rest =>
        if Ascii.eqb c "-" then option_map Z.opp (int_digits rest false 0)
        else if Ascii.eqb c "+" then int_digits rest false 0
        else int_digits (c :: rest) false 0
    end.

Definition text_eqb (a b : text) : bool :=
  if list_eq_dec ascii_dec a b then true else false.

Definition lit (s : string) : text := list_ascii_of_string s.

End Text.

Import Text.

(** A backtracking matcher for the fragment of [re] the field patterns are
    written in: literals, one character of a class, a greedy star over a
    class, flat capture groups and the end anchor. [x+] is written
    [One x; Star x]. [rmatch] is [pattern.match(s)]: anchored at the start,
    greedy first, answering the captured groups in order. *)
Module Re.

Inductive atom : Type :=
| Lit (c : ascii)
| One (cls : ascii -> bool)
| Star (cls : ascii -> bool)
| Open
| Close
| Eos.

Definition push (cur : option text) (c : ascii) : option text :=
  match cur with
  | Some g => Some (g ++ [c])
  | None => None
  end.

Fixpoint rmatch (p : list atom) (cur : option text) (groups : list text)
  (s : text) {struct p} : option (list text) :=
  match p with
  | [] => Some (rev groups)
  | Lit c :: p' =>
      match s with
      | x :: s' =>
          if Ascii.eqb x c then rmatch p' (push cur x) groups s' else None
      | [] => None
      end
  | One cls :: p' =>
      match s with
      | x :: s' => if cls x then rmatch p' (push cur x) groups s' else None
      | [] => None
      end
  | Star cls :: p' =>
      (fix star (cur : option text) (s : text) {struct s}
         : option (list text) :=
         match s with
         | x :: s' =>
             if cls x then
               match star (push cur x) s' with
               | Some r => Some r
               | None => rmatch p' cur groups s
               end
             else rmatch p' cur groups s
         | [] => rmatch p' cur groups []
         end) cur s
  | Open :: p' => rmatch p' (Some []) groups s
  | Close :: p' =>
      match cur with
      | Some g => rmatch p' None (g :: groups) s
      | None => None
      end
  | Eos :: p' =>
      match s with
      | [] => rmatch p' cur groups []
      | _ :: _ => None
      end
  end.

Definition pmatch (p : list atom) (s : text) : option (list text) :=
  rmatch p None [] s.

(** [(\d+):\s*] and [([^:]+):\s*] *)
Definition digits_colon : list atom :=
  [Open; One is_digit; Star is_digit; Close; Lit ":"; Star is_space].
Definition token_colon : list atom :=
  [Open; One not_colon; Star not_colon; Close; Lit ":"; Star is_space].

End Re.

(** ** Binary decoding: [struct.unpack] and [bytes.hex] *)

Module Struct.

(** The format characters of [TYPE_MAP]. *)
Inductive fmt : Type := FB | Fb | FH | Fh | FI | Fi | Ff.

Definition fmt_size (f : fmt) : Z :=
  match f with
  | FB | Fb => 1
  | FH | Fh => 2
  | FI | Fi | Ff => 4
  end.

(** A decoded value: what a record cell can hold. *)
#[warnings="-register-all"]
Inductive value : Type :=
| VInt (z : Z)
| VFloat (x : spec_float)
| VHex (s : text)
| VNone
| VTuple (l : list value).

(** Little-endian unsigned reading of a byte string. *)
Fixpoint le_uint (data : bytes) : Z :=
  match data with
  | [] => 0
  | b :: rest => byte_val b + 256 * le_uint rest
  end.

(** Two's complement reading on [8 * n] bits. *)
Definition to_signed (n : Z) (v : Z) : Z :=
  if v <? 2 ^ (8 * n - 1) then v else v - 2 ^ (8 * n).

(** The IEEE-754 binary32 value of a 32-bit pattern, as the exact number the
    interpreter widens to a double. *)
Definition float32_of_bits (bits : Z) : spec_float :=
  let s := Z.testbit bits 31 in
  let e := Z.land (Z.shiftr bits 23) 255 in
  let m := Z.land bits (2 ^ 23 - 1) in
  if e =? 0 then
    match m with
    | Zpos p => S754_finite s p (-149)
    | _ => S754_zero s
    end
  else if e =? 255 then
    if m =? 0 then S754_infinity s else S754_nan
  else
    match m + 2 ^ 23 with
    | Zpos p => S754_finite s p (e - 150)
    | _ => S754_nan
    end.

(** [struct.unpack] refuses a buffer which has not exactly the size of the
    format. *)
Definition sized {A : Type} (n : Z) (data : bytes) (v : A) : res A :=
  if len data =? n then Ok v else Raise StructError.

(** [struct.unpack('<B' | '<H' | '<I' | '<Q', data)[0]], [n] bytes wide. *)
Definition unpack_unsigned (n : Z) (data : bytes) : res Z :=
  sized n data (le_uint data).

(** [struct.unpack('<b' | '<h' | '<i', data)[0]], [n] bytes wide. *)
Definition unpack_signed (n : Z) (data : bytes) : res Z :=
  sized n data (to_signed n (le_uint data)).

(** [struct.unpack('<f', data)[0]] *)
Definition unpack_float (data : bytes) : res spec_float :=
  sized 4 data (float32_of_bits (le_uint data)).

(** [struct.unpack('<' + fmt, data)[0]] *)
Definition unpack (f : fmt) (data : bytes) : res value :=
  match f with
  | FB | FH | FI => z <- unpack_unsigned (fmt_size f) data;; Ok (VInt z)
  | Fb | Fh | Fi => z <- unpack_signed (fmt_size f) data;; Ok (VInt z)
  | Ff => x <- unpack_float data;; Ok (VFloat x)
  end.

(** [data[i]] on a [bytes] object, for a non-negative index. *)
Definition byte_at (data : bytes) (i : Z) : res Z :=
  match nth_error data (Z.to_nat i) with
  | Some b => Ok (byte_val b)
  | None => Raise IndexError
  end.

Definition hex_digit (n : Z) : ascii :=
  if n <? 10 then ascii_of_N (Z.to_N (48 + n))
  else ascii_of_N (Z.to_N (87 + n)).

Definition byte_hex (b : byte) : text :=
  [hex_digit (byte_val b / 16); hex_digit (byte_val b mod 16)].

(** [data.hex()] *)
Definition hex (data : bytes) : text := flat_map byte_hex data.

End Struct.

Import Struct.

(** ** Field descriptors and decoded records *)

Module Model.

(** One entry of the metadata header. The four trailing columns are kept
    only by the generic parser. *)
Record field : Type := mkField {
  f_id : Z;
  f_name : text;
  f_size : Z;
  f_type : text;
  f_rest : option (text * text * text * text)
}.

(** A decoded record is a Python [dict]: insertion ordered, and a store to
    a key already present overwrites the value in place. *)
Definition record := list (text * value).

Fixpoint dict_set (d : record) (k : text) (v : value) : record :=
  match d with
  | [] => [(k, v)]
  | (k', v') :: rest =>
      if text_eqb k' k then (k, v) :: rest
      else (k', v') :: dict_set rest k v
  end.

Fixpoint dict_get (d : record) (k : text) : option value :=
  match d with
  | [] => None
  | (k', v') :: rest => if text_eqb k' k then Some v' else dict_get rest k
  end.

(** [str(n)] for an integer. *)
Definition str_of_int (n : Z) : text :=
  list_ascii_of_string (NilZero.string_of_int (Z.to_int n)).

(** [f"{field_id}_{field_name}"] *)
Definition field_key (f : field) : text :=
  str_of_int (f_id f) ++ lit "_" ++ f_name f.

(** [content.find(sub)]: the lowest index of an occurrence, or [-1]. *)
Fixpoint prefixb (sub l : bytes) : bool :=
  match sub, l with
  | [], _ => true
  | _ :: _, [] => false
  | a :: sub', b :: l' =>
      if Byte.byte_eq_dec a b then prefixb sub' l' else false
  end.

Fixpoint find_from (sub l : bytes) (i : Z) : Z :=
  if prefixb sub l then i
  else match l with
       | [] => -1
       | _ :: rest => find_from sub rest (i + 1)
       end.

Definition find (content sub : bytes) : Z := find_from sub content 0.

(** [b'\r\n\r\n\r\n'] *)
Definition METADATA_DELIMITER : bytes := [x0d; x0a; x0d; x0a; x0d; x0a].

End Model.

Import Model.

(** ** [bme_udf_parser.py]: class [BMEUDFParser] *)

Module UdfParser.

(** The attributes of a parser object. *)
Record state : Type := mkState {
  version : option text;
  fields : list field;
  binary_data : option bytes
}.

(** [__init__] *)
Definition init : state := mkState None [] None.

Definition TYPE_MAP (type_name : text) : option (fmt * Z) :=
  if text_eqb type_name (lit "u8") then Some (FB, 1)
  else if text_eqb type_name (lit "s8") then Some (Fb, 1)
  else if text_eqb type_name (lit "u16") then Some (FH, 2)
  else if text_eqb type_name (lit "s16") then Some (Fh, 2)
  else if text_eqb type_name (lit "u32") then Some (FI, 4)
  else if text_eqb type_name (lit "s32") then Some (Fi, 4)
  else if text_eqb type_name (lit "f") then Some (Ff, 4)
  else None.

(** [_parse_type_spec]: for each component of the type, the name suffix,
    the [struct] format and the byte size. An unknown component is a raw
    run [f'{size}s'] of the whole field size. *)
Inductive spec_fmt : Type :=
| Prim (f : fmt)
| RawBytes (size : Z).

Fixpoint type_spec_loop (types : list text) (i : Z) (size : Z)
  : list (text * spec_fmt * Z) :=
  match types with
  | [] => []
  | type_name :: rest =>
      (match TYPE_MAP type_name with
       | Some (f, type_size) =>
           (if i =? 0 then [] else lit "_" ++ str_of_int i, Prim f, type_size)
       | None => (lit "_raw_" ++ str_of_int i, RawBytes size, size)
       end) :: type_spec_loop rest (i + 1) size
  end.

Definition _parse_type_spec (type_spec : text) (size : Z)
  : list (text * spec_fmt * Z) :=
  type_spec_loop (map strip (split "," type_spec)) 0 size.

(** The eight-column field pattern, anchored at both ends. *)
Definition field_pattern : list Re.atom :=
  Re.digits_colon ++ Re.token_colon ++ Re.digits_colon
  ++ Re.token_colon ++ Re.token_colon ++ Re.token_colon ++ Re.token_colon
  ++ [Re.Open; Re.One is_dot; Re.Star is_dot; Re.Close; Re.Eos].

(** The body of the loop over [lines[1:]]: the descriptor a line adds, if
    any. The two [int] calls are not guarded: their [ValueError] leaves the
    loop. *)
Definition parse_line (line : text) : res (option field) :=
  let line := strip line in
  match line with
  | [] => Ok None
  | _ :: _ =>
      match Re.pmatch field_pattern line with
      | Some [g1; g2; g3; g4; g5; g6; g7; g8] =>
          field_id <- int_of_digits g1;;
          let field_name := strip g2 in
          size <- int_of_digits g3;;
          Ok (Some (mkField field_id field_name size (strip g4)
                      (Some (strip g5, strip g6, strip g7, strip g8))))
      | _ => Ok None
      end
  end.

Fixpoint parse_lines (lines : list text) (acc : list field)
  : res (list field) :=
  match lines with
  | [] => Ok acc
  | line :: rest =>
      r <- parse_line line;;
      match r with
      | Some f => parse_lines rest (acc ++ [f])
      | None => parse_lines rest acc
      end
  end.

(** [_parse_metadata]. An answer [Raise] is the exception alone: what the
    object holds after it (the version and the descriptors appended before
    the failing line) is not part of the answer. *)
Definition _parse_metadata (st : state) (metadata : text) : res state :=
  let lines := split (ascii_of_nat 10) (strip metadata) in
  match lines with
  | [] => Raise (ValueError "Empty metadata section")
  | first :: rest =>
      fields' <- parse_lines rest (fields st);;
      Ok (mkState (Some (strip first)) fields' (binary_data st))
  end.

Section Parse.

(** [bytes.decode('utf-8', errors='ignore')], a codec of the interpreter. *)
Variable decode : bytes -> text.

(** [parse]: the file content is the argument. *)
Definition parse (st : state) (content : bytes) : res state :=
  let delimiter_pos := find content METADATA_DELIMITER in
  if delimiter_pos =? -1 then
    Raise (ValueError "Could not find metadata delimiter in UDF file")
  else
    let metadata_bytes := slice content 0 delimiter_pos in
    let binary_start := delimiter_pos + len METADATA_DELIMITER in
    let st := mkState (version st) (fields st)
                (Some (slice_from content binary_start)) in
    _parse_metadata st (decode metadata_bytes).

End Parse.

Section Framing.

Variable set_iter : list Z -> list Z.

(** [_calculate_record_size], on the loaded payload. *)
Definition _calculate_record_size (data : bytes) : res (Z * Z) :=
  if match data with [] => true | _ => false end || (len data <? 100)
  then Ok (61, 61)
  else
    let positions := scan_markers data in
    let fallback := Ok (28, 61) in
    if 2 <=? len positions then
      let intervals := intervals_all positions in
      match intervals with
      | [] => fallback
      | _ :: _ =>
          subsequent_size <- most_common set_iter intervals;;
          let first_size :=
            if getitem positions 0 <? subsequent_size
            then getitem positions 0 + subsequent_size
            else subsequent_size in
          Ok (first_size, subsequent_size)
      end
    else fallback.

End Framing.

(** [_parse_field_value]: the loop over the components of a compound type. *)
Fixpoint compound_loop (data : bytes) (types : list text)
  (values : list value) (offset : Z) : res (list value) :=
  match types with
  | [] => Ok values
  | type_name :: rest =>
      match TYPE_MAP type_name with
      | Some (fmt, type_size) =>
          if offset + type_size <=? len data then
            value <- unpack fmt (slice data offset (offset + type_size));;
            compound_loop data rest (values ++ [value]) (offset + type_size)
          else compound_loop data rest (values ++ [VNone]) offset
      | None => Ok (values ++ [VHex (hex (slice_from data offset))])
      end
  end.

Definition _parse_field_value (data : bytes) (type_spec : text) (size : Z)
  : res value :=
  let types := map strip (split "," type_spec) in
  match types with
  | [type_name] =>
      match TYPE_MAP type_name with
      | Some (fmt, _) => unpack fmt data
      | None => Ok (VHex (hex data))
      end
  | _ =>
      values <- compound_loop data types [] 0;;
      Ok (match values with
          | [] => VNone
          | [v] => v
          | _ => VTuple values
          end)
  end.

(** One turn of the loop of [_parse_record] over the descriptors: the
    record under construction and the cursor, before and after. *)
Definition parse_field (data : bytes) (acc : record * Z) (f : field)
  : record * Z :=
  let (record, offset) := acc in
  let field_data := slice data offset (offset + f_size f) in
  if len field_data <? f_size f then
    (dict_set record (field_key f) VNone, offset + f_size f)
  else
    let value :=
      try_except (_parse_field_value field_data (f_type f) (f_size f))
                 (fun _ => VHex (hex field_data)) in
    (dict_set record (field_key f) value, offset + f_size f).

Definition parse_fields (data : bytes) (fs : list field) (acc : record * Z)
  : record * Z :=
  fold_left (parse_field data) fs acc.

Definition _parse_record (st : state) (data : bytes) (record_num : Z)
  : record :=
  fst (parse_fields data (fields st)
         ([(lit "_record_num", VInt record_num)], 0)).

(** What the untyped names of [extract_records] can hold. *)
Inductive pyval : Type :=
| PyInt (z : Z)
| PyTuple (items : list Z).

Definition py_eq (a b : pyval) : bool :=
  match a, b with
  | PyInt x, PyInt y => x =? y
  | PyTuple x, PyTuple y => if list_eq_dec Z.eq_dec x y then true else false
  | _, _ => false
  end.

Definition py_add (a b : pyval) : res pyval :=
  match a, b with
  | PyInt x, PyInt y => Ok (PyInt (x + y))
  | PyTuple x, PyTuple y => Ok (PyTuple (x ++ y))
  | _, _ => Raise TypeError
  end.

Fixpoint tuple_le (x y : list Z) : bool :=
  match x, y with
  | [], _ => true
  | _ :: _, [] => false
  | a :: x', b :: y' => if a =? b then tuple_le x' y' else a <? b
  end.

Definition py_le (a b : pyval) : res bool :=
  match a, b with
  | PyInt x, PyInt y => Ok (x <=? y)
  | PyTuple x, PyTuple y => Ok (tuple_le x y)
  | _, _ => Raise TypeError
  end.

Definition py_slice (data : bytes) (lo hi : pyval) : res bytes :=
  match lo, hi with
  | PyInt x, PyInt y => Ok (slice data x y)
  | _, _ => Raise TypeError
  end.

(** The [while] loop of [extract_records]; [None] is fuel exhaustion. *)
Fixpoint extract_loop (fuel : nat) (st : state) (data : bytes)
  (record_size offset : pyval) (record_num : Z) (records : list record)
  : option (res (list record)) :=
  match fuel with
  | O => None
  | S fuel' =>
      match (bound <- py_add offset record_size;;
             py_le bound (PyInt (len data))) with
      | Raise e => Some (Raise e)
      | Ok false => Some (Ok records)
      | Ok true =>
          match (bound <- py_add offset record_size;;
                 record_data <- py_slice data offset bound;;
                 offset' <- py_add offset record_size;;
                 Ok (record_data, offset')) with
          | Raise e => Some (Raise e)
          | Ok (record_data, offset') =>
              extract_loop fuel' st data record_size offset'
                (record_num + 1)
                (records ++ [_parse_record st record_data record_num])
          end
      end
  end.

Section Extract.

Variable set_iter : list Z -> list Z.

(** [extract_records]: the result of [_calculate_record_size] is used as
    it comes back, a pair. *)
Definition extract_records (fuel : nat) (st : state)
  : option (res (list record)) :=
  match binary_data st with
  | None =>
      Some (Raise (ValueError "No binary data loaded. Call parse() first."))
  | Some data =>
      match _calculate_record_size set_iter data with
      | Raise e => Some (Raise e)
      | Ok (first_size, subsequent_size) =>
          let record_size := PyTuple [first_size; subsequent_size] in
          if py_eq record_size (PyInt 0) then
            Some (Raise (ValueError
              "Could not calculate record size from field definitions"))
          else extract_loop fuel st data record_size (PyInt 0) 0 []
      end
  end.

End Extract.

End UdfParser.

(** ** [bme_udf_to_rawdata.py]: class [UDFToRawDataConverter] *)

Module RawData.

(** The four-column prefix pattern: it ends with the colon that closes the
    type column. *)
Definition field_pattern : list Re.atom :=
  Re.digits_colon ++ Re.token_colon ++ Re.digits_colon
  ++ [Re.Open; Re.One not_colon; Re.Star not_colon; Re.Close; Re.Lit ":"].

(** The body of the loop over [lines[1:]]; the two [int] calls are not
    guarded. *)
Definition parse_line (line : text) : res (option field) :=
  match Re.pmatch field_pattern line with
  | Some [g1; g2; g3; g4] =>
      field_id <- int_of_digits g1;;
      let name := strip g2 in
      size <- int_of_digits g3;;
      Ok (Some (mkField field_id name size (strip g4) None))
  | _ => Ok None
  end.

Fixpoint parse_lines (lines : list text) (acc : list field)
  : res (list field) :=
  match lines with
  | [] => Ok acc
  | line :: rest =>
      r <- parse_line line;;
      match r with
      | Some f => parse_lines rest (acc ++ [f])
      | None => parse_lines rest acc
      end
  end.

(** [[l.strip() for l in metadata.split('\n') if l.strip()]] *)
Definition stripped_lines (metadata : text) : list text :=
  map strip
    (filter (fun l => match strip l with [] => false | _ => true end)
       (split (ascii_of_nat 10) metadata)).

Definition _parse_metadata (metadata : text) : res (text * list field) :=
  let lines := stripped_lines metadata in
  let version := match lines with first :: _ => first | [] => lit "unknown" end in
  fields <- parse_lines (tl lines) [];;
  Ok (version, fields).

Section ParseUdf.

(** [bytes.decode('utf-8', errors='ignore')], a codec of the interpreter. *)
Variable decode : bytes -> text.

(** [parse_udf]: the file content is the argument; the answer is
    [(version, field_definitions, binary_data)]. *)
Definition parse_udf (content : bytes) : res (text * list field * bytes) :=
  let delim_pos := find content METADATA_DELIMITER in
  if delim_pos =? -1 then
    Raise (ValueError "Could not find metadata delimiter in UDF file")
  else
    let metadata := decode (slice content 0 delim_pos) in
    let binary_data :=
      slice_from content (delim_pos + len METADATA_DELIMITER) in
    parsed <- _parse_metadata metadata;;
    let (version, fields) := parsed in
    Ok (version, fields, binary_data).

End ParseUdf.

Section Framing.

Variable set_iter : list Z -> list Z.

(** [_detect_record_size]: [(header_size, record_size)]. *)
Definition _detect_record_size (data : bytes) : res (Z * Z) :=
  let positions := scan_markers data in
  let fallback := Ok (28, 61) in
  if 2 <=? len positions then
    let header_size := getitem positions 1 - getitem positions 0 in
    let intervals := intervals_tail positions in
    match intervals with
    | [] => fallback
    | _ :: _ =>
        record_size <- most_common set_iter intervals;;
        Ok (header_size, record_size)
    end
  else fallback.

End Framing.

(** [_parse_record_61_byte]: the row of 13 values, or [None]. Any exception
    inside is caught and answered by [None] (and a warning). *)
Definition _parse_record_61_byte (data : bytes) : option (list value) :=
  try_except
    (if len data <? 61 then Ok None
     else
       sensor_index <- byte_at data 60;;
       sensor_id <- unpack_unsigned 4 (slice data 45 49);;
       time_ns <- unpack_unsigned 8 (slice data 2 10);;
       let time_ms := time_ns / 1000000 in
       let real_time_clock := 0 in
       temperature <- unpack_float (slice data 33 37);;
       pressure <- unpack_float (slice data 27 31);;
       humidity <- unpack_float (slice data 21 25);;
       gas_resistance <- unpack_float (slice data 15 19);;
       heater_step <- byte_at data 12;;
       let scanning_enabled := 1 in
       scanning_cycle <- byte_at data 39;;
       label_tag <- unpack_unsigned 4 (slice data 51 55);;
       error_code <- unpack_signed 1 (slice data 53 54);;
       Ok (Some [VInt sensor_index; VInt sensor_id; VInt time_ms;
                 VInt real_time_clock; VFloat temperature; VFloat pressure;
                 VFloat humidity; VFloat gas_resistance; VInt heater_step;
                 VInt scanning_enabled; VInt scanning_cycle; VInt label_tag;
                 VInt error_code]))
    (fun _ => None).

(** The [while] loop of [extract_records]; [None] is fuel exhaustion. *)
Fixpoint extract_loop (fuel : nat) (data : bytes) (record_size offset : Z)
  (records : list (list value)) : option (list (list value)) :=
  match fuel with
  | O => None
  | S fuel' =>
      if offset + record_size <=? len data then
        let rec_data := slice data offset (offset + record_size) in
        let records' :=
          match _parse_record_61_byte rec_data with
          | Some record => records ++ [record]
          | None => records
          end in
        extract_loop fuel' data record_size (offset + record_size) records'
      else Some records
  end.

Section Extract.

Variable set_iter : list Z -> list Z.

(** [extract_records], on the loaded payload. *)
Definition extract_records (fuel : nat) (data : bytes)
  : option (res (list (list value))) :=
  match _detect_record_size set_iter data with
  | Raise e => Some (Raise e)
  | Ok (header_size, record_size) =>
      option_map Ok (extract_loop fuel data record_size header_size [])
  end.

End Extract.

(** One entry of [dataColumns]. *)
Record column : Type := mkColumn {
  c_name : string;
  c_unit : string;
  c_format : string;
  c_key : string;
  c_colId : Z
}.

(** [generate_data_columns] *)
Definition generate_data_columns : list column :=
  [ mkColumn "Sensor Index" "" "integer" "sensor_index" 1;
    mkColumn "Sensor ID" "" "integer" "sensor_id" 2;
    mkColumn "Time Since PowerOn" "Milliseconds" "integer"
      "timestamp_since_poweron" 3;
    mkColumn "Real time clock"
      "Unix Timestamp: seconds since Jan 01 1970. (UTC); 0 = missing"
      "integer" "real_time_clock" 4;
    mkColumn "Temperature" "DegreesCelcius" "float" "temperature" 5;
    mkColumn "Pressure" "Hectopascals" "float" "pressure" 6;
    mkColumn "Relative Humidity" "Percent" "float" "relative_humidity" 7;
    mkColumn "Resistance Gassensor" "Ohms" "float" "resistance_gassensor" 8;
    mkColumn "Heater Profile Step Index" "" "integer"
      "heater_profile_step_index" 9;
    mkColumn "Scanning Mode Enabled" "" "boolean" "scanning_enabled" 10;
    mkColumn "Scanning Cycle Index" "" "integer" "scanning_cycle_index" 11;
    mkColumn "Label Tag" "" "integer" "label_tag" 12;
    mkColumn "Error Code" "" "integer" "error_code" 13 ].

End RawData.

(** ** [bme_udf_converter.py] *)

Module Converter.

(** The body of the loop of [parse_metadata_fields] over [lines[1:]]: the
    descriptor a line adds, if any. A failing [int] is swallowed by the
    bare [except]. *)
Definition parse_line (line : text) : option field :=
  match line with
  | [] => None
  | c :: _ =>
      if negb (is_py_digit c) then None
      else
        let parts := map strip (split ":" line) in
        if 8 <=? len parts then
          match py_int (nth 0 parts []), py_int (nth 2 parts []) with
          | Some field_id, Some size =>
              Some (mkField field_id (nth 1 parts []) size (nth 3 parts [])
                      None)
          | _, _ => None
          end
        else None
  end.

Fixpoint parse_lines (lines : list text) (acc : list field) : list field :=
  match lines with
  | [] => acc
  | line :: rest =>
      match parse_line line with
      | Some f => parse_lines rest (acc ++ [f])
      | None => parse_lines rest acc
      end
  end.

(** [parse_metadata_fields] *)
Definition parse_metadata_fields (metadata_text : text) : text * list field :=
  let lines := RawData.stripped_lines metadata_text in
  let version :=
    match lines with first :: _ => first | [] => lit "unknown" end in
  (version, parse_lines (tl lines) []).

Section Framing.

Variable set_iter : list Z -> list Z.

(** The framing step of [parse_udf_file] (from the marker scan to the two
    record sizes): [(first_record_size, record_size)]. *)
Definition parse_udf_file_framing (binary_data : bytes) : res (Z * Z) :=
  let marker_positions := scan_markers_all binary_data in
  if len marker_positions <? 2 then
    Raise (ValueError "Could not detect record structure")
  else
    let intervals := intervals_all marker_positions in
    record_size <- most_common set_iter intervals;;
    let first_record_size :=
      if getitem marker_positions 0 <? record_size
      then getitem marker_positions 0 + record_size
      else record_size in
    Ok (first_record_size, record_size).

End Framing.

End Converter.

(** ** Test payloads *)

(** [n] bytes [0x01] with the marker [00 FF] written at the given offsets. *)
Fixpoint put_marker (data : bytes) (i : nat) : bytes :=
  match i, data with
  | O, _ :: _ :: rest => x00 :: xff :: rest
  | S i', b :: rest => b :: put_marker rest i'
  | _, _ => data
  end.

Definition payload_with (n : nat) (marks : list nat) : bytes :=
  fold_left put_marker marks (repeat x01 n).

(** ** The reading of the specification, for comparison with the code *)

Module Spec.

(** The statistical mode with ties broken by the smallest value: the least
    value whose frequency no other value exceeds. *)
Definition is_most_frequent (l : list Z) (x : Z) : bool :=
  forallb (fun y => count l y <=? count l x) l.

Definition mode_smallest (l : list Z) : option Z :=
  match filter (is_most_frequent l) l with
  | [] => None
  | x :: rest => Some (fold_left Z.min rest x)
  end.

(** The header size as the specification derives it. *)
Definition header_size (positions : list Z) (record_size : Z) : Z :=
  if getitem positions 0 <? record_size
  then getitem positions 1 - getitem positions 0
  else record_size.

(** Byte [i] of a record window. *)
Definition byte_of (data : bytes) (i : nat) : Z := byte_val (nth i data x00).

(** Little-endian unsigned integer held by bytes [i .. i + n - 1]. *)
Fixpoint uint_at (data : bytes) (i n : nat) : Z :=
  match n with
  | O => 0
  | S n' => byte_of data i + 256 * uint_at data (S i) n'
  end.

(** The 13 canonical values at their documented offsets. *)
Definition canonical_row (data : bytes) : list value :=
  [ VInt (byte_of data 60);
    VInt (uint_at data 45 4);
    VInt (uint_at data 2 8 / 1000000);
    VInt 0;
    VFloat (float32_of_bits (uint_at data 33 4));
    VFloat (float32_of_bits (uint_at data 27 4));
    VFloat (float32_of_bits (uint_at data 21 4));
    VFloat (float32_of_bits (uint_at data 15 4));
    VInt (byte_of data 12);
    VInt 1;
    VInt (byte_of data 39);
    VInt (uint_at data 51 4);
    VInt (if byte_of data 53 <? 128 then byte_of data 53
          else byte_of data 53 - 256) ].

(** A lowercase hexadecimal digit. *)
Definition is_lower_hex (c : ascii) : bool :=
  let n := code c in
  ((48 <=? n) && (n <=? 57)) || ((97 <=? n) && (n <=? 102)).

End Spec.

(** ** Predicates used in the statements *)

Definition is_marker_at (data : bytes) (i : Z) : bool :=
  bytes_eqb (slice data i (i + 2)) marker.

(** [x] is the first item of [order] whose key is greatest: what
    [max(order, key=key)] answers. *)
Definition first_max (key : Z -> Z) (order : list Z) (x : Z) : Prop :=
  exists pre post,
    order = pre ++ x :: post
    /\ (forall y, In y pre -> key y < key x)
    /\ (forall y, In y post -> key y <= key x).

(** A 61-byte window with Sensor ID 7 and Sensor Index 2. *)
Definition window_c4 : bytes :=
  repeat x01 45 ++ [x07; x00; x00; x00] ++ repeat x01 11 ++ [x02].

(** The consecutive differences of a list, by structural recursion. *)
Fixpoint deltas (positions : list Z) : list Z :=
  match positions with
  | a :: (b :: _) as rest => (b - a) :: deltas rest
  | _ => []
  end.

(** The codec on a buffer of ASCII bytes; bytes above [0x7f] are left out. *)
Definition decode_ascii (b : bytes) : text :=
  map ascii_of_byte (filter (fun x => byte_val x <? 128) b).

(** A file: the header [1.0], the delimiter, and a payload of 200 bytes
    with markers at 0, 61 and 122. *)
Definition sample_file : bytes :=
  [x31; x2e; x30] ++ METADATA_DELIMITER
  ++ payload_with 200 [0; 61; 122]%nat.

(** The cursor the descriptor layout implies after the fields [fs]. *)
Definition declared_size (fs : list field) : Z :=
  fold_right (fun f acc => f_size f + acc) 0 fs.

(** The descriptors a line parser yields over a list of lines: one for each
    line it accepts, in order. *)
Definition descriptors_of (parse_line : text -> res (option field))
  (lines : list text) : list field :=
  flat_map (fun l => match parse_line l with
                     | Ok (Some f) => [f]
                     | _ => []
                     end) lines.

(** The exception of the first line on which a line parser raises. *)
Fixpoint first_error (parse_line : text -> res (option field))
  (lines : list text) : option exn :=
  match lines with
  | [] => None
  | l :: rest =>
      match parse_line l with
      | Raise e => Some e
      | Ok _ => first_error parse_line rest
      end
  end.


(** The keys of a [dict] after a store under [k]: a new key goes last. *)
Definition add_key (keys : list text) (k : text) : list text :=
  if existsb (text_eqb k) keys then keys else keys ++ [k].

(** The capture group [(x+)] of the field patterns, and a column: a group,
    the colon that closes it and the blanks after the colon. *)
Definition grp (cls : ascii -> bool) : list Re.atom :=
  [Re.Open; Re.One cls; Re.Star cls; Re.Close].

Definition column (cls : ascii -> bool) : list Re.atom :=
  grp cls ++ [Re.Lit ":"; Re.Star is_space].

(** The number of colons in a line. *)
Definition colons (s : text) : Z :=
  len (filter (fun c => Ascii.eqb c ":") s).

(** A line that opens with four columns: digits, a token, digits, a token,
    each closed by a colon, with blanks allowed after the first three
    colons; [rest] is what follows the fourth colon. *)
Definition four_columns (line g1 g2 g3 g4 rest : text) : Prop :=
  exists w1 w2 w3,
    line = g1 ++ ":"%char :: w1 ++ g2 ++ ":"%char :: w2
              ++ g3 ++ ":"%char :: w3 ++ g4 ++ ":"%char :: rest
    /\ (g1 <> [] /\ forallb is_digit g1 = true)
    /\ (g2 <> [] /\ forallb not_colon g2 = true)
    /\ (g3 <> [] /\ forallb is_digit g3 = true)
    /\ (g4 <> [] /\ forallb not_colon g4 = true)
    /\ forallb is_space w1 = true /\ forallb is_space w2 = true
    /\ forallb is_space w3 = true.

(** What follows the fourth colon in the eight-column form: three more
    tokens closed by colons and a last run without line feed. *)
Definition four_more (rest g5 g6 g7 g8 : text) : Prop :=
  exists w4 w5 w6 w7,
    rest = w4 ++ g5 ++ ":"%char :: w5 ++ g6 ++ ":"%char :: w6
              ++ g7 ++ ":"%char :: w7 ++ g8
    /\ (g5 <> [] /\ forallb not_colon g5 = true)
    /\ (g6 <> [] /\ forallb not_colon g6 = true)
    /\ (g7 <> [] /\ forallb not_colon g7 = true)
    /\ (g8 <> [] /\ forallb is_dot g8 = true)
    /\ forallb is_space w4 = true /\ forallb is_space w5 = true
    /\ forallb is_space w6 = true /\ forallb is_space w7 = true.

(** A field line of the eight-column form, as the generic parser reads it:
    the stripped line opens with four columns and goes on with four more. *)
Definition eight_columns (line g1 g2 g3 g4 g5 g6 g7 g8 : text) : Prop :=
  exists rest,
    four_columns (strip line) g1 g2 g3 g4 rest
    /\ four_more rest g5 g6 g7 g8.

(** An id or a size with more digits than [int] converts. *)
Definition overlong (g1 g3 : text) : Prop :=
  int_max_str_digits < len g1 \/ int_max_str_digits < len g3.

(** The field lines on which the two regular-expression parsers raise. *)
Definition overlong_line8 (line : text) : Prop :=
  exists g1 g2 g3 g4 g5 g6 g7 g8,
    eight_columns line g1 g2 g3 g4 g5 g6 g7 g8 /\ overlong g1 g3.

Definition overlong_line4 (line : text) : Prop :=
  exists g1 g2 g3 g4 rest,
    four_columns line g1 g2 g3 g4 rest /\ overlong g1 g3.

(** A descriptor as the field patterns can produce it: id and size are
    values of digit runs, name and type hold no colon. *)
Definition descriptor_ok (f : field) : Prop :=
  0 <= f_id f /\ 0 <= f_size f
  /\ forallb not_colon (f_name f) = true
  /\ forallb not_colon (f_type f) = true.

(** The value of a lowercase hexadecimal digit. *)
Definition hex_value (c : ascii) : Z :=
  if code c <? 58 then code c - 48 else code c - 87.

(** The byte two hexadecimal digits spell. *)
Definition byte_of_hex (hi lo : ascii) : option byte :=
  Byte.of_N (Z.to_N (16 * hex_value hi + hex_value lo)).

(** A decoded number, as opposed to [None], a hex string or a tuple. *)
Definition is_number (v : value) : bool :=
  match v with
  | VInt _ | VFloat _ => true
  | _ => false
  end.

(** A file whose header declares one field, in the eight-column form. *)
Definition field_file : bytes :=
  map byte_of_ascii
    (lit "1.0" ++ [ascii_of_nat 10]
     ++ lit "0: Sensor Index: 1: u8: 0: 0: 0: 1")
  ++ METADATA_DELIMITER ++ payload_with 200 [0; 61; 122]%nat.

(** The header of [field_file]. *)
Definition field_header : text :=
  lit "1.0" ++ [ascii_of_nat 10]
  ++ lit "0: Sensor Index: 1: u8: 0: 0: 0: 1".

(** A run of 4301 digits, one more than [int] converts, and a file whose
    header declares a field with that id. *)
Definition overlong_digits : text := repeat "7"%char 4301.

Definition overlong_header : text :=
  lit "1.0" ++ [ascii_of_nat 10]
  ++ overlong_digits ++ lit ": A: 1: u8: 0: 0: 0: 1".

Definition overlong_file : bytes :=
  map byte_of_ascii overlong_header
  ++ METADATA_DELIMITER ++ payload_with 200 [0; 61; 122]%nat.

(** The total width of the components [_parse_type_spec] lists. *)
Definition spec_width (entries : list (text * UdfParser.spec_fmt * Z)) : Z :=
  fold_right (fun e acc => snd e + acc) 0 entries.

Definition is_prim (e : text * UdfParser.spec_fmt * Z) : bool :=
  match snd (fst e) with
  | UdfParser.Prim _ => true
  | UdfParser.RawBytes _ => false
  end.

(** Window [i] of a payload framed by [header_size] and [record_size]. *)
Definition window (data : bytes) (header_size record_size i : Z) : bytes :=
  slice data (header_size + i * record_size)
        (header_size + (i + 1) * record_size).

(** ** Lists, slices and ranges *)

Lemma len_nonneg {A : Type} (l : list A) : 0 <= len l.
Proof. unfold len. lia. Qed.

Lemma len_app {A : Type} (l1 l2 : list A) : len (l1 ++ l2) = len l1 + len l2.
Proof. unfold len. rewrite length_app. lia. Qed.

Lemma len_cons {A : Type} (a : A) (l : list A) : len (a :: l) = 1 + len l.
Proof. unfold len. cbn [List.length]. lia. Qed.

Lemma slice_len {A : Type} (l : list A) (lo n : Z) :
  0 <= lo -> 0 <= n ->
  len (slice l lo (lo + n)) = Z.min n (Z.max 0 (len l - lo)).
Proof.
  intros Hlo Hn. unfold slice, len.
  rewrite length_firstn, length_skipn.
  replace (lo + n - lo) with n by lia. lia.
Qed.

Lemma slice_full_len {A : Type} (l : list A) (lo n : Z) :
  0 <= lo -> 0 <= n -> lo + n <= len l -> len (slice l lo (lo + n)) = n.
Proof. intros. rewrite slice_len by lia. lia. Qed.

Lemma slice_empty {A : Type} (l : list A) (lo : Z) : slice l lo lo = [].
Proof. unfold slice. replace (lo - lo) with 0 by lia. reflexivity. Qed.

Lemma skipn_nth_cons {A : Type} (d : A) (l : list A) (n : nat) :
  (n < List.length l)%nat -> skipn n l = nth n l d :: skipn (S n) l.
Proof.
  revert l. induction n as [|n IH]; intros [|a l] H; cbn in *; try lia.
  - reflexivity.
  - apply IH. lia.
Qed.

(** A non-empty slice starts with the element at its lower bound. *)
Lemma slice_cons (l : bytes) (lo hi : nat) :
  (lo < hi)%nat -> (lo < List.length l)%nat ->
  slice l (Z.of_nat lo) (Z.of_nat hi)
  = nth lo l x00 :: slice l (Z.of_nat (S lo)) (Z.of_nat hi).
Proof.
  intros Hlt Hin. unfold slice.
  rewrite !Nat2Z.id.
  replace (Z.to_nat (Z.of_nat hi - Z.of_nat lo)) with (S (hi - S lo)) by lia.
  replace (Z.to_nat (Z.of_nat hi - Z.of_nat (S lo))) with (hi - S lo)%nat
    by lia.
  rewrite (skipn_nth_cons x00) by assumption. reflexivity.
Qed.

Lemma le_uint_slice (l : bytes) (n lo : nat) :
  (lo + n <= List.length l)%nat ->
  le_uint (slice l (Z.of_nat lo) (Z.of_nat (lo + n))) = Spec.uint_at l lo n.
Proof.
  revert lo. induction n as [|n IH]; intros lo H.
  - rewrite Nat.add_0_r, slice_empty. reflexivity.
  - rewrite slice_cons by lia. cbn [le_uint Spec.uint_at].
    replace (lo + S n)%nat with (S lo + n)%nat by lia.
    rewrite IH by lia. reflexivity.
Qed.

Lemma byte_at_nth (l : bytes) (i : nat) :
  (i < List.length l)%nat -> byte_at l (Z.of_nat i) = Ok (Spec.byte_of l i).
Proof.
  intros H. unfold byte_at, Spec.byte_of. rewrite Nat2Z.id.
  rewrite (nth_error_nth' l x00 H). reflexivity.
Qed.

(** ** Fixed-offset decoding of a 61-byte window *)

Lemma unpack_unsigned_at (d : bytes) (lo n : nat) :
  (lo + n <= List.length d)%nat ->
  unpack_unsigned (Z.of_nat n) (slice d (Z.of_nat lo) (Z.of_nat (lo + n)))
  = Ok (Spec.uint_at d lo n).
Proof.
  intros H. unfold unpack_unsigned, sized.
  rewrite Nat2Z.inj_add, slice_full_len by (unfold len; lia).
  rewrite Z.eqb_refl, <- Nat2Z.inj_add, le_uint_slice by assumption.
  reflexivity.
Qed.

Lemma unpack_float_at (d : bytes) (lo : nat) :
  (lo + 4 <= List.length d)%nat ->
  unpack_float (slice d (Z.of_nat lo) (Z.of_nat (lo + 4)))
  = Ok (float32_of_bits (Spec.uint_at d lo 4)).
Proof.
  intros H. unfold unpack_float, sized.
  rewrite Nat2Z.inj_add, slice_full_len by (unfold len; lia).
  change (Z.of_nat 4 =? 4) with true. cbv iota.
  rewrite <- Nat2Z.inj_add, le_uint_slice by assumption.
  reflexivity.
Qed.

Lemma unpack_s8_at (d : bytes) (lo : nat) :
  (lo + 1 <= List.length d)%nat ->
  unpack_signed 1 (slice d (Z.of_nat lo) (Z.of_nat (lo + 1)))
  = Ok (if Spec.byte_of d lo <? 128 then Spec.byte_of d lo
        else Spec.byte_of d lo - 256).
Proof.
  intros H. unfold unpack_signed, sized.
  rewrite Nat2Z.inj_add, slice_full_len by (unfold len; lia).
  change (Z.of_nat 1 =? 1) with true. cbv iota.
  rewrite <- Nat2Z.inj_add, le_uint_slice by assumption.
  cbn [Spec.uint_at]. rewrite Z.mul_0_r, Z.add_0_r.
  reflexivity.
Qed.

(** A window of at least 61 bytes always decodes, to the row read at the
    documented offsets. *)
Lemma parse_record_61_byte_row (d : bytes) :
  61 <= len d -> RawData._parse_record_61_byte d = Some (Spec.canonical_row d).
Proof.
  intros H. unfold RawData._parse_record_61_byte.
  assert (Hn : (61 <= List.length d)%nat) by (unfold len in H; lia).
  replace (len d <? 61) with false by (symmetry; apply Z.ltb_ge; exact H).
  replace (byte_at d 60) with (Ok (Spec.byte_of d 60))
    by (symmetry; apply (byte_at_nth d 60); lia).
  replace (byte_at d 12) with (Ok (Spec.byte_of d 12))
    by (symmetry; apply (byte_at_nth d 12); lia).
  replace (byte_at d 39) with (Ok (Spec.byte_of d 39))
    by (symmetry; apply (byte_at_nth d 39); lia).
  replace (unpack_unsigned 4 (slice d 45 49)) with (Ok (Spec.uint_at d 45 4))
    by (symmetry; apply (unpack_unsigned_at d 45 4); lia).
  replace (unpack_unsigned 8 (slice d 2 10)) with (Ok (Spec.uint_at d 2 8))
    by (symmetry; apply (unpack_unsigned_at d 2 8); lia).
  replace (unpack_unsigned 4 (slice d 51 55)) with (Ok (Spec.uint_at d 51 4))
    by (symmetry; apply (unpack_unsigned_at d 51 4); lia).
  replace (unpack_float (slice d 33 37))
    with (Ok (float32_of_bits (Spec.uint_at d 33 4)))
    by (symmetry; apply (unpack_float_at d 33); lia).
  replace (unpack_float (slice d 27 31))
    with (Ok (float32_of_bits (Spec.uint_at d 27 4)))
    by (symmetry; apply (unpack_float_at d 27); lia).
  replace (unpack_float (slice d 21 25))
    with (Ok (float32_of_bits (Spec.uint_at d 21 4)))
    by (symmetry; apply (unpack_float_at d 21); lia).
  replace (unpack_float (slice d 15 19))
    with (Ok (float32_of_bits (Spec.uint_at d 15 4)))
    by (symmetry; apply (unpack_float_at d 15); lia).
  replace (unpack_signed 1 (slice d 53 54))
    with (Ok (if Spec.byte_of d 53 <? 128 then Spec.byte_of d 53
              else Spec.byte_of d 53 - 256))
    by (symmetry; apply (unpack_s8_at d 53); lia).
  reflexivity.
Qed.

(** C4. Fixed-offset mode: a 61-byte window decodes to the 13 canonical
    values read at the documented little-endian offsets (Sensor Index byte
    60, Sensor ID bytes 45-48, Time Since PowerOn bytes 2-9 divided by
    1,000,000, Real Time Clock 0, Temperature bytes 33-36, Pressure bytes
    27-30, Relative Humidity bytes 21-24, Gas Resistance bytes 15-18, Heater
    Profile Step Index byte 12, Scanning Mode Enabled 1, Scanning Cycle
    Index byte 39, Label Tag bytes 51-54, Error Code byte 53 signed); a
    window with byte 60 = 0x02 and bytes 45-48 = 07 00 00 00 has Sensor
    Index 2 and Sensor ID 7. *)
Theorem fixed_offset_row (d : bytes) :
  len d = 61 ->
  RawData._parse_record_61_byte d = Some (Spec.canonical_row d)
  /\ (nth 60 d x00 = x02 ->
      firstn 4 (skipn 45 d) = [x07; x00; x00; x00] ->
      exists rest,
        RawData._parse_record_61_byte d = Some (VInt 2 :: VInt 7 :: rest)).
Proof.
  intros H. split.
  - apply parse_record_61_byte_row. lia.
  - intros H60 H45. rewrite parse_record_61_byte_row by lia.
    assert (Hidx : Spec.byte_of d 60 = 2)
      by (unfold Spec.byte_of; rewrite H60; reflexivity).
    assert (Hid : Spec.uint_at d 45 4 = 7).
    { rewrite <- le_uint_slice by (unfold len in H; lia).
      change (slice d (Z.of_nat 45) (Z.of_nat (45 + 4)))
        with (firstn 4 (skipn 45 d)).
      rewrite H45. reflexivity. }
    unfold Spec.canonical_row. rewrite Hidx, Hid.
    eexists. reflexivity.
Qed.

Lemma fixed_offset_row_witness :
  RawData._parse_record_61_byte window_c4
  = Some (Spec.canonical_row window_c4)
  /\ exists rest,
       RawData._parse_record_61_byte window_c4
       = Some (VInt 2 :: VInt 7 :: rest).
Proof.
  destruct (fixed_offset_row window_c4 eq_refl) as [H1 H2].
  split; [exact H1 | exact (H2 eq_refl eq_refl)].
Defined.

(** ** The marker scan *)

(** The capped loop keeps the first ten hits of the uncapped scan. *)
Lemma scan_loop_firstn (data : bytes) (idxs acc : list Z) :
  len acc < 10 ->
  scan_loop data idxs acc
  = firstn 10 (acc ++ filter (is_marker_at data) idxs).
Proof.
  revert acc. induction idxs as [|i rest IH]; intros acc Hacc.
  - cbn [scan_loop filter]. rewrite app_nil_r, firstn_all2; [reflexivity|].
    unfold len in Hacc. lia.
  - cbn [scan_loop filter]. fold (is_marker_at data i).
    destruct (is_marker_at data i).
    + destruct (10 <=? len (acc ++ [i])) eqn:Hcap.
      * apply Z.leb_le in Hcap. rewrite len_app, len_cons in Hcap.
        change (len (@nil Z)) with 0 in Hcap.
        change (acc ++ i :: filter (is_marker_at data) rest)
          with (acc ++ [i] ++ filter (is_marker_at data) rest).
        rewrite app_assoc, firstn_app.
        assert (Hl : List.length (acc ++ [i]) = 10%nat)
          by (rewrite length_app; cbn [List.length]; unfold len in *; lia).
        rewrite Hl, Nat.sub_diag, firstn_O, app_nil_r.
        rewrite <- Hl at 1. symmetry. apply firstn_all.
      * apply Z.leb_gt in Hcap. rewrite IH by exact Hcap.
        rewrite <- app_assoc. reflexivity.
    + apply IH. exact Hacc.
Qed.

Lemma scan_markers_firstn (data : bytes) :
  scan_markers data = firstn 10 (scan_markers_all data).
Proof.
  unfold scan_markers, scan_markers_all.
  rewrite scan_loop_firstn by (cbn; lia). reflexivity.
Qed.

(** Fewer than two hits in the capped scan is fewer than two hits at all. *)
Lemma scan_markers_few (data : bytes) :
  len (scan_markers data) < 2 <-> len (scan_markers_all data) < 2.
Proof.
  rewrite scan_markers_firstn. unfold len. rewrite length_firstn. lia.
Qed.

Lemma range_sorted (n : Z) : StronglySorted Z.lt (range n).
Proof.
  unfold range. generalize 0%nat as s.
  induction (Z.to_nat n) as [|k IH]; intros s; cbn [seq map].
  - constructor.
  - constructor; [apply IH|].
    apply Forall_forall. intros y Hy.
    apply in_map_iff in Hy. destruct Hy as [j [<- Hj]].
    apply in_seq in Hj. lia.
Qed.

Lemma filter_sorted (p : Z -> bool) (l : list Z) :
  StronglySorted Z.lt l -> StronglySorted Z.lt (filter p l).
Proof.
  induction 1 as [|a l Hs IH Hall]; cbn [filter]; [constructor|].
  destruct (p a); [|exact IH].
  constructor; [exact IH|].
  apply Forall_forall. intros y Hy. apply filter_In in Hy.
  rewrite Forall_forall in Hall. apply Hall. tauto.
Qed.

Lemma in_firstn (k : nat) (l : list Z) (y : Z) :
  In y (firstn k l) -> In y l.
Proof.
  revert k. induction l as [|a l IH]; intros [|k]; cbn [firstn In]; try tauto.
  intros [H|H]; [left; exact H | right; exact (IH k H)].
Qed.

Lemma firstn_sorted (k : nat) (l : list Z) :
  StronglySorted Z.lt l -> StronglySorted Z.lt (firstn k l).
Proof.
  intros H. revert k. induction H as [|a l Hs IH Hall]; intros [|k];
    cbn [firstn]; try constructor.
  - apply IH.
  - apply Forall_forall. intros y Hy.
    rewrite Forall_forall in Hall. apply Hall.
    exact (in_firstn k l y Hy).
Qed.

Lemma scan_markers_sorted (data : bytes) :
  StronglySorted Z.lt (scan_markers data).
Proof.
  rewrite scan_markers_firstn. apply firstn_sorted.
  unfold scan_markers_all. apply filter_sorted, range_sorted.
Qed.

(** ** The most common interval *)

Lemma mem_In (x : Z) (l : list Z) : mem x l = true <-> In x l.
Proof.
  unfold mem. rewrite existsb_exists. split.
  - intros [y [Hy He]]. apply Z.eqb_eq in He. subst. exact Hy.
  - intros H. exists x. split; [exact H | apply Z.eqb_refl].
Qed.

Lemma is_set_of_In (order l : list Z) :
  is_set_of order l = true -> forall x, In x order <-> In x l.
Proof.
  unfold is_set_of. rewrite !andb_true_iff, !forallb_forall.
  intros [[_ H1] H2] x. split; intros H.
  - apply mem_In, H1, H.
  - apply mem_In, H2, H.
Qed.

Lemma first_seen_In (l seen : list Z) (y : Z) :
  In y (first_seen seen l) <-> In y l /\ ~ In y seen.
Proof.
  revert seen. induction l as [|x rest IH]; intros seen; cbn [first_seen In].
  - tauto.
  - destruct (mem x seen) eqn:E.
    + apply mem_In in E. rewrite IH. split.
      * tauto.
      * intros [[->|H] Hn]; tauto.
    + assert (Hx : ~ In x seen)
        by (intros H; apply mem_In in H; congruence).
      cbn [In]. rewrite IH. cbn [In]. split.
      * intros [<-|[H Hn]]; tauto.
      * intros [[->|H] Hn]; [tauto|].
        destruct (Z.eq_dec x y); [tauto|]. right. tauto.
Qed.

Lemma first_seen_nodup (l seen : list Z) : nodupb (first_seen seen l) = true.
Proof.
  revert seen. induction l as [|x rest IH]; intros seen; cbn [first_seen].
  - reflexivity.
  - destruct (mem x seen); [apply IH|].
    cbn [nodupb]. rewrite IH, andb_true_r.
    destruct (mem x (first_seen (x :: seen) rest)) eqn:E; [|reflexivity].
    apply mem_In, first_seen_In in E. cbn [In] in E. tauto.
Qed.

(** The iteration order used to run the model is lawful on every list. *)
Lemma set_first_seen_lawful (l : list Z) :
  is_set_of (set_first_seen l) l = true.
Proof.
  unfold is_set_of, set_first_seen.
  rewrite first_seen_nodup. cbn [andb].
  apply andb_true_iff. split; apply forallb_forall; intros x Hx;
    apply mem_In.
  - apply first_seen_In in Hx. tauto.
  - apply first_seen_In. cbn [In]. tauto.
Qed.

Lemma first_max_step (key : Z -> Z) (seen : list Z) (best x : Z) :
  first_max key seen best ->
  first_max key (seen ++ [x]) (if key best <? key x then x else best).
Proof.
  intros [pre [post [-> [Hpre Hpost]]]].
  destruct (key best <? key x) eqn:Hlt.
  - apply Z.ltb_lt in Hlt.
    exists (pre ++ best :: post), []. repeat split.
    + intros y Hy. apply in_app_or in Hy. destruct Hy as [Hy|[<-|Hy]].
      * specialize (Hpre y Hy). lia.
      * exact Hlt.
      * specialize (Hpost y Hy). lia.
    + intros y [].
  - apply Z.ltb_ge in Hlt.
    exists pre, (post ++ [x]). repeat split.
    + rewrite <- app_assoc. reflexivity.
    + exact Hpre.
    + intros y Hy. apply in_app_or in Hy. destruct Hy as [Hy|[<-|[]]].
      * exact (Hpost y Hy).
      * exact Hlt.
Qed.

Lemma max_loop_first_max (key : Z -> Z) (items seen : list Z) (best : Z) :
  first_max key seen best ->
  first_max key (seen ++ items) (max_loop key best items).
Proof.
  revert seen best. induction items as [|x rest IH]; intros seen best H.
  - rewrite app_nil_r. exact H.
  - cbn [max_loop].
    change (seen ++ x :: rest) with (seen ++ [x] ++ rest).
    rewrite app_assoc. apply IH, first_max_step, H.
Qed.

Lemma max_key_first_max (key : Z -> Z) (items : list Z) :
  items <> [] -> exists x, max_key key items = Ok x /\ first_max key items x.
Proof.
  destruct items as [|a rest]; [congruence|]. intros _.
  exists (max_loop key a rest). split; [reflexivity|].
  apply (max_loop_first_max key rest [a] a).
  exists [], []. repeat split; intros y [].
Qed.

Lemma first_max_In (key : Z -> Z) (order : list Z) (x : Z) :
  first_max key order x ->
  In x order /\ forall y, In y order -> key y <= key x.
Proof.
  intros [pre [post [-> [Hpre Hpost]]]]. split.
  - apply in_or_app. right. left. reflexivity.
  - intros y Hy. apply in_app_or in Hy. destruct Hy as [Hy|[<-|Hy]].
    + specialize (Hpre y Hy). lia.
    + lia.
    + exact (Hpost y Hy).
Qed.

(** On a lawful iteration order the answer is a value of greatest
    frequency, the first such value the set hands out. *)
Lemma most_common_spec (set_iter : list Z -> list Z) (l : list Z) :
  is_set_of (set_iter l) l = true -> l <> [] ->
  exists x,
    most_common set_iter l = Ok x
    /\ first_max (count l) (set_iter l) x
    /\ In x l
    /\ forall y, In y l -> count l y <= count l x.
Proof.
  intros Hset Hne. pose proof (is_set_of_In _ _ Hset) as Hin.
  assert (Hne' : set_iter l <> []).
  { destruct l as [|a l]; [congruence|].
    intros E. assert (In a (set_iter (a :: l))) by (apply Hin; left; reflexivity).
    rewrite E in H. destruct H. }
  destruct (max_key_first_max (count l) (set_iter l) Hne') as [x [Hx Hfm]].
  exists x. split; [exact Hx|]. split; [exact Hfm|].
  destruct (first_max_In _ _ _ Hfm) as [Hxin Hmax]. split.
  - apply Hin, Hxin.
  - intros y Hy. apply Hmax, Hin, Hy.
Qed.

(** When one value is strictly more frequent than every other, it is the
    answer whatever the iteration order. *)
Lemma most_common_unique (set_iter : list Z -> list Z) (l : list Z) (m : Z) :
  is_set_of (set_iter l) l = true -> In m l ->
  (forall y, In y l -> y <> m -> count l y < count l m) ->
  most_common set_iter l = Ok m.
Proof.
  intros Hset Hm Huniq.
  assert (Hne : l <> []) by (intros ->; destruct Hm).
  destruct (most_common_spec set_iter l Hset Hne) as [x [Hx [_ [Hxin Hmax]]]].
  rewrite Hx. f_equal.
  destruct (Z.eq_dec x m) as [E|E]; [exact E|].
  specialize (Huniq x Hxin E). specialize (Hmax m Hm). lia.
Qed.

(** ** The interval lists *)

Lemma getitem_cons (a : Z) (l : list Z) (i : Z) :
  0 <= i -> getitem (a :: l) (i + 1) = getitem l i.
Proof.
  intros H. unfold getitem.
  replace (Z.to_nat (i + 1)) with (S (Z.to_nat i)) by lia. reflexivity.
Qed.

Lemma range_succ (n : Z) :
  0 <= n -> range (n + 1) = 0 :: map (fun i => i + 1) (range n).
Proof.
  intros H. unfold range.
  replace (Z.to_nat (n + 1)) with (S (Z.to_nat n)) by lia.
  cbn [seq map]. f_equal.
  rewrite <- seq_shift, !map_map. apply map_ext. intros j. lia.
Qed.

Lemma range_In (n i : Z) : In i (range n) -> 0 <= i < n.
Proof.
  unfold range. intros H. apply in_map_iff in H.
  destruct H as [j [<- Hj]]. apply in_seq in Hj. lia.
Qed.

Lemma deltas_cons (a b : Z) (rest : list Z) :
  deltas (a :: b :: rest) = (b - a) :: deltas (b :: rest).
Proof. reflexivity. Qed.

Lemma intervals_all_deltas (positions : list Z) :
  intervals_all positions = deltas positions.
Proof.
  induction positions as [|a [|b rest] IH]; try reflexivity.
  unfold intervals_all in *.
  replace (len (a :: b :: rest) - 1) with (len (b :: rest) - 1 + 1)
    by (rewrite (len_cons a); lia).
  rewrite range_succ by (rewrite len_cons; pose proof (len_nonneg rest); lia).
  rewrite deltas_cons. cbn [map]. f_equal. rewrite <- IH, map_map.
  apply map_ext_in. intros i Hi. apply range_In in Hi.
  rewrite !getitem_cons by lia. reflexivity.
Qed.

Lemma range2_one (n : Z) : range2 1 n = map (fun i => i + 1) (range (n - 1)).
Proof.
  unfold range2, range. rewrite map_map. apply map_ext. intros j. lia.
Qed.

Lemma intervals_tail_deltas (positions : list Z) :
  intervals_tail positions = deltas (tl positions).
Proof.
  destruct positions as [|a rest]; [reflexivity|].
  cbn [tl]. rewrite <- intervals_all_deltas.
  unfold intervals_tail, intervals_all.
  rewrite range2_one, map_map.
  replace (len (a :: rest) - 1 - 1) with (len rest - 1)
    by (rewrite len_cons; lia).
  apply map_ext_in. intros i Hi. apply range_In in Hi.
  rewrite !getitem_cons by lia. reflexivity.
Qed.

Lemma scan_markers_bound (data : bytes) (p : Z) :
  In p (scan_markers data) -> 0 <= p < len data - 1.
Proof.
  rewrite scan_markers_firstn. intros H. apply in_firstn in H.
  unfold scan_markers_all in H. apply filter_In in H. destruct H as [H _].
  apply range_In in H. lia.
Qed.

(** ** Framing detection *)

(** C10. Canonical-schema path: when the scan finds exactly two markers the
    only delta serves as header size, the list handed to the mode
    computation is empty, and the detection answers the fallback
    [(28, 61)]. *)
Theorem two_markers_fallback (set_iter : list Z -> list Z) (data : bytes) :
  len (scan_markers data) = 2 ->
  intervals_tail (scan_markers data) = []
  /\ RawData._detect_record_size set_iter data = Ok (28, 61).
Proof.
  intros H. unfold RawData._detect_record_size.
  destruct (scan_markers data) as [|a [|b [|c l]]];
    try (rewrite ?len_cons in H; cbn in H; lia).
  - split; reflexivity.
  - rewrite !len_cons in H. pose proof (len_nonneg l). lia.
Qed.

Lemma two_markers_fallback_witness :
  RawData._detect_record_size set_first_seen (payload_with 200 [0; 61]%nat)
  = Ok (28, 61).
Proof.
  exact (proj2 (two_markers_fallback set_first_seen
                  (payload_with 200 [0; 61]%nat) eq_refl)).
Defined.

(** C7, as stated, fails: on a payload of 50 bytes without any marker the
    generic parser answers [(61, 61)], not the default [(28, 61)]. *)
Lemma short_payload_default :
  len (scan_markers (repeat x01 50)) < 2
  /\ UdfParser._calculate_record_size set_first_seen (repeat x01 50)
     = Ok (61, 61)
  /\ UdfParser._calculate_record_size set_first_seen (repeat x01 50)
     <> Ok (28, 61).
Proof.
  split; [vm_compute; reflexivity|].
  split; [vm_compute; reflexivity|].
  vm_compute. discriminate.
Qed.

(** C7, amended. With fewer than two markers in the scan window the
    converter script fails ("Could not detect record structure"); the
    generic parser answers the default [(28, 61)] on a payload of at least
    100 bytes and [(61, 61)] on a shorter one; the canonical-schema
    converter answers [(28, 61)]. *)
Theorem few_markers_framing (set_iter : list Z -> list Z) (data : bytes) :
  len (scan_markers data) < 2 ->
  Converter.parse_udf_file_framing set_iter data
  = Raise (ValueError "Could not detect record structure")
  /\ UdfParser._calculate_record_size set_iter data
     = Ok (if len data <? 100 then (61, 61) else (28, 61))
  /\ RawData._detect_record_size set_iter data = Ok (28, 61).
Proof.
  intros H. split; [|split].
  - unfold Converter.parse_udf_file_framing.
    apply scan_markers_few in H. apply Z.ltb_lt in H. rewrite H.
    reflexivity.
  - unfold UdfParser._calculate_record_size.
    destruct data as [|b data]; [reflexivity|].
    cbn [orb]. destruct (len (b :: data) <? 100); [reflexivity|].
    apply Z.leb_gt in H. rewrite H. reflexivity.
  - unfold RawData._detect_record_size.
    apply Z.leb_gt in H. rewrite H. reflexivity.
Qed.

Lemma few_markers_framing_witness :
  UdfParser._calculate_record_size set_first_seen (repeat x01 120)
  = Ok (28, 61).
Proof.
  exact (proj1 (proj2 (few_markers_framing set_first_seen (repeat x01 120)
                         eq_refl))).
Defined.

Lemma intervals_all_nonempty (positions : list Z) :
  2 <= len positions -> intervals_all positions <> [].
Proof.
  rewrite intervals_all_deltas.
  destruct positions as [|a [|b l]]; cbn; intros H; try lia. discriminate.
Qed.

Lemma intervals_tail_nonempty (positions : list Z) :
  3 <= len positions -> intervals_tail positions <> [].
Proof.
  rewrite intervals_tail_deltas.
  destruct positions as [|a [|b [|c l]]]; cbn; intros H; try lia.
  discriminate.
Qed.

(** The generic parser on a payload of at least 100 bytes with two markers
    or more: the sizes come from the most common interval. *)
Lemma calculate_record_size_eq (set_iter : list Z -> list Z) (data : bytes) :
  100 <= len data -> 2 <= len (scan_markers data) ->
  UdfParser._calculate_record_size set_iter data
  = (subsequent_size <-
       most_common set_iter (intervals_all (scan_markers data));;
     Ok (if getitem (scan_markers data) 0 <? subsequent_size
         then getitem (scan_markers data) 0 + subsequent_size
         else subsequent_size, subsequent_size)).
Proof.
  intros Hlen Hpos. unfold UdfParser._calculate_record_size.
  destruct data as [|b data]; [cbn in Hlen; lia|].
  cbn [orb].
  replace (len (b :: data) <? 100) with false
    by (symmetry; apply Z.ltb_ge; exact Hlen).
  replace (2 <=? len (scan_markers (b :: data))) with true
    by (symmetry; apply Z.leb_le; exact Hpos).
  pose proof (intervals_all_nonempty _ Hpos) as Hne.
  destruct (intervals_all (scan_markers (b :: data))); [congruence|].
  reflexivity.
Qed.

(** The canonical-schema converter with three markers or more. *)
Lemma detect_record_size_eq (set_iter : list Z -> list Z) (data : bytes) :
  3 <= len (scan_markers data) ->
  RawData._detect_record_size set_iter data
  = (record_size <-
       most_common set_iter (intervals_tail (scan_markers data));;
     Ok (getitem (scan_markers data) 1 - getitem (scan_markers data) 0,
         record_size)).
Proof.
  intros Hpos. unfold RawData._detect_record_size.
  replace (2 <=? len (scan_markers data)) with true
    by (symmetry; apply Z.leb_le; lia).
  pose proof (intervals_tail_nonempty _ Hpos) as Hne.
  destruct (intervals_tail (scan_markers data)); [congruence|].
  reflexivity.
Qed.

(** C5, as stated, fails on both paths. Markers at 28, 89, 150: the first
    marker's offset 28 is below the record size 61, the first delta is 61,
    the generic parser answers 89. Markers at 10, 20, 22, 24: the first
    marker's offset 10 is not below the record size 2, and the
    canonical-schema converter answers the first delta 10, not 2. *)
Lemma header_size_mismatch :
  (scan_markers (payload_with 200 [28; 89; 150]%nat) = [28; 89; 150]
   /\ UdfParser._calculate_record_size set_first_seen
        (payload_with 200 [28; 89; 150]%nat) = Ok (89, 61)
   /\ Spec.header_size [28; 89; 150] 61 = 61)
  /\ (scan_markers (payload_with 200 [10; 20; 22; 24]%nat) = [10; 20; 22; 24]
      /\ RawData._detect_record_size set_first_seen
           (payload_with 200 [10; 20; 22; 24]%nat) = Ok (10, 2)
      /\ Spec.header_size [10; 20; 22; 24] 2 = 2).
Proof. vm_compute. repeat split; reflexivity. Qed.

(** C5, amended. On a lawful set order: in the canonical-schema converter,
    with at least three markers, the header size is the delta between the
    first two markers, whatever the first marker's offset; in the generic
    parser, on a payload of at least 100 bytes with at least two markers,
    the first record size is the first marker's offset plus the record size
    when that offset is below the record size, and the record size
    otherwise. *)
Theorem header_size_by_path (set_iter : list Z -> list Z) (data : bytes) :
  is_set_of (set_iter (intervals_all (scan_markers data)))
            (intervals_all (scan_markers data)) = true ->
  is_set_of (set_iter (intervals_tail (scan_markers data)))
            (intervals_tail (scan_markers data)) = true ->
  (3 <= len (scan_markers data) ->
   exists record_size,
     RawData._detect_record_size set_iter data
     = Ok (getitem (scan_markers data) 1 - getitem (scan_markers data) 0,
           record_size))
  /\ (100 <= len data -> 2 <= len (scan_markers data) ->
      exists record_size,
        UdfParser._calculate_record_size set_iter data
        = Ok (if getitem (scan_markers data) 0 <? record_size
              then getitem (scan_markers data) 0 + record_size
              else record_size, record_size)).
Proof.
  intros Hall Htail. split.
  - intros Hpos. rewrite detect_record_size_eq by exact Hpos.
    destruct (most_common_spec set_iter _ Htail
                (intervals_tail_nonempty _ Hpos)) as [x [Hx _]].
    exists x. rewrite Hx. reflexivity.
  - intros Hlen Hpos. rewrite calculate_record_size_eq by assumption.
    destruct (most_common_spec set_iter _ Hall
                (intervals_all_nonempty _ Hpos)) as [x [Hx _]].
    exists x. rewrite Hx. reflexivity.
Qed.

Lemma header_size_by_path_witness :
  (exists record_size,
     RawData._detect_record_size set_first_seen
       (payload_with 200 [28; 89; 150]%nat) = Ok (61, record_size))
  /\ (exists record_size,
        UdfParser._calculate_record_size set_first_seen
          (payload_with 200 [28; 89; 150]%nat)
        = Ok (if 28 <? record_size then 28 + record_size else record_size,
              record_size)).
Proof.
  destruct (header_size_by_path set_first_seen
              (payload_with 200 [28; 89; 150]%nat) eq_refl eq_refl)
    as [H1 H2].
  split.
  - apply H1. vm_compute. discriminate.
  - apply H2; vm_compute; discriminate.
Defined.

(** C1, as stated, fails on both paths. Two markers at 0 and 5 in a payload
    of 200 bytes: the only delta is 5, the canonical-schema converter
    answers record size 61. Markers at 0, 2, 4 in a payload of 6 bytes: the
    mode of the deltas is 2, the generic parser answers 61. *)
Lemma record_size_not_the_mode :
  (scan_markers (payload_with 200 [0; 5]%nat) = [0; 5]
   /\ Spec.mode_smallest (intervals_all [0; 5]) = Some 5
   /\ RawData._detect_record_size set_first_seen
        (payload_with 200 [0; 5]%nat) = Ok (28, 61))
  /\ (scan_markers (payload_with 6 [0; 2; 4]%nat) = [0; 2; 4]
      /\ Spec.mode_smallest (intervals_all [0; 2; 4]) = Some 2
      /\ UdfParser._calculate_record_size set_first_seen
           (payload_with 6 [0; 2; 4]%nat) = Ok (61, 61)).
Proof. vm_compute. repeat split; reflexivity. Qed.

Lemma mode_of_scenario_all (set_iter : list Z -> list Z) :
  is_set_of (set_iter [61; 61; 28; 61]) [61; 61; 28; 61] = true ->
  most_common set_iter [61; 61; 28; 61] = Ok 61.
Proof.
  intros H. apply most_common_unique; [exact H | cbn; tauto |].
  intros y Hy Hne. cbn in Hy.
  destruct Hy as [<-|[<-|[<-|[<-|[]]]]]; try congruence.
  vm_compute. reflexivity.
Qed.

Lemma mode_of_scenario_tail (set_iter : list Z -> list Z) :
  is_set_of (set_iter [61; 28; 61]) [61; 28; 61] = true ->
  most_common set_iter [61; 28; 61] = Ok 61.
Proof.
  intros H. apply most_common_unique; [exact H | cbn; tauto |].
  intros y Hy Hne. cbn in Hy.
  destruct Hy as [<-|[<-|[<-|[]]]]; try congruence.
  vm_compute. reflexivity.
Qed.

(** C1, amended. On a lawful set order: the generic parser, on a payload of
    at least 100 bytes with at least two markers, answers as record size a
    value of greatest frequency among the consecutive deltas, ties broken
    by the first such value in the iteration order of the set; the
    canonical-schema converter, with at least three markers, does the same
    on the deltas after the first one; for the deltas [61, 61, 28, 61] both
    answer 61. *)
Theorem record_size_is_a_mode (set_iter : list Z -> list Z) (data : bytes) :
  let all := intervals_all (scan_markers data) in
  let tail := intervals_tail (scan_markers data) in
  is_set_of (set_iter all) all = true ->
  is_set_of (set_iter tail) tail = true ->
  (100 <= len data -> 2 <= len (scan_markers data) ->
   exists first_size record_size,
     UdfParser._calculate_record_size set_iter data
     = Ok (first_size, record_size)
     /\ first_max (count all) (set_iter all) record_size
     /\ In record_size all
     /\ forall y, In y all -> count all y <= count all record_size)
  /\ (3 <= len (scan_markers data) ->
      exists header_size record_size,
        RawData._detect_record_size set_iter data
        = Ok (header_size, record_size)
        /\ first_max (count tail) (set_iter tail) record_size
        /\ In record_size tail
        /\ forall y, In y tail -> count tail y <= count tail record_size)
  /\ (all = [61; 61; 28; 61] ->
      exists first_size header_size,
        UdfParser._calculate_record_size set_iter data = Ok (first_size, 61)
        /\ RawData._detect_record_size set_iter data = Ok (header_size, 61)).
Proof.
  intros all tail Hall Htail. split; [|split].
  - intros Hlen Hpos. rewrite calculate_record_size_eq by assumption.
    destruct (most_common_spec set_iter _ Hall
                (intervals_all_nonempty _ Hpos)) as [x [Hx Hrest]].
    fold all. rewrite Hx. cbn [bind]. eauto.
  - intros Hpos. rewrite detect_record_size_eq by exact Hpos.
    destruct (most_common_spec set_iter _ Htail
                (intervals_tail_nonempty _ Hpos)) as [x [Hx Hrest]].
    fold tail. rewrite Hx. cbn [bind]. eauto.
  - intros E. subst all tail.
    rewrite intervals_tail_deltas in *. rewrite intervals_all_deltas in *.
    pose proof (scan_markers_bound data) as Hb.
    destruct (scan_markers data) as [|p0 [|p1 [|p2 [|p3 [|p4 [|p5 l]]]]]]
      eqn:Hscan; try discriminate E.
    cbn [deltas] in E. injection E as E1 E2 E3 E4.
    assert (H0 : 0 <= p0 < len data - 1) by (apply Hb; cbn; tauto).
    assert (H4 : 0 <= p4 < len data - 1) by (apply Hb; cbn; tauto).
    assert (Hd : deltas [p0; p1; p2; p3; p4] = [61; 61; 28; 61])
      by (cbn [deltas]; congruence).
    assert (Ht : deltas (tl [p0; p1; p2; p3; p4]) = [61; 28; 61])
      by (cbn [deltas tl]; congruence).
    rewrite Hd in Hall. rewrite Ht in Htail.
    exists (if p0 <? 61 then p0 + 61 else 61), (p1 - p0). split.
    + rewrite calculate_record_size_eq; rewrite ?Hscan.
      * rewrite intervals_all_deltas, Hd, mode_of_scenario_all by exact Hall.
        reflexivity.
      * lia.
      * cbn. lia.
    + rewrite detect_record_size_eq; rewrite ?Hscan.
      * rewrite intervals_tail_deltas, Ht, mode_of_scenario_tail
          by exact Htail.
        reflexivity.
      * cbn. lia.
Qed.

Lemma record_size_is_a_mode_witness :
  intervals_all (scan_markers (payload_with 250 [0; 61; 122; 150; 211]%nat))
  = [61; 61; 28; 61]
  /\ exists first_size header_size,
       UdfParser._calculate_record_size set_first_seen
         (payload_with 250 [0; 61; 122; 150; 211]%nat) = Ok (first_size, 61)
       /\ RawData._detect_record_size set_first_seen
            (payload_with 250 [0; 61; 122; 150; 211]%nat)
          = Ok (header_size, 61).
Proof.
  split; [vm_compute; reflexivity|].
  exact (proj2 (proj2 (record_size_is_a_mode set_first_seen
                         (payload_with 250 [0; 61; 122; 150; 211]%nat)
                         eq_refl eq_refl)) eq_refl).
Defined.

(** ** Record extraction *)

Lemma parse_metadata_keeps_data (st st' : UdfParser.state) (metadata : text) :
  UdfParser._parse_metadata st metadata = Ok st' ->
  UdfParser.binary_data st' = UdfParser.binary_data st.
Proof.
  unfold UdfParser._parse_metadata.
  destruct (split _ _); [discriminate|].
  destruct (UdfParser.parse_lines _ _); cbn [bind]; [|discriminate].
  intros H. injection H as <-. reflexivity.
Qed.

Lemma parse_loads_data (decode : bytes -> text) (st st' : UdfParser.state)
  (content : bytes) :
  UdfParser.parse decode st content = Ok st' ->
  exists data, UdfParser.binary_data st' = Some data.
Proof.
  unfold UdfParser.parse.
  destruct (find content METADATA_DELIMITER =? -1); [discriminate|].
  intros H. apply parse_metadata_keeps_data in H.
  rewrite H. cbn. eauto.
Qed.

(** C2. After a successful [parse], [extract_records] of the generic parser
    raises and returns no records: the pair that
    [_calculate_record_size] answers is not equal to 0, and adding it to
    the integer offset in the loop condition is a [TypeError], before any
    record is decoded. *)
Theorem extract_records_always_raises (decode : bytes -> text)
  (set_iter : list Z -> list Z) (st st' : UdfParser.state) (content : bytes)
  (fuel : nat) :
  UdfParser.parse decode st content = Ok st' ->
  (0 < fuel)%nat ->
  (exists e, UdfParser.extract_records set_iter fuel st' = Some (Raise e))
  /\ (forall data sizes,
        UdfParser.binary_data st' = Some data ->
        UdfParser._calculate_record_size set_iter data = Ok sizes ->
        UdfParser.extract_records set_iter fuel st' = Some (Raise TypeError)).
Proof.
  intros Hparse Hfuel.
  destruct (parse_loads_data _ _ _ _ Hparse) as [data Hdata].
  destruct fuel as [|fuel]; [lia|].
  assert (Hok : forall sizes,
             UdfParser._calculate_record_size set_iter data = Ok sizes ->
             UdfParser.extract_records set_iter (S fuel) st'
             = Some (Raise TypeError)).
  { intros [first_size subsequent_size] Hsize.
    unfold UdfParser.extract_records. rewrite Hdata, Hsize. reflexivity. }
  split.
  - destruct (UdfParser._calculate_record_size set_iter data) as [sizes|e]
      eqn:Hsize.
    + exists TypeError. apply (Hok sizes). reflexivity.
    + exists e. unfold UdfParser.extract_records.
      rewrite Hdata, Hsize. reflexivity.
  - intros data' sizes Hdata' Hsize.
    rewrite Hdata in Hdata'. injection Hdata' as <-.
    exact (Hok sizes Hsize).
Qed.

Lemma extract_records_always_raises_witness :
  exists st',
    UdfParser.parse decode_ascii UdfParser.init sample_file = Ok st'
    /\ UdfParser.extract_records set_first_seen 1 st' = Some (Raise TypeError).
Proof.
  eexists. split; [vm_compute; reflexivity|].
  refine (proj2 (extract_records_always_raises decode_ascii set_first_seen
                   UdfParser.init _ sample_file 1 _ _) _ _ _ _).
  - vm_compute. reflexivity.
  - lia.
  - vm_compute. reflexivity.
  - vm_compute. reflexivity.
Defined.

Lemma detect_header_nonneg (set_iter : list Z -> list Z) (data : bytes)
  (h rs : Z) :
  RawData._detect_record_size set_iter data = Ok (h, rs) -> 0 <= h.
Proof.
  unfold RawData._detect_record_size.
  pose proof (scan_markers_sorted data) as Hs.
  destruct (scan_markers data) as [|p0 [|p1 rest]];
    try (cbn; intros [= <- <-]; lia).
  destruct (2 <=? len (p0 :: p1 :: rest)); [|intros [= <- <-]; lia].
  destruct (intervals_tail (p0 :: p1 :: rest)); [intros [= <- <-]; lia|].
  destruct (most_common set_iter (z :: l)); [|discriminate].
  cbn [bind]. intros [= <- <-].
  apply StronglySorted_inv in Hs. destruct Hs as [_ Hall].
  apply Forall_inv in Hall.
  change (getitem (p0 :: p1 :: rest) 1) with p1.
  change (getitem (p0 :: p1 :: rest) 0) with p0. lia.
Qed.

(** The loop of the canonical-schema converter on [n] whole windows of at
    least 61 bytes followed by a shorter tail. *)
Lemma extract_loop_windows (data : bytes) (rs r : Z) (n : nat) :
  61 <= rs -> 0 <= r < rs ->
  forall (fuel : nat) (offset : Z) (records : list (list value)),
    0 <= offset ->
    len data = offset + Z.of_nat n * rs + r ->
    (n < fuel)%nat ->
    exists rows,
      RawData.extract_loop fuel data rs offset records
      = Some (records ++ rows)
      /\ List.length rows = n.
Proof.
  intros Hrs Hr. induction n as [|n IH]; intros fuel offset records Hoff Hlen Hf;
    (destruct fuel as [|fuel]; [lia|]); cbn [RawData.extract_loop].
  - replace (offset + rs <=? len data) with false
      by (symmetry; apply Z.leb_gt; lia).
    exists []. rewrite app_nil_r. split; reflexivity.
  - replace (offset + rs <=? len data) with true
      by (symmetry; apply Z.leb_le; nia).
    rewrite parse_record_61_byte_row
      by (rewrite slice_full_len; nia).
    destruct (IH fuel (offset + rs)
                (records ++ [Spec.canonical_row
                               (slice data offset (offset + rs))]))
      as [rows [Hrows Hn]]; try lia.
    exists (Spec.canonical_row (slice data offset (offset + rs)) :: rows).
    rewrite Hrows, <- app_assoc. split; [reflexivity|].
    cbn [List.length]. lia.
Qed.

(** C3, as stated, fails: with markers at 0, 2, 4, 6 in a payload of 9
    bytes the detected framing is header 2, record size 2, the payload past
    the header is 3 * 2 + 1 bytes long, and no record is decoded. *)
Lemma short_windows_yield_nothing :
  RawData._detect_record_size set_first_seen (payload_with 9 [0; 2; 4; 6]%nat)
  = Ok (2, 2)
  /\ len (payload_with 9 [0; 2; 4; 6]%nat) = 2 + 3 * 2 + 1
  /\ RawData.extract_records set_first_seen 10
       (payload_with 9 [0; 2; 4; 6]%nat) = Some (Ok []).
Proof. vm_compute. repeat split; reflexivity. Qed.

(** C3, amended. Canonical-schema path: for every detected framing with a
    record size of at least 61 and every payload whose length past the
    header is [k * record_size + r] with [0 < r < record_size], extraction
    returns exactly [k] records and no error, given more than [k] units of
    fuel. *)
Theorem truncated_tail_61 (set_iter : list Z -> list Z) (data : bytes)
  (header_size record_size k r : Z) (fuel : nat) :
  RawData._detect_record_size set_iter data = Ok (header_size, record_size) ->
  61 <= record_size ->
  0 <= k -> 0 < r < record_size ->
  len data = header_size + k * record_size + r ->
  (Z.to_nat k < fuel)%nat ->
  exists records,
    RawData.extract_records set_iter fuel data = Some (Ok records)
    /\ len records = k.
Proof.
  intros Hdet Hrs Hk Hr Hlen Hfuel.
  pose proof (detect_header_nonneg _ _ _ _ Hdet) as Hh.
  unfold RawData.extract_records. rewrite Hdet.
  destruct (extract_loop_windows data record_size r (Z.to_nat k) Hrs
              ltac:(lia) fuel header_size [] Hh ltac:(lia) Hfuel)
    as [rows [Hrows Hn]].
  exists rows. rewrite Hrows. split; [reflexivity|].
  unfold len. lia.
Qed.

Lemma truncated_tail_61_witness :
  exists records,
    RawData.extract_records set_first_seen 3
      (payload_with 200 [0; 28; 89; 150]%nat) = Some (Ok records)
    /\ len records = 2.
Proof.
  apply (truncated_tail_61 set_first_seen
           (payload_with 200 [0; 28; 89; 150]%nat) 28 61 2 50 3);
    try (vm_compute; reflexivity); lia.
Defined.

(** ** Field decoding *)

Lemma split_no_sep (sep : ascii) (s : text) :
  ~ In sep s -> split sep s = [s].
Proof.
  induction s as [|c rest IH]; intros H; [reflexivity|].
  cbn [split].
  destruct (Ascii.eqb c sep) eqn:E.
  - apply Ascii.eqb_eq in E. subst. exfalso. apply H. left. reflexivity.
  - rewrite IH; [reflexivity|]. intros Hin. apply H. right. exact Hin.
Qed.

Lemma hex_len (data : bytes) : len (hex data) = 2 * len data.
Proof.
  induction data as [|b data IH]; [reflexivity|].
  change (hex (b :: data)) with (byte_hex b ++ hex data).
  rewrite len_app, IH, len_cons.
  change (len (byte_hex b)) with 2. lia.
Qed.

Lemma byte_hex_lower (b : byte) :
  forallb Spec.is_lower_hex (byte_hex b) = true.
Proof. destruct b; reflexivity. Qed.

Lemma hex_lower (data : bytes) : forallb Spec.is_lower_hex (hex data) = true.
Proof.
  induction data as [|b data IH]; [reflexivity|].
  change (hex (b :: data)) with (byte_hex b ++ hex data).
  rewrite forallb_app, byte_hex_lower, IH. reflexivity.
Qed.

(** C8. A field whose type is a single unrecognized token decodes, without
    raising, to the lowercase hex string of its raw bytes, of length
    [2 * size] on a window of exactly [size] bytes. *)
Theorem unknown_type_hex (data : bytes) (type_spec : text) (size : Z) :
  ~ In ","%char type_spec ->
  UdfParser.TYPE_MAP (strip type_spec) = None ->
  len data = size ->
  UdfParser._parse_field_value data type_spec size = Ok (VHex (hex data))
  /\ len (hex data) = 2 * size
  /\ forallb Spec.is_lower_hex (hex data) = true.
Proof.
  intros Hcomma Htype Hsize. split; [|split].
  - unfold UdfParser._parse_field_value.
    rewrite split_no_sep by exact Hcomma. cbn [map].
    rewrite Htype. reflexivity.
  - rewrite hex_len, Hsize. reflexivity.
  - apply hex_lower.
Qed.

Lemma unknown_type_hex_witness :
  UdfParser._parse_field_value [x01; x02; xab] (lit "unknowntype") 3
  = Ok (VHex (lit "0102ab")).
Proof.
  refine (proj1 (unknown_type_hex [x01; x02; xab] (lit "unknowntype") 3
                   _ eq_refl eq_refl)).
  cbn. intros H.
  repeat (destruct H as [H|H]; [discriminate H|]). exact H.
Defined.

(** ** Descriptor-driven decoding of a record *)

Lemma text_eqb_eq (a b : text) : text_eqb a b = true <-> a = b.
Proof.
  unfold text_eqb. destruct (list_eq_dec ascii_dec a b); split;
    congruence.
Qed.

Lemma dict_get_set_same (d : record) (k : text) (v : value) :
  dict_get (dict_set d k v) k = Some v.
Proof.
  induction d as [|[k' v'] d IH]; cbn [dict_set dict_get].
  - replace (text_eqb k k) with true
      by (symmetry; apply text_eqb_eq; reflexivity).
    reflexivity.
  - destruct (text_eqb k' k) eqn:E; cbn [dict_get].
    + replace (text_eqb k k) with true
        by (symmetry; apply text_eqb_eq; reflexivity).
      reflexivity.
    + rewrite E. exact IH.
Qed.

Lemma dict_get_set_other (d : record) (k k' : text) (v : value) :
  k' <> k -> dict_get (dict_set d k' v) k = dict_get d k.
Proof.
  intros Hne.
  assert (Hk : text_eqb k' k = false).
  { destruct (text_eqb k' k) eqn:E; [|reflexivity].
    apply text_eqb_eq in E. contradiction. }
  induction d as [|[k0 v0] d IH]; cbn [dict_set dict_get].
  - rewrite Hk. reflexivity.
  - destruct (text_eqb k0 k') eqn:E; cbn [dict_get].
    + apply text_eqb_eq in E. subst k0. rewrite Hk. reflexivity.
    + rewrite IH. reflexivity.
Qed.

(** Whatever a field decodes to, one turn stores one value under the
    field's key and moves the cursor by the declared size. *)
Lemma parse_field_shape (data : bytes) (rec : record) (offset : Z) (f : field) :
  exists v,
    UdfParser.parse_field data (rec, offset) f
    = (dict_set rec (field_key f) v, offset + f_size f).
Proof.
  unfold UdfParser.parse_field.
  destruct (len (slice data offset (offset + f_size f)) <? f_size f);
    eauto.
Qed.

Lemma parse_fields_cursor (data : bytes) (fs : list field) (rec : record)
  (offset : Z) :
  snd (UdfParser.parse_fields data fs (rec, offset))
  = offset + declared_size fs.
Proof.
  revert rec offset. induction fs as [|f fs IH]; intros rec offset.
  - cbn. lia.
  - unfold UdfParser.parse_fields in *. cbn [fold_left declared_size fold_right].
    destruct (parse_field_shape data rec offset f) as [v ->].
    rewrite IH. fold (declared_size fs). lia.
Qed.

Lemma parse_fields_other_key (data : bytes) (fs : list field) (k : text) :
  Forall (fun g => field_key g <> k) fs ->
  forall (rec : record) (offset : Z),
    dict_get (fst (UdfParser.parse_fields data fs (rec, offset))) k
    = dict_get rec k.
Proof.
  induction 1 as [|f fs Hf _ IH]; intros rec offset; [reflexivity|].
  unfold UdfParser.parse_fields in *. cbn [fold_left].
  destruct (parse_field_shape data rec offset f) as [v ->].
  rewrite IH. apply dict_get_set_other. exact Hf.
Qed.

Lemma parse_field_truncated (data : bytes) (rec : record) (offset : Z)
  (f : field) :
  0 <= offset -> Z.max 0 (len data - offset) < f_size f ->
  UdfParser.parse_field data (rec, offset) f
  = (dict_set rec (field_key f) VNone, offset + f_size f).
Proof.
  intros Hoff Htrunc. unfold UdfParser.parse_field.
  rewrite slice_len by lia.
  replace (Z.min (f_size f) (Z.max 0 (len data - offset)) <? f_size f)
    with true by (symmetry; apply Z.ltb_lt; lia).
  reflexivity.
Qed.

Lemma declared_size_nonneg (fs : list field) :
  Forall (fun g => 0 <= f_size g) fs -> 0 <= declared_size fs.
Proof.
  induction 1 as [|f fs Hf _ IH]; cbn [declared_size fold_right]; [lia|].
  fold (declared_size fs). lia.
Qed.

Lemma declared_size_app (fs gs : list field) :
  declared_size (fs ++ gs) = declared_size fs + declared_size gs.
Proof.
  induction fs as [|f fs IH]; [reflexivity|].
  cbn [app]. change (declared_size (f :: fs ++ gs))
    with (f_size f + declared_size (fs ++ gs)).
  change (declared_size (f :: fs)) with (f_size f + declared_size fs).
  rewrite IH. lia.
Qed.

Lemma parse_fields_app (data : bytes) (fs gs : list field)
  (acc : record * Z) :
  UdfParser.parse_fields data (fs ++ gs) acc
  = UdfParser.parse_fields data gs (UdfParser.parse_fields data fs acc).
Proof. unfold UdfParser.parse_fields. apply fold_left_app. Qed.

(** C9. Truncated field: when the declared size of a field exceeds the
    bytes left in the window past the cursor, [None] is stored under the
    field's key and the cursor still advances by the declared size; the
    cursor at every field is the sum of the declared sizes before it, and
    the final record holds [None] for the key unless a later field reuses
    the key. (Declared sizes are matches of [\d+], hence not negative.) *)
Theorem truncated_field_none (data : bytes) (pre post : list field)
  (f : field) (record0 record1 : record) (offset1 : Z) :
  Forall (fun g => 0 <= f_size g) pre ->
  UdfParser.parse_fields data pre (record0, 0) = (record1, offset1) ->
  Z.max 0 (len data - offset1) < f_size f ->
  offset1 = declared_size pre
  /\ UdfParser.parse_field data (record1, offset1) f
     = (dict_set record1 (field_key f) VNone, offset1 + f_size f)
  /\ UdfParser.parse_fields data (pre ++ f :: post) (record0, 0)
     = UdfParser.parse_fields data post
         (dict_set record1 (field_key f) VNone, declared_size (pre ++ [f]))
  /\ (Forall (fun g => field_key g <> field_key f) post ->
      dict_get (fst (UdfParser.parse_fields data (pre ++ f :: post)
                       (record0, 0))) (field_key f) = Some VNone).
Proof.
  intros Hsizes Hpre Htrunc.
  assert (Hoff : offset1 = declared_size pre).
  { pose proof (parse_fields_cursor data pre record0 0) as Hc.
    rewrite Hpre in Hc. cbn [snd] in Hc. lia. }
  assert (H0 : 0 <= offset1)
    by (rewrite Hoff; apply declared_size_nonneg; exact Hsizes).
  pose proof (parse_field_truncated data record1 offset1 f H0 Htrunc) as Hstep.
  assert (Hsum : declared_size (pre ++ [f]) = offset1 + f_size f)
    by (rewrite declared_size_app, Hoff; cbn; lia).
  assert (Hall : UdfParser.parse_fields data (pre ++ f :: post) (record0, 0)
                 = UdfParser.parse_fields data post
                     (dict_set record1 (field_key f) VNone,
                      declared_size (pre ++ [f]))).
  { rewrite parse_fields_app, Hpre, Hsum, <- Hstep. reflexivity. }
  repeat split; try assumption.
  intros Hkeys. rewrite Hall, parse_fields_other_key by exact Hkeys.
  apply dict_get_set_same.
Qed.

Lemma truncated_field_none_witness :
  dict_get
    (fst (UdfParser.parse_fields [x01; x02; xab]
            ([mkField 0 (lit "A") 1 (lit "u8") None]
             ++ mkField 1 (lit "T") 4 (lit "f") None
             :: [mkField 2 (lit "B") 1 (lit "u8") None])
            ([], 0)))
    (lit "1_T") = Some VNone.
Proof.
  refine (proj2 (proj2 (proj2
    (truncated_field_none [x01; x02; xab]
       [mkField 0 (lit "A") 1 (lit "u8") None]
       [mkField 2 (lit "B") 1 (lit "u8") None]
       (mkField 1 (lit "T") 4 (lit "f") None)
       [] [(lit "0_A", VInt 1)] 1 _ eq_refl eq_refl))) _).
  - repeat constructor. cbn. discriminate.
  - repeat constructor. cbn. discriminate.
Defined.

(** ** Metadata header parsing *)

Lemma parser_parse_lines_eq (lines : list text) (acc : list field) :
  UdfParser.parse_lines lines acc
  = match first_error UdfParser.parse_line lines with
    | Some e => Raise e
    | None => Ok (acc ++ descriptors_of UdfParser.parse_line lines)
    end.
Proof.
  revert acc. induction lines as [|l lines IH]; intros acc.
  - cbn. rewrite app_nil_r. reflexivity.
  - cbn [UdfParser.parse_lines descriptors_of first_error flat_map].
    destruct (UdfParser.parse_line l) as [[f|]|e]; cbn [bind];
      [| |reflexivity]; rewrite IH;
      destruct (first_error UdfParser.parse_line lines); try reflexivity.
    rewrite <- app_assoc. reflexivity.
Qed.

Lemma rawdata_parse_lines_eq (lines : list text) (acc : list field) :
  RawData.parse_lines lines acc
  = match first_error RawData.parse_line lines with
    | Some e => Raise e
    | None => Ok (acc ++ descriptors_of RawData.parse_line lines)
    end.
Proof.
  revert acc. induction lines as [|l lines IH]; intros acc.
  - cbn. rewrite app_nil_r. reflexivity.
  - cbn [RawData.parse_lines descriptors_of first_error flat_map].
    destruct (RawData.parse_line l) as [[f|]|e]; cbn [bind];
      [| |reflexivity]; rewrite IH;
      destruct (first_error RawData.parse_line lines); try reflexivity.
    rewrite <- app_assoc. reflexivity.
Qed.

Lemma split_nonempty (sep : ascii) (s : text) : split sep s <> [].
Proof.
  destruct s as [|c rest]; cbn [split]; [discriminate|].
  destruct (Ascii.eqb c sep); [discriminate|].
  destruct (split sep rest); discriminate.
Qed.

(** The header parse of the generic parser, by the lines after the first:
    the exception of the first line that raises, or else the state with
    one more descriptor for each accepted line. *)
Lemma parser_parse_metadata_eq (st : UdfParser.state) (metadata : text) :
  exists version,
    UdfParser._parse_metadata st metadata
    = match first_error UdfParser.parse_line
              (tl (split (ascii_of_nat 10) (strip metadata))) with
      | Some e => Raise e
      | None =>
          Ok (UdfParser.mkState (Some version)
                (UdfParser.fields st
                 ++ descriptors_of UdfParser.parse_line
                      (tl (split (ascii_of_nat 10) (strip metadata))))
                (UdfParser.binary_data st))
      end.
Proof.
  unfold UdfParser._parse_metadata.
  pose proof (split_nonempty (ascii_of_nat 10) (strip metadata)) as Hne.
  destruct (split (ascii_of_nat 10) (strip metadata)) as [|first rest];
    [congruence|].
  exists (strip first). rewrite parser_parse_lines_eq. cbn [tl].
  destruct (first_error UdfParser.parse_line rest); reflexivity.
Qed.

Lemma rawdata_parse_metadata_eq (metadata : text) :
  exists version,
    RawData._parse_metadata metadata
    = match first_error RawData.parse_line
              (tl (RawData.stripped_lines metadata)) with
      | Some e => Raise e
      | None =>
          Ok (version,
              descriptors_of RawData.parse_line
                (tl (RawData.stripped_lines metadata)))
      end.
Proof.
  unfold RawData._parse_metadata. eexists.
  rewrite rawdata_parse_lines_eq. cbn [app].
  destruct (first_error RawData.parse_line
              (tl (RawData.stripped_lines metadata))); reflexivity.
Qed.


(** ** Splitting a file at the metadata delimiter *)

Lemma prefixb_app (sub l : bytes) :
  prefixb sub l = true <-> exists rest, l = sub ++ rest.
Proof.
  revert l. induction sub as [|a sub IH]; intros l; cbn [prefixb].
  - split; [intros _; exists l; reflexivity | reflexivity].
  - destruct l as [|b l].
    + split; [discriminate | intros [rest H]; discriminate H].
    + destruct (Byte.byte_eq_dec a b) as [->|Hne].
      * rewrite IH. split; intros [rest H]; exists rest.
        -- cbn. rewrite H. reflexivity.
        -- cbn in H. injection H as H. exact H.
      * split; [discriminate|]. intros [rest H]. cbn in H.
        injection H as H _. congruence.
Qed.

(** [find_from] answers [-1] or the offset of the first occurrence. *)
Lemma find_from_spec (sub l : bytes) (i : Z) :
  0 <= i ->
  (find_from sub l i = -1
   /\ forall pre post, l <> pre ++ sub ++ post)
  \/ (exists pre post,
        l = pre ++ sub ++ post
        /\ find_from sub l i = i + len pre
        /\ forall pre' post', l = pre' ++ sub ++ post' ->
                              len pre <= len pre').
Proof.
  revert i. induction l as [|b l IH]; intros i Hi.
  - cbn [find_from]. destruct (prefixb sub []) eqn:E.
    + right. apply prefixb_app in E. destruct E as [rest E].
      exists [], rest. cbn [app]. repeat split.
      * exact E.
      * cbn. lia.
      * intros. apply len_nonneg.
    + left. split; [reflexivity|]. intros pre post H.
      destruct pre; [|discriminate H]. cbn in H.
      assert (prefixb sub [] = true) by (apply prefixb_app; eauto).
      congruence.
  - cbn [find_from]. destruct (prefixb sub (b :: l)) eqn:E.
    + right. apply prefixb_app in E. destruct E as [rest E].
      exists [], rest. cbn [app]. repeat split.
      * exact E.
      * cbn. lia.
      * intros. apply len_nonneg.
    + assert (Hhead : forall post, b :: l <> sub ++ post).
      { intros post H.
        assert (prefixb sub (b :: l) = true) by (apply prefixb_app; eauto).
        congruence. }
      destruct (IH (i + 1) ltac:(lia)) as [[Hf Hno]|[pre [post [Hl [Hf Hmin]]]]].
      * left. split; [exact Hf|]. intros pre post H.
        destruct pre as [|a pre]; cbn in H.
        -- exact (Hhead post H).
        -- injection H as _ H. exact (Hno pre post H).
      * right. exists (b :: pre), post. repeat split.
        -- cbn. rewrite Hl. reflexivity.
        -- rewrite Hf, len_cons. lia.
        -- intros pre' post' H. destruct pre' as [|a pre']; cbn in H.
           ++ exfalso. exact (Hhead post' H).
           ++ injection H as _ H. specialize (Hmin pre' post' H).
              rewrite !len_cons. lia.
Qed.

Lemma find_none (content sub : bytes) :
  find content sub = -1 <-> forall pre post, content <> pre ++ sub ++ post.
Proof.
  unfold find.
  destruct (find_from_spec sub content 0 ltac:(lia))
    as [[Hf Hno]|[pre [post [Hl [Hf Hmin]]]]].
  - tauto.
  - split.
    + intros H. rewrite Hf in H. pose proof (len_nonneg pre). lia.
    + intros H. exfalso. exact (H pre post Hl).
Qed.

Lemma firstn_app_exact {A : Type} (l1 l2 : list A) :
  firstn (List.length l1) (l1 ++ l2) = l1.
Proof.
  rewrite firstn_app, Nat.sub_diag, firstn_O, app_nil_r. apply firstn_all.
Qed.

Lemma skipn_app_exact {A : Type} (l1 l2 : list A) :
  skipn (List.length l1) (l1 ++ l2) = l2.
Proof.
  rewrite skipn_app, Nat.sub_diag, skipn_all. reflexivity.
Qed.

(** When the delimiter occurs, the two slices taken around the offset that
    [find] answers are the text before its first occurrence and the bytes
    after it. *)
Lemma find_split (content : bytes) :
  find content METADATA_DELIMITER <> -1 ->
  exists pre post,
    content = pre ++ METADATA_DELIMITER ++ post
    /\ slice content 0 (find content METADATA_DELIMITER) = pre
    /\ slice_from content
         (find content METADATA_DELIMITER + len METADATA_DELIMITER) = post
    /\ forall pre' post', content = pre' ++ METADATA_DELIMITER ++ post' ->
                          len pre <= len pre'.
Proof.
  intros Hfound. unfold find in *.
  destruct (find_from_spec METADATA_DELIMITER content 0 ltac:(lia))
    as [[Hf _]|[pre [post [Hl [Hf Hmin]]]]]; [congruence|].
  exists pre, post. rewrite Hf. repeat split.
  - exact Hl.
  - unfold slice. rewrite Hl. cbn [Z.to_nat skipn].
    replace (Z.to_nat (0 + len pre - 0)) with (List.length pre)
      by (unfold len; lia).
    apply firstn_app_exact.
  - unfold slice_from. rewrite Hl.
    replace (Z.to_nat (0 + len pre + len METADATA_DELIMITER))
      with (List.length (pre ++ METADATA_DELIMITER))
      by (rewrite length_app; unfold len; lia).
    rewrite app_assoc. apply skipn_app_exact.
  - exact Hmin.
Qed.

(** X2. When [parse] of the generic parser succeeds, the file is the header
    bytes, the delimiter and the payload, split at the first occurrence of
    the delimiter; the payload is stored whole, and the resulting state is
    the one the header parser builds from the decoded header bytes. *)
Theorem parse_splits_at_first_delimiter (decode : bytes -> text)
  (st st' : UdfParser.state) (content : bytes) :
  UdfParser.parse decode st content = Ok st' ->
  exists metadata_bytes data,
    content = metadata_bytes ++ METADATA_DELIMITER ++ data
    /\ (forall pre post, content = pre ++ METADATA_DELIMITER ++ post ->
                         len metadata_bytes <= len pre)
    /\ UdfParser.binary_data st' = Some data
    /\ UdfParser._parse_metadata
         (UdfParser.mkState (UdfParser.version st) (UdfParser.fields st)
            (Some data))
         (decode metadata_bytes) = Ok st'.
Proof.
  unfold UdfParser.parse.
  destruct (find content METADATA_DELIMITER =? -1) eqn:E; [discriminate|].
  apply Z.eqb_neq in E.
  destruct (find_split content E) as [pre [post [Hc [Hpre [Hpost Hmin]]]]].
  rewrite Hpre, Hpost. intros H.
  exists pre, post. repeat split; try assumption.
  apply parse_metadata_keeps_data in H. exact H.
Qed.

Lemma parse_splits_at_first_delimiter_witness :
  exists st' metadata_bytes data,
    UdfParser.parse decode_ascii UdfParser.init sample_file = Ok st'
    /\ sample_file = metadata_bytes ++ METADATA_DELIMITER ++ data
    /\ UdfParser.binary_data st' = Some data.
Proof.
  eexists.
  destruct (parse_splits_at_first_delimiter decode_ascii UdfParser.init _
              sample_file eq_refl) as [m [d [H1 [_ [H2 _]]]]].
  exists m, d. split; [reflexivity|]. split; assumption.
Defined.

(** X3. When [parse_udf] of the canonical-schema converter succeeds, the
    file is the header bytes, the delimiter and the payload, split at the
    first occurrence of the delimiter, and the version and descriptors are
    those of the decoded header bytes. *)
Theorem parse_udf_splits_at_first_delimiter (decode : bytes -> text)
  (content : bytes) (version : text) (fields : list field) (data : bytes) :
  RawData.parse_udf decode content = Ok (version, fields, data) ->
  exists metadata_bytes,
    content = metadata_bytes ++ METADATA_DELIMITER ++ data
    /\ (forall pre post, content = pre ++ METADATA_DELIMITER ++ post ->
                         len metadata_bytes <= len pre)
    /\ RawData._parse_metadata (decode metadata_bytes)
       = Ok (version, fields).
Proof.
  unfold RawData.parse_udf.
  destruct (find content METADATA_DELIMITER =? -1) eqn:E; [discriminate|].
  apply Z.eqb_neq in E.
  destruct (find_split content E) as [pre [post [Hc [Hpre [Hpost Hmin]]]]].
  rewrite Hpre, Hpost.
  destruct (RawData._parse_metadata (decode pre)) as [[v fs]|e] eqn:Hm;
    cbn [bind]; [|discriminate].
  intros [= <- <- <-]. exists pre. repeat split; assumption.
Qed.

Lemma parse_udf_splits_at_first_delimiter_witness :
  exists metadata_bytes,
    sample_file
    = metadata_bytes ++ METADATA_DELIMITER
      ++ payload_with 200 [0; 61; 122]%nat
    /\ RawData._parse_metadata (decode_ascii metadata_bytes)
       = Ok (lit "1.0", []).
Proof.
  destruct (parse_udf_splits_at_first_delimiter decode_ascii sample_file
              (lit "1.0") [] (payload_with 200 [0; 61; 122]%nat) eq_refl)
    as [m [H1 [_ H2]]].
  exists m. split; assumption.
Defined.

(** ** What the marker scan finds *)

Lemma bytes_eqb_eq (a b : bytes) : bytes_eqb a b = true <-> a = b.
Proof.
  unfold bytes_eqb. destruct (list_eq_dec byte_eq_dec a b); split;
    congruence.
Qed.

Lemma is_marker_at_iff (data : bytes) (i : Z) :
  is_marker_at data i = true
  <-> nth_error data (Z.to_nat i) = Some x00
      /\ nth_error data (S (Z.to_nat i)) = Some xff.
Proof.
  unfold is_marker_at. rewrite bytes_eqb_eq. unfold slice, marker.
  replace (Z.to_nat (i + 2 - i)) with 2%nat by lia.
  rewrite <- (Nat.add_0_r (Z.to_nat i)) at 2.
  rewrite <- (Nat.add_1_r (Z.to_nat i)).
  rewrite <- !nth_error_skipn.
  destruct (skipn (Z.to_nat i) data) as [|a [|b rest]];
    cbn [firstn nth_error].
  - split; [discriminate | intros [H _]; discriminate H].
  - split; [discriminate | intros [_ H]; discriminate H].
  - split.
    + intros [= -> ->]. tauto.
    + intros [[= ->] [= ->]]. reflexivity.
Qed.

(** X4. The marker scan, characterised: the uncapped scan of the converter
    script lists, in increasing order, exactly the offsets [p] below
    [min(1000, len - 1)] at which the bytes [00 FF] stand, and the capped
    scan of the two parser classes is its first ten entries. *)
Theorem scan_markers_characterised (data : bytes) :
  scan_markers data = firstn 10 (scan_markers_all data)
  /\ StronglySorted Z.lt (scan_markers_all data)
  /\ forall p : Z,
       In p (scan_markers_all data)
       <-> 0 <= p < Z.min 1000 (len data - 1)
           /\ nth_error data (Z.to_nat p) = Some x00
           /\ nth_error data (S (Z.to_nat p)) = Some xff.
Proof.
  split; [apply scan_markers_firstn|]. split.
  - unfold scan_markers_all. apply filter_sorted, range_sorted.
  - intros p. unfold scan_markers_all. rewrite filter_In.
    fold (is_marker_at data p). rewrite is_marker_at_iff.
    split; intros [Hr Hm]; (split; [|exact Hm]).
    + apply range_In. exact Hr.
    + unfold range. apply in_map_iff. exists (Z.to_nat p).
      split; [lia|]. apply in_seq. lia.
Qed.

Lemma scan_markers_marker (data : bytes) (p : Z) :
  In p (scan_markers data) ->
  0 <= p < Z.min 1000 (len data - 1) /\ is_marker_at data p = true.
Proof.
  rewrite scan_markers_firstn. intros H. apply in_firstn in H.
  unfold scan_markers_all in H. apply filter_In in H. destruct H as [Hr Hm].
  apply range_In in Hr. split; assumption.
Qed.

(** Two markers cannot start at neighbouring offsets. *)
Lemma markers_not_adjacent (data : bytes) (p : Z) :
  0 <= p -> is_marker_at data p = true -> is_marker_at data (p + 1) = false.
Proof.
  intros Hp H. apply is_marker_at_iff in H. destruct H as [_ H1].
  destruct (is_marker_at data (p + 1)) eqn:E; [|reflexivity].
  apply is_marker_at_iff in E. destruct E as [E0 _].
  replace (Z.to_nat (p + 1)) with (S (Z.to_nat p)) in E0 by lia.
  congruence.
Qed.

Lemma deltas_bounds (P : Z -> Prop) (lo hi : Z) (l : list Z) :
  (forall p q, P p -> P q -> p < q -> lo <= q - p < hi) ->
  StronglySorted Z.lt l -> Forall P l ->
  Forall (fun d => lo <= d < hi) (deltas l).
Proof.
  intros HP Hs Hall. induction l as [|a [|b rest] IH]; cbn [deltas];
    try constructor.
  - apply HP.
    + exact (Forall_inv Hall).
    + exact (Forall_inv (Forall_inv_tail Hall)).
    + apply StronglySorted_inv in Hs. destruct Hs as [_ Hlt].
      exact (Forall_inv Hlt).
  - apply IH.
    + apply StronglySorted_inv in Hs. tauto.
    + exact (Forall_inv_tail Hall).
Qed.

Lemma deltas_tl_bounds (lo hi : Z) (l : list Z) :
  Forall (fun d => lo <= d < hi) (deltas l) ->
  Forall (fun d => lo <= d < hi) (deltas (tl l)).
Proof.
  destruct l as [|a [|b rest]]; cbn [tl deltas]; intros H;
    try constructor.
  exact (Forall_inv_tail H).
Qed.

Lemma marker_deltas_bounds (data : bytes) :
  Forall (fun d => 2 <= d < 1000) (deltas (scan_markers data)).
Proof.
  apply (deltas_bounds
           (fun p => 0 <= p < Z.min 1000 (len data - 1)
                     /\ is_marker_at data p = true)).
  - intros p q [Hp Mp] [Hq Mq] Hlt.
    assert (q <> p + 1).
    { intros ->.
      rewrite (markers_not_adjacent data p ltac:(lia) Mp) in Mq.
      discriminate. }
    lia.
  - apply scan_markers_sorted.
  - apply Forall_forall. intros p Hp. apply scan_markers_marker, Hp.
Qed.

(** X5. Every interval between consecutive markers found is at least 2 (a
    marker is two bytes wide) and below 1000 (the scan window). *)
Theorem marker_intervals_bounds (data : bytes) :
  Forall (fun d => 2 <= d < 1000) (intervals_all (scan_markers data))
  /\ Forall (fun d => 2 <= d < 1000) (intervals_tail (scan_markers data)).
Proof.
  split.
  - rewrite intervals_all_deltas. apply marker_deltas_bounds.
  - rewrite intervals_tail_deltas.
    apply deltas_tl_bounds, marker_deltas_bounds.
Qed.

(** ** Sizes the framing detection can answer *)

Lemma detect_fallback (set_iter : list Z -> list Z) (data : bytes) :
  len (scan_markers data) < 3 ->
  RawData._detect_record_size set_iter data = Ok (28, 61).
Proof.
  intros H. unfold RawData._detect_record_size.
  destruct (scan_markers data) as [|a [|b [|c l]]]; try reflexivity.
  rewrite !len_cons in H. pose proof (len_nonneg l). lia.
Qed.

Lemma calculate_fallback (set_iter : list Z -> list Z) (data : bytes) :
  len data < 100 \/ len (scan_markers data) < 2 ->
  UdfParser._calculate_record_size set_iter data = Ok (61, 61)
  \/ UdfParser._calculate_record_size set_iter data = Ok (28, 61).
Proof.
  intros H. unfold UdfParser._calculate_record_size.
  destruct data as [|b data]; [left; reflexivity|]. cbn [orb].
  destruct (len (b :: data) <? 100) eqn:E; [left; reflexivity|].
  apply Z.ltb_ge in E. destruct H as [H|H]; [lia|].
  apply Z.leb_gt in H. rewrite H. right. reflexivity.
Qed.

Lemma first_delta_head (positions : list Z) :
  2 <= len positions ->
  exists rest,
    deltas positions = (getitem positions 1 - getitem positions 0) :: rest.
Proof.
  destruct positions as [|a [|b l]]; cbn [len List.length]; intros H;
    try (cbn in H; lia).
  exists (deltas (b :: l)). reflexivity.
Qed.

Lemma detect_sizes_bounds (set_iter : list Z -> list Z) (data : bytes) :
  is_set_of (set_iter (intervals_tail (scan_markers data)))
            (intervals_tail (scan_markers data)) = true ->
  exists header_size record_size,
    RawData._detect_record_size set_iter data
    = Ok (header_size, record_size)
    /\ 2 <= header_size < 1000 /\ 2 <= record_size < 1000.
Proof.
  intros Htail. pose proof (marker_deltas_bounds data) as Ball.
  pose proof (deltas_tl_bounds _ _ _ Ball) as Btail.
  destruct (Z.lt_ge_cases (len (scan_markers data)) 3) as [Hfew|Hmany].
  - exists 28, 61. rewrite detect_fallback by exact Hfew.
    split; [reflexivity | lia].
  - rewrite detect_record_size_eq by exact Hmany.
    destruct (most_common_spec set_iter _ Htail
                (intervals_tail_nonempty _ Hmany)) as [x [Hx [_ [Hin _]]]].
    rewrite Hx. cbn [bind].
    exists (getitem (scan_markers data) 1 - getitem (scan_markers data) 0), x.
    split; [reflexivity|]. split.
    + destruct (first_delta_head (scan_markers data) ltac:(lia))
        as [rest Hd].
      rewrite Hd in Ball. exact (Forall_inv Ball).
    + rewrite intervals_tail_deltas in Hin.
      rewrite Forall_forall in Btail. exact (Btail x Hin).
Qed.

Lemma calculate_sizes_bounds (set_iter : list Z -> list Z) (data : bytes) :
  is_set_of (set_iter (intervals_all (scan_markers data)))
            (intervals_all (scan_markers data)) = true ->
  exists first_size record_size,
    UdfParser._calculate_record_size set_iter data
    = Ok (first_size, record_size)
    /\ 2 <= first_size < 2000 /\ 2 <= record_size < 1000.
Proof.
  intros Hall. pose proof (marker_deltas_bounds data) as Ball.
  destruct (Z.lt_ge_cases (len data) 100) as [Hshort|Hlong];
    [|destruct (Z.lt_ge_cases (len (scan_markers data)) 2)
        as [Hfew|Hmany]].
  - destruct (calculate_fallback set_iter data (or_introl Hshort))
      as [-> | ->]; eexists _, _; (split; [reflexivity | lia]).
  - destruct (calculate_fallback set_iter data (or_intror Hfew))
      as [-> | ->]; eexists _, _; (split; [reflexivity | lia]).
  - rewrite calculate_record_size_eq by assumption.
    destruct (most_common_spec set_iter _ Hall
                (intervals_all_nonempty _ Hmany)) as [x [Hx [_ [Hin _]]]].
    rewrite Hx. cbn [bind]. eexists _, x. split; [reflexivity|].
    rewrite intervals_all_deltas in Hin.
    rewrite Forall_forall in Ball. specialize (Ball x Hin).
    destruct (getitem (scan_markers data) 0 <? x) eqn:E.
    + apply Z.ltb_lt in E.
      assert (0 <= getitem (scan_markers data) 0).
      { destruct (scan_markers data) as [|p0 l] eqn:Hs;
          [cbn in Hmany; lia|].
        change (getitem (p0 :: l) 0) with p0.
        apply (scan_markers_bound data). rewrite Hs. left. reflexivity. }
      lia.
    + lia.
Qed.

(** X6. On a lawful set order the framing detection never raises and never
    answers a size below 2: the canonical-schema converter answers a header
    size and a record size in [2, 1000), the generic parser a record size
    in [2, 1000) and a first record size in [2, 2000). *)
Theorem framing_sizes_bounds (set_iter : list Z -> list Z) (data : bytes) :
  is_set_of (set_iter (intervals_all (scan_markers data)))
            (intervals_all (scan_markers data)) = true ->
  is_set_of (set_iter (intervals_tail (scan_markers data)))
            (intervals_tail (scan_markers data)) = true ->
  (exists header_size record_size,
     RawData._detect_record_size set_iter data
     = Ok (header_size, record_size)
     /\ 2 <= header_size < 1000 /\ 2 <= record_size < 1000)
  /\ (exists first_size record_size,
        UdfParser._calculate_record_size set_iter data
        = Ok (first_size, record_size)
        /\ 2 <= first_size < 2000 /\ 2 <= record_size < 1000).
Proof.
  intros Hall Htail. split.
  - apply detect_sizes_bounds, Htail.
  - apply calculate_sizes_bounds, Hall.
Qed.

Lemma framing_sizes_bounds_witness :
  exists header_size record_size,
    RawData._detect_record_size set_first_seen
      (payload_with 200 [0; 28; 89; 150]%nat)
    = Ok (header_size, record_size)
    /\ 2 <= header_size < 1000 /\ 2 <= record_size < 1000.
Proof.
  exact (proj1 (framing_sizes_bounds set_first_seen
                  (payload_with 200 [0; 28; 89; 150]%nat)
                  eq_refl eq_refl)).
Defined.

(** ** Extraction on the canonical-schema path, in general *)

Lemma parse_record_61_byte_short (d : bytes) :
  len d < 61 -> RawData._parse_record_61_byte d = None.
Proof.
  intros H. unfold RawData._parse_record_61_byte.
  replace (len d <? 61) with true by (symmetry; apply Z.ltb_lt; exact H).
  reflexivity.
Qed.

Lemma canonical_row_len (d : bytes) :
  len (Spec.canonical_row d) = len RawData.generate_data_columns.
Proof. reflexivity. Qed.

Lemma windows_step (total rs : Z) :
  1 <= rs -> rs <= total -> total / rs = 1 + (total - rs) / rs.
Proof.
  intros Hrs Hle.
  replace total with ((total - rs) + 1 * rs) at 1 by lia.
  rewrite Z.div_add by lia. lia.
Qed.

(** The loop runs to its end on any payload once the fuel exceeds the bytes
    left, and yields one row for each whole window of at least 61 bytes. *)
Lemma extract_loop_total (data : bytes) (rs : Z) :
  1 <= rs ->
  forall (fuel : nat) (offset : Z) (records : list (list value)),
    0 <= offset ->
    (Z.to_nat (len data - offset) < fuel)%nat ->
    exists rows,
      RawData.extract_loop fuel data rs offset records
      = Some (records ++ rows)
      /\ len rows = (if 61 <=? rs
                     then Z.max 0 ((len data - offset) / rs) else 0)
      /\ Forall (fun row => len row = len RawData.generate_data_columns)
                rows.
Proof.
  intros Hrs. induction fuel as [|fuel IH]; intros offset records Hoff Hf;
    [lia|].
  cbn [RawData.extract_loop].
  destruct (offset + rs <=? len data) eqn:E.
  - apply Z.leb_le in E.
    destruct (IH (offset + rs)
                (match RawData._parse_record_61_byte
                         (slice data offset (offset + rs)) with
                 | Some record => records ++ [record]
                 | None => records
                 end) ltac:(lia) ltac:(lia)) as [rows [Hrows [Hn Hw]]].
    rewrite Hrows.
    rewrite (windows_step (len data - offset) rs) by lia.
    replace (len data - offset - rs) with (len data - (offset + rs)) by lia.
    assert (Hq : 0 <= (len data - (offset + rs)) / rs)
      by (apply Z.div_pos; lia).
    destruct (61 <=? rs) eqn:E61.
    + apply Z.leb_le in E61.
      rewrite parse_record_61_byte_row by (rewrite slice_full_len; lia).
      exists (Spec.canonical_row (slice data offset (offset + rs)) :: rows).
      rewrite <- app_assoc. split; [reflexivity|]. split.
      * rewrite len_cons, Hn. lia.
      * constructor; [apply canonical_row_len | exact Hw].
    + apply Z.leb_gt in E61.
      rewrite parse_record_61_byte_short
        by (rewrite slice_full_len; lia).
      exists rows. split; [reflexivity|]. split; [exact Hn | exact Hw].
  - apply Z.leb_gt in E. exists []. rewrite app_nil_r.
    split; [reflexivity|]. split; [|constructor].
    assert (Hq : (len data - offset) / rs <= 0).
    { destruct (Z.lt_ge_cases (len data - offset) 0) as [Hneg|Hpos].
      - apply Z.lt_le_incl, Z.div_lt_upper_bound; lia.
      - rewrite Z.div_small by lia. lia. }
    destruct (61 <=? rs); cbn; lia.
Qed.

(** X7. On a lawful set order, extraction on the canonical-schema path
    always returns normally once the fuel exceeds the payload length (the
    detected record size is positive, so the loop ends); it yields
    [(len - header_size) / record_size] rows (rounded down, none when
    negative) if the record size is at least 61 and no row otherwise, and
    every row has as many values as [generate_data_columns] has columns. *)
Theorem extract_records_total (set_iter : list Z -> list Z) (data : bytes)
  (fuel : nat) :
  is_set_of (set_iter (intervals_tail (scan_markers data)))
            (intervals_tail (scan_markers data)) = true ->
  (List.length data < fuel)%nat ->
  exists header_size record_size rows,
    RawData._detect_record_size set_iter data
    = Ok (header_size, record_size)
    /\ RawData.extract_records set_iter fuel data = Some (Ok rows)
    /\ len rows = (if 61 <=? record_size
                   then Z.max 0 ((len data - header_size) / record_size)
                   else 0)
    /\ Forall (fun row => len row = len RawData.generate_data_columns) rows.
Proof.
  intros Htail Hfuel.
  destruct (detect_sizes_bounds set_iter data Htail)
    as [h [rs [Hdet [Hh Hrs]]]].
  destruct (extract_loop_total data rs ltac:(lia) fuel h [] ltac:(lia)
              ltac:(unfold len; lia)) as [rows [Hrows [Hn Hw]]].
  exists h, rs, rows. split; [exact Hdet|].
  unfold RawData.extract_records. rewrite Hdet, Hrows.
  split; [reflexivity|]. split; assumption.
Qed.

Lemma extract_records_total_witness :
  exists header_size record_size rows,
    RawData._detect_record_size set_first_seen
      (payload_with 200 [0; 28; 89; 150]%nat)
    = Ok (header_size, record_size)
    /\ RawData.extract_records set_first_seen 201
         (payload_with 200 [0; 28; 89; 150]%nat) = Some (Ok rows)
    /\ len rows = (if 61 <=? record_size
                   then Z.max 0 ((len (payload_with 200 [0; 28; 89; 150]%nat)
                                  - header_size) / record_size)
                   else 0)
    /\ Forall (fun row => len row = len RawData.generate_data_columns) rows.
Proof.
  apply (extract_records_total set_first_seen
           (payload_with 200 [0; 28; 89; 150]%nat) 201 eq_refl).
  vm_compute. lia.
Defined.

(** ** The decoded row *)

Lemma byte_of_bounds (d : bytes) (i : nat) : 0 <= Spec.byte_of d i <= 255.
Proof.
  unfold Spec.byte_of, byte_val.
  pose proof (Byte.to_N_bounded (nth i d x00)). lia.
Qed.

Lemma uint_at_bounds (d : bytes) (n i : nat) :
  0 <= Spec.uint_at d i n < 256 ^ Z.of_nat n.
Proof.
  revert i. induction n as [|n IH]; intros i.
  - cbn. lia.
  - cbn [Spec.uint_at]. rewrite Nat2Z.inj_succ, Z.pow_succ_r by lia.
    pose proof (byte_of_bounds d i). specialize (IH (S i)). lia.
Qed.

Lemma byte_of_firstn (d : bytes) (k i : nat) :
  (i < k)%nat -> Spec.byte_of (firstn k d) i = Spec.byte_of d i.
Proof.
  intros H. unfold Spec.byte_of. rewrite nth_firstn.
  replace (i <? k)%nat with true by (symmetry; apply Nat.ltb_lt; exact H).
  reflexivity.
Qed.

Lemma uint_at_firstn (d : bytes) (k n i : nat) :
  (i + n <= k)%nat -> Spec.uint_at (firstn k d) i n = Spec.uint_at d i n.
Proof.
  revert i. induction n as [|n IH]; intros i H; [reflexivity|].
  cbn [Spec.uint_at]. rewrite byte_of_firstn, IH by lia. reflexivity.
Qed.

(** X8. A window decodes to a row exactly when it has at least 61 bytes,
    and the row depends on its first 61 bytes only: bytes past offset 60
    of a longer window are ignored. *)
Theorem parse_record_61_byte_window (d : bytes) :
  (RawData._parse_record_61_byte d = None <-> len d < 61)
  /\ (61 <= len d ->
      RawData._parse_record_61_byte d
      = RawData._parse_record_61_byte (firstn 61 d)).
Proof.
  split.
  - split.
    + intros H. destruct (Z.lt_ge_cases (len d) 61) as [Hs|Hl];
        [exact Hs|].
      rewrite parse_record_61_byte_row in H by exact Hl. discriminate H.
    + apply parse_record_61_byte_short.
  - intros H. rewrite !parse_record_61_byte_row.
    + f_equal. unfold Spec.canonical_row.
      rewrite !byte_of_firstn, !uint_at_firstn by lia. reflexivity.
    + unfold len in *. rewrite length_firstn. lia.
    + exact H.
Qed.

Lemma label_tag_third_byte (d : bytes) :
  (Spec.uint_at d 51 4 / 65536) mod 256 = Spec.byte_of d 53.
Proof.
  cbn [Spec.uint_at].
  pose proof (byte_of_bounds d 51). pose proof (byte_of_bounds d 52).
  pose proof (byte_of_bounds d 53). pose proof (byte_of_bounds d 54).
  replace (Spec.byte_of d 51
           + 256 * (Spec.byte_of d 52
                    + 256 * (Spec.byte_of d 53
                             + 256 * (Spec.byte_of d 54 + 256 * 0))))
    with ((Spec.byte_of d 51 + 256 * Spec.byte_of d 52)
          + (Spec.byte_of d 53 + 256 * Spec.byte_of d 54) * 65536) by lia.
  rewrite Z.div_add by lia.
  rewrite (Z.div_small (Spec.byte_of d 51 + 256 * Spec.byte_of d 52))
    by lia.
  rewrite Z.add_0_l.
  replace (Spec.byte_of d 53 + 256 * Spec.byte_of d 54)
    with (Spec.byte_of d 53 + Spec.byte_of d 54 * 256) by lia.
  rewrite Z.mod_add by lia.
  apply Z.mod_small. lia.
Qed.

(** X9. In every decoded row the Error Code (value 13) is not independent
    of the Label Tag (value 12): it is the signed reading of the third
    byte of the Label Tag, bits 16 to 23. *)
Theorem error_code_inside_label_tag (d : bytes) (row : list value) :
  RawData._parse_record_61_byte d = Some row ->
  exists label_tag error_code,
    nth_error row 11 = Some (VInt label_tag)
    /\ nth_error row 12 = Some (VInt error_code)
    /\ error_code
       = (let b := (label_tag / 65536) mod 256 in
          if b <? 128 then b else b - 256).
Proof.
  intros H.
  destruct (Z.lt_ge_cases (len d) 61) as [Hs|Hl].
  - rewrite parse_record_61_byte_short in H by exact Hs. discriminate H.
  - rewrite parse_record_61_byte_row in H by exact Hl.
    injection H as <-. unfold Spec.canonical_row. cbn [nth_error].
    eexists _, _. split; [reflexivity|]. split; [reflexivity|].
    cbv zeta. rewrite label_tag_third_byte. reflexivity.
Qed.

Lemma error_code_inside_label_tag_witness :
  exists label_tag error_code,
    nth_error (Spec.canonical_row window_c4) 11 = Some (VInt label_tag)
    /\ nth_error (Spec.canonical_row window_c4) 12 = Some (VInt error_code)
    /\ error_code
       = (let b := (label_tag / 65536) mod 256 in
          if b <? 128 then b else b - 256).
Proof.
  exact (error_code_inside_label_tag window_c4
           (Spec.canonical_row window_c4) eq_refl).
Defined.

(** X10. The integer values of a decoded row lie in the ranges of their
    encodings: Sensor Index, Heater Profile Step Index and Scanning Cycle
    Index in [0, 255], Sensor ID and Label Tag in [0, 2^32), Time Since
    PowerOn in [0, 18446744073709] milliseconds, Error Code in
    [-128, 127]; Real Time Clock is 0 and Scanning Mode Enabled is 1. *)
Theorem row_integer_ranges (d : bytes) (row : list value) :
  RawData._parse_record_61_byte d = Some row ->
  exists idx sid time t p h g step cycle tag err,
    row = [VInt idx; VInt sid; VInt time; VInt 0; VFloat t; VFloat p;
           VFloat h; VFloat g; VInt step; VInt 1; VInt cycle; VInt tag;
           VInt err]
    /\ 0 <= idx <= 255 /\ 0 <= step <= 255 /\ 0 <= cycle <= 255
    /\ 0 <= sid < 2 ^ 32 /\ 0 <= tag < 2 ^ 32
    /\ 0 <= time <= 18446744073709
    /\ -128 <= err <= 127.
Proof.
  intros H.
  destruct (Z.lt_ge_cases (len d) 61) as [Hs|Hl].
  - rewrite parse_record_61_byte_short in H by exact Hs. discriminate H.
  - rewrite parse_record_61_byte_row in H by exact Hl.
    injection H as <-. unfold Spec.canonical_row.
    do 11 eexists. split; [reflexivity|].
    pose proof (byte_of_bounds d 60). pose proof (byte_of_bounds d 12).
    pose proof (byte_of_bounds d 39). pose proof (byte_of_bounds d 53).
    pose proof (uint_at_bounds d 4 45) as Hsid.
    pose proof (uint_at_bounds d 4 51) as Htag.
    pose proof (uint_at_bounds d 8 2) as Htime.
    change (256 ^ Z.of_nat 4) with (2 ^ 32) in *.
    change (256 ^ Z.of_nat 8) with 18446744073709551616 in Htime.
    repeat split; try lia.
    + apply Z.div_pos; lia.
    + assert (Spec.uint_at d 2 8 / 1000000 < 18446744073710)
        by (apply Z.div_lt_upper_bound; lia).
      lia.
    + destruct (Spec.byte_of d 53 <? 128) eqn:E;
        [apply Z.ltb_lt in E | apply Z.ltb_ge in E]; lia.
    + destruct (Spec.byte_of d 53 <? 128) eqn:E;
        [apply Z.ltb_lt in E | apply Z.ltb_ge in E]; lia.
Qed.

Lemma row_integer_ranges_witness :
  exists idx sid time t p h g step cycle tag err,
    Spec.canonical_row window_c4
    = [VInt idx; VInt sid; VInt time; VInt 0; VFloat t; VFloat p;
       VFloat h; VFloat g; VInt step; VInt 1; VInt cycle; VInt tag;
       VInt err]
    /\ 0 <= idx <= 255 /\ 0 <= step <= 255 /\ 0 <= cycle <= 255
    /\ 0 <= sid < 2 ^ 32 /\ 0 <= tag < 2 ^ 32
    /\ 0 <= time <= 18446744073709
    /\ -128 <= err <= 127.
Proof.
  exact (row_integer_ranges window_c4 (Spec.canonical_row window_c4)
           eq_refl).
Defined.

(** ** Decoding one field value *)

Lemma type_map_size (t : text) (f : fmt) (n : Z) :
  UdfParser.TYPE_MAP t = Some (f, n) -> n = fmt_size f.
Proof.
  unfold UdfParser.TYPE_MAP.
  repeat (match goal with
          | |- context [if ?b then _ else _] => destruct b
          end; [intros [= <- <-]; reflexivity|]).
  discriminate.
Qed.

Lemma unpack_exact (f : fmt) (d : bytes) :
  len d = fmt_size f -> exists v, unpack f d = Ok v.
Proof.
  intros H. destruct f; unfold unpack, unpack_unsigned, unpack_signed,
    unpack_float, sized; rewrite H; cbn; eauto.
Qed.

Lemma unpack_wrong_size (f : fmt) (d : bytes) :
  len d <> fmt_size f -> unpack f d = Raise StructError.
Proof.
  intros H. apply Z.eqb_neq in H.
  destruct f; unfold unpack, unpack_unsigned, unpack_signed,
    unpack_float, sized; cbn [fmt_size] in *; rewrite H; reflexivity.
Qed.

Lemma fmt_size_pos (f : fmt) : 1 <= fmt_size f.
Proof. destruct f; cbn; lia. Qed.

(** The loop over the components of a compound type never raises: each
    component is unpacked from a slice of exactly its size. *)
Lemma compound_loop_ok (data : bytes) (types : list text) :
  forall (values : list value) (offset : Z),
    0 <= offset ->
    exists vs, UdfParser.compound_loop data types values offset = Ok vs.
Proof.
  induction types as [|t types IH]; intros values offset Hoff;
    cbn [UdfParser.compound_loop]; [eauto|].
  destruct (UdfParser.TYPE_MAP t) as [[f n]|] eqn:Ht; [|eauto].
  apply type_map_size in Ht. subst n. pose proof (fmt_size_pos f).
  destruct (offset + fmt_size f <=? len data) eqn:E.
  - apply Z.leb_le in E.
    destruct (unpack_exact f (slice data offset (offset + fmt_size f)))
      as [v Hv]; [apply slice_full_len; lia|].
    rewrite Hv. cbn [bind]. apply IH. lia.
  - apply IH. exact Hoff.
Qed.

(** X11. [_parse_field_value] raises in one situation only: the type is a
    single recognized token and the data handed in has not exactly the
    width of that type; the error is then the [struct] error. Compound
    types and unknown types never raise. *)
Theorem parse_field_value_raises_iff (data : bytes) (type_spec : text)
  (size : Z) :
  (forall e, UdfParser._parse_field_value data type_spec size = Raise e ->
             e = StructError)
  /\ (UdfParser._parse_field_value data type_spec size = Raise StructError
      <-> exists t f n,
            map strip (split "," type_spec) = [t]
            /\ UdfParser.TYPE_MAP t = Some (f, n)
            /\ len data <> n).
Proof.
  unfold UdfParser._parse_field_value.
  destruct (map strip (split "," type_spec)) as [|t [|t' ts]] eqn:Hs.
  - cbn. split; [discriminate|]. split; [discriminate|].
    intros [t [f [n [H _]]]]. discriminate H.
  - destruct (UdfParser.TYPE_MAP t) as [[f n]|] eqn:Ht.
    + pose proof (type_map_size _ _ _ Ht) as Hn. subst n.
      destruct (Z.eq_dec (len data) (fmt_size f)) as [E|E].
      * destruct (unpack_exact f data E) as [v Hv]. rewrite Hv.
        split; [discriminate|]. split; [discriminate|].
        intros [t0 [f0 [n0 [[= <-] [Ht0 Hne]]]]].
        rewrite Ht in Ht0. injection Ht0 as <- <-. contradiction.
      * rewrite (unpack_wrong_size f data E).
        split; [intros e [= <-]; reflexivity|].
        split; [|reflexivity]. intros _. exists t, f, (fmt_size f). tauto.
    + split; [discriminate|]. split; [discriminate|].
      intros [t0 [f0 [n0 [[= <-] [Ht0 _]]]]]. congruence.
  - destruct (compound_loop_ok data (t :: t' :: ts) [] 0 ltac:(lia))
      as [vs Hvs].
    rewrite Hvs. cbn [bind]. split; [discriminate|].
    split; [discriminate|].
    intros [t0 [f0 [n0 [H _]]]]. discriminate H.
Qed.

(** X12. Local recovery in [_parse_record]: a field whose type is a single
    recognized token but whose declared size differs from the width of that
    type, with all its bytes present, is stored as the lowercase hex string
    of its bytes ([2 * size] characters), and the cursor advances by the
    declared size. *)
Theorem mismatched_field_stored_as_hex (data : bytes) (rec : record)
  (offset : Z) (f : field) (fm : fmt) (n : Z) :
  ~ In ","%char (f_type f) ->
  UdfParser.TYPE_MAP (strip (f_type f)) = Some (fm, n) ->
  f_size f <> n ->
  0 <= offset -> 0 <= f_size f -> offset + f_size f <= len data ->
  UdfParser.parse_field data (rec, offset) f
  = (dict_set rec (field_key f)
       (VHex (hex (slice data offset (offset + f_size f)))),
     offset + f_size f)
  /\ len (hex (slice data offset (offset + f_size f))) = 2 * f_size f.
Proof.
  intros Hcomma Ht Hne Hoff Hsize Hfit.
  assert (Hlen : len (slice data offset (offset + f_size f)) = f_size f)
    by (apply slice_full_len; lia).
  split.
  - unfold UdfParser.parse_field. rewrite Hlen, Z.ltb_irrefl.
    unfold UdfParser._parse_field_value.
    rewrite split_no_sep by exact Hcomma. cbn [map]. rewrite Ht.
    pose proof (type_map_size _ _ _ Ht) as Hn. subst n.
    rewrite unpack_wrong_size by (rewrite Hlen; exact Hne).
    reflexivity.
  - rewrite hex_len, Hlen. reflexivity.
Qed.

Lemma mismatched_field_stored_as_hex_witness :
  UdfParser.parse_field [x01; x02; xab] ([], 0)
    (mkField 7 (lit "Flags") 2 (lit "u8") None)
  = ([(lit "7_Flags", VHex (lit "0102"))], 2).
Proof.
  refine (proj1 (mismatched_field_stored_as_hex [x01; x02; xab] [] 0
                   (mkField 7 (lit "Flags") 2 (lit "u8") None) FB 1
                   _ eq_refl _ _ _ _)); cbn; try lia.
  intros H. repeat (destruct H as [H|H]; [discriminate H|]). exact H.
Defined.

(** ** The keys of a decoded record *)

Lemma text_eqb_sym (a b : text) : text_eqb a b = text_eqb b a.
Proof.
  destruct (text_eqb a b) eqn:E1, (text_eqb b a) eqn:E2; try reflexivity.
  - apply text_eqb_eq in E1. subst.
    rewrite (proj2 (text_eqb_eq b b) eq_refl) in E2. discriminate.
  - apply text_eqb_eq in E2. subst.
    rewrite (proj2 (text_eqb_eq a a) eq_refl) in E1. discriminate.
Qed.

Lemma keys_dict_set (d : record) (k : text) (v : value) :
  map fst (dict_set d k v) = add_key (map fst d) k.
Proof.
  unfold add_key. induction d as [|[k' v'] d IH]; [reflexivity|].
  cbn [dict_set map fst existsb]. rewrite (text_eqb_sym k k').
  destruct (text_eqb k' k) eqn:E; cbn [orb map fst].
  - apply text_eqb_eq in E. subst. reflexivity.
  - rewrite IH. destruct (existsb (text_eqb k) (map fst d)); reflexivity.
Qed.

Lemma keys_parse_fields (data : bytes) (fs : list field) :
  forall (rec : record) (offset : Z),
    map fst (fst (UdfParser.parse_fields data fs (rec, offset)))
    = fold_left add_key (map field_key fs) (map fst rec).
Proof.
  induction fs as [|f fs IH]; intros rec offset; [reflexivity|].
  unfold UdfParser.parse_fields in *. cbn [fold_left map].
  destruct (parse_field_shape data rec offset f) as [v ->].
  rewrite IH, keys_dict_set. reflexivity.
Qed.

(** X13. The keys of a decoded record, and their order, are fixed by the
    descriptors alone: [_record_num] first, then the key of each
    descriptor at its first occurrence. Two records of one parse have the
    same keys whatever the bytes and the record numbers. *)
Theorem record_keys_fixed_by_descriptors (st : UdfParser.state)
  (data data' : bytes) (n n' : Z) :
  map fst (UdfParser._parse_record st data n)
  = fold_left add_key (map field_key (UdfParser.fields st))
      [lit "_record_num"]
  /\ map fst (UdfParser._parse_record st data n)
     = map fst (UdfParser._parse_record st data' n').
Proof.
  unfold UdfParser._parse_record. rewrite !keys_parse_fields.
  split; reflexivity.
Qed.

Lemma str_of_int_head (n : Z) :
  exists c rest, str_of_int n = c :: rest /\ c <> "_"%char.
Proof.
  unfold str_of_int.
  destruct (Z.to_int n) as [u|u]; destruct u; cbn;
    eexists _, _; (split; [reflexivity | discriminate]).
Qed.

Lemma field_key_not_record_num (f : field) :
  field_key f <> lit "_record_num".
Proof.
  unfold field_key.
  destruct (str_of_int_head (f_id f)) as [c [rest [-> Hc]]].
  cbn. intros [= H _]. exact (Hc H).
Qed.

(** X14. No descriptor can overwrite the record number: the key of a field
    starts with the decimal form of its id, never with an underscore, so
    every decoded record holds its record number under [_record_num]. *)
Theorem record_num_kept (st : UdfParser.state) (data : bytes) (n : Z) :
  dict_get (UdfParser._parse_record st data n) (lit "_record_num")
  = Some (VInt n).
Proof.
  unfold UdfParser._parse_record.
  rewrite parse_fields_other_key.
  - reflexivity.
  - apply Forall_forall. intros f _. apply field_key_not_record_num.
Qed.

(** ** The converter script against the generic parser *)

(** X15. On a payload of at least 100 bytes whose scan window holds between
    two and ten markers, the framing step of [parse_udf_file] and
    [_calculate_record_size] answer the same pair of sizes. *)
Theorem framing_agrees_up_to_ten_markers (set_iter : list Z -> list Z)
  (data : bytes) :
  100 <= len data ->
  2 <= len (scan_markers_all data) <= 10 ->
  Converter.parse_udf_file_framing set_iter data
  = UdfParser._calculate_record_size set_iter data.
Proof.
  intros Hlen [Hlo Hhi].
  assert (Hsame : scan_markers data = scan_markers_all data).
  { rewrite scan_markers_firstn. apply firstn_all2. unfold len in Hhi. lia. }
  rewrite calculate_record_size_eq by (rewrite ?Hsame; assumption).
  unfold Converter.parse_udf_file_framing. rewrite Hsame.
  replace (len (scan_markers_all data) <? 2) with false
    by (symmetry; apply Z.ltb_ge; exact Hlo).
  reflexivity.
Qed.

Lemma framing_agrees_up_to_ten_markers_witness :
  Converter.parse_udf_file_framing set_first_seen
    (payload_with 200 [28; 89; 150]%nat)
  = UdfParser._calculate_record_size set_first_seen
      (payload_with 200 [28; 89; 150]%nat).
Proof.
  apply (framing_agrees_up_to_ten_markers set_first_seen
           (payload_with 200 [28; 89; 150]%nat)).
  - vm_compute. discriminate.
  - vm_compute. split; discriminate.
Defined.

(** ** The field patterns, read backwards: what a match tells of the line *)

Lemma pushes_none (w : text) : fold_left Re.push w None = None.
Proof. induction w as [|c w IH]; [reflexivity | exact IH]. Qed.

Lemma pushes_some (w g : text) :
  fold_left Re.push w (Some g) = Some (g ++ w).
Proof.
  revert g. induction w as [|c w IH]; intros g; cbn [fold_left Re.push].
  - rewrite app_nil_r. reflexivity.
  - rewrite IH, <- app_assoc. reflexivity.
Qed.

Lemma rmatch_star_nil (cls : ascii -> bool) (p : list Re.atom)
  (cur : option text) (groups : list text) :
  Re.rmatch (Re.Star cls :: p) cur groups [] = Re.rmatch p cur groups [].
Proof. reflexivity. Qed.

Lemma rmatch_star_cons (cls : ascii -> bool) (p : list Re.atom)
  (cur : option text) (groups : list text) (x : ascii) (s : text) :
  Re.rmatch (Re.Star cls :: p) cur groups (x :: s)
  = if cls x then
      match Re.rmatch (Re.Star cls :: p) (Re.push cur x) groups s with
      | Some r => Some r
      | None => Re.rmatch p cur groups (x :: s)
      end
    else Re.rmatch p cur groups (x :: s).
Proof. reflexivity. Qed.

Lemma rmatch_star_inv (cls : ascii -> bool) (p : list Re.atom)
  (groups : list text) (s : text) :
  forall (cur : option text) (r : list text),
    Re.rmatch (Re.Star cls :: p) cur groups s = Some r ->
    exists w s',
      s = w ++ s' /\ forallb cls w = true
      /\ Re.rmatch p (fold_left Re.push w cur) groups s' = Some r.
Proof.
  induction s as [|x s IH]; intros cur r H.
  - rewrite rmatch_star_nil in H. exists [], []. auto.
  - rewrite rmatch_star_cons in H. destruct (cls x) eqn:Hx.
    + destruct (Re.rmatch (Re.Star cls :: p) (Re.push cur x) groups s)
        as [r'|] eqn:E.
      * injection H as <-. destruct (IH _ _ E) as [w [s' [-> [Hw Hm]]]].
        exists (x :: w), s'. cbn [forallb fold_left app].
        rewrite Hx, Hw. auto.
      * exists [], (x :: s). auto.
    + exists [], (x :: s). auto.
Qed.

Lemma rmatch_star_complete (cls : ascii -> bool) (p : list Re.atom)
  (groups : list text) (s' : text) (w : text) :
  forallb cls w = true ->
  forall cur : option text,
    Re.rmatch p (fold_left Re.push w cur) groups s' <> None ->
    Re.rmatch (Re.Star cls :: p) cur groups (w ++ s') <> None.
Proof.
  induction w as [|x w IH]; intros Hw cur H; cbn [app fold_left] in *.
  - destruct s' as [|y s'].
    + rewrite rmatch_star_nil. exact H.
    + rewrite rmatch_star_cons. destruct (cls y); [|exact H].
      destruct (Re.rmatch (Re.Star cls :: p) (Re.push cur y) groups s');
        [discriminate | exact H].
  - cbn [forallb] in Hw. apply andb_true_iff in Hw. destruct Hw as [Hx Hw].
    rewrite rmatch_star_cons, Hx.
    specialize (IH Hw (Re.push cur x) H).
    destruct (Re.rmatch (Re.Star cls :: p) (Re.push cur x) groups (w ++ s'));
      [discriminate | congruence].
Qed.

(** A capture group takes a non-empty run of its class off the line. *)
Lemma grp_inv (cls : ascii -> bool) (p : list Re.atom) (groups : list text)
  (s : text) (r : list text) :
  Re.rmatch (grp cls ++ p) None groups s = Some r ->
  exists g s',
    s = g ++ s' /\ g <> [] /\ forallb cls g = true
    /\ Re.rmatch p None (g :: groups) s' = Some r.
Proof.
  unfold grp. cbn [app].
  change (Re.rmatch (Re.Open :: Re.One cls :: Re.Star cls :: Re.Close :: p)
            None groups s)
    with (Re.rmatch (Re.One cls :: Re.Star cls :: Re.Close :: p)
            (Some []) groups s).
  destruct s as [|x s]; [discriminate|].
  change (Re.rmatch (Re.One cls :: Re.Star cls :: Re.Close :: p)
            (Some []) groups (x :: s))
    with (if cls x
          then Re.rmatch (Re.Star cls :: Re.Close :: p) (Some [x]) groups s
          else None).
  destruct (cls x) eqn:Hx; [|discriminate].
  intros H. apply rmatch_star_inv in H.
  destruct H as [w [s' [-> [Hw Hm]]]].
  rewrite pushes_some in Hm.
  exists (x :: w), s'. cbn [forallb app]. rewrite Hx, Hw.
  repeat split; [discriminate | exact Hm].
Qed.

Lemma grp_complete (cls : ascii -> bool) (p : list Re.atom)
  (groups : list text) (g s' : text) :
  g <> [] -> forallb cls g = true ->
  Re.rmatch p None (g :: groups) s' <> None ->
  Re.rmatch (grp cls ++ p) None groups (g ++ s') <> None.
Proof.
  intros Hg Hcls H. destruct g as [|x w]; [congruence|].
  cbn [forallb] in Hcls. apply andb_true_iff in Hcls.
  destruct Hcls as [Hx Hw].
  unfold grp. cbn [app].
  change (Re.rmatch (Re.Open :: Re.One cls :: Re.Star cls :: Re.Close :: p)
            None groups (x :: w ++ s'))
    with (if cls x
          then Re.rmatch (Re.Star cls :: Re.Close :: p) (Some [x]) groups
                 (w ++ s')
          else None).
  rewrite Hx. apply rmatch_star_complete; [exact Hw|].
  rewrite pushes_some. exact H.
Qed.

(** A column takes a group, a colon and a run of blanks off the line. *)
Lemma column_inv (cls : ascii -> bool) (p : list Re.atom)
  (groups : list text) (s : text) (r : list text) :
  Re.rmatch (column cls ++ p) None groups s = Some r ->
  exists g w s',
    s = g ++ ":"%char :: w ++ s' /\ g <> [] /\ forallb cls g = true
    /\ forallb is_space w = true
    /\ Re.rmatch p None (g :: groups) s' = Some r.
Proof.
  unfold column. rewrite <- app_assoc. intros H.
  apply grp_inv in H. destruct H as [g [s1 [-> [Hg [Hcls H]]]]].
  cbn [app] in H. destruct s1 as [|c s1]; [discriminate|].
  change (Re.rmatch (Re.Lit ":" :: Re.Star is_space :: p) None
            (g :: groups) (c :: s1))
    with (if Ascii.eqb c ":"
          then Re.rmatch (Re.Star is_space :: p) None (g :: groups) s1
          else None) in H.
  destruct (Ascii.eqb c ":") eqn:Hc; [|discriminate].
  apply Ascii.eqb_eq in Hc. subst c.
  apply rmatch_star_inv in H. destruct H as [w [s' [-> [Hw H]]]].
  rewrite pushes_none in H.
  exists g, w, s'. auto.
Qed.

Lemma column_complete (cls : ascii -> bool) (p : list Re.atom)
  (groups : list text) (g w s' : text) :
  g <> [] -> forallb cls g = true -> forallb is_space w = true ->
  Re.rmatch p None (g :: groups) s' <> None ->
  Re.rmatch (column cls ++ p) None groups (g ++ ":"%char :: w ++ s') <> None.
Proof.
  intros Hg Hcls Hw H. unfold column. rewrite <- app_assoc.
  apply grp_complete; [exact Hg | exact Hcls |].
  cbn [app].
  change (Re.rmatch (Re.Lit ":" :: Re.Star is_space :: p) None
            (g :: groups) (":"%char :: w ++ s'))
    with (Re.rmatch (Re.Star is_space :: p) None (g :: groups) (w ++ s')).
  apply rmatch_star_complete; [exact Hw|].
  rewrite pushes_none. exact H.
Qed.

Lemma rawdata_pattern_columns :
  RawData.field_pattern
  = column is_digit ++ column not_colon ++ column is_digit
    ++ grp not_colon ++ [Re.Lit ":"].
Proof. reflexivity. Qed.

Lemma parser_pattern_columns :
  UdfParser.field_pattern
  = column is_digit ++ column not_colon ++ column is_digit
    ++ column not_colon ++ column not_colon ++ column not_colon
    ++ column not_colon ++ grp is_dot ++ [Re.Eos].
Proof. reflexivity. Qed.

(** A match of the four-column prefix pattern: the line opens with four
    columns and the groups are their texts. *)
Lemma rawdata_match_inv (line : text) (r : list text) :
  Re.pmatch RawData.field_pattern line = Some r ->
  exists g1 g2 g3 g4 rest,
    r = [g1; g2; g3; g4] /\ four_columns line g1 g2 g3 g4 rest.
Proof.
  unfold Re.pmatch. rewrite rawdata_pattern_columns. intros H.
  apply column_inv in H. destruct H as [g1 [w1 [s1 [-> [N1 [C1 [W1 H]]]]]]].
  apply column_inv in H. destruct H as [g2 [w2 [s2 [-> [N2 [C2 [W2 H]]]]]]].
  apply column_inv in H. destruct H as [g3 [w3 [s3 [-> [N3 [C3 [W3 H]]]]]]].
  apply grp_inv in H. destruct H as [g4 [s4 [-> [N4 [C4 H]]]]].
  destruct s4 as [|c rest]; [discriminate|].
  change (Re.rmatch [Re.Lit ":"] None [g4; g3; g2; g1] (c :: rest))
    with (if Ascii.eqb c ":" then Some [g1; g2; g3; g4] else None) in H.
  destruct (Ascii.eqb c ":") eqn:Hc; [|discriminate].
  apply Ascii.eqb_eq in Hc. subst c. injection H as <-.
  exists g1, g2, g3, g4, rest. split; [reflexivity|].
  exists w1, w2, w3. repeat split; assumption.
Qed.

Lemma rawdata_match_complete (line g1 g2 g3 g4 rest : text) :
  four_columns line g1 g2 g3 g4 rest ->
  Re.pmatch RawData.field_pattern line <> None.
Proof.
  intros [w1 [w2 [w3 [-> [[N1 C1] [[N2 C2] [[N3 C3] [[N4 C4] [W1 [W2 W3]]]]]]]]]].
  unfold Re.pmatch. rewrite rawdata_pattern_columns.
  apply column_complete; try assumption.
  apply column_complete; try assumption.
  apply column_complete; try assumption.
  apply grp_complete; try assumption.
  cbn. discriminate.
Qed.

(** A match of the eight-column pattern: four columns, then four more. *)
Lemma parser_match_inv (line : text) (r : list text) :
  Re.pmatch UdfParser.field_pattern line = Some r ->
  exists g1 g2 g3 g4 rest g5 g6 g7 g8,
    r = [g1; g2; g3; g4; g5; g6; g7; g8]
    /\ four_columns line g1 g2 g3 g4 rest
    /\ four_more rest g5 g6 g7 g8.
Proof.
  unfold Re.pmatch. rewrite parser_pattern_columns. intros H.
  apply column_inv in H. destruct H as [g1 [w1 [s1 [-> [N1 [C1 [W1 H]]]]]]].
  apply column_inv in H. destruct H as [g2 [w2 [s2 [-> [N2 [C2 [W2 H]]]]]]].
  apply column_inv in H. destruct H as [g3 [w3 [s3 [-> [N3 [C3 [W3 H]]]]]]].
  apply column_inv in H. destruct H as [g4 [w4 [s4 [-> [N4 [C4 [W4 H]]]]]]].
  apply column_inv in H. destruct H as [g5 [w5 [s5 [-> [N5 [C5 [W5 H]]]]]]].
  apply column_inv in H. destruct H as [g6 [w6 [s6 [-> [N6 [C6 [W6 H]]]]]]].
  apply column_inv in H. destruct H as [g7 [w7 [s7 [-> [N7 [C7 [W7 H]]]]]]].
  apply grp_inv in H. destruct H as [g8 [s8 [-> [N8 [C8 H]]]]].
  destruct s8 as [|c s8]; [|discriminate].
  injection H as <-. rewrite app_nil_r.
  exists g1, g2, g3, g4, (w4 ++ g5 ++ ":"%char :: w5 ++ g6 ++ ":"%char :: w6
                          ++ g7 ++ ":"%char :: w7 ++ g8), g5, g6, g7, g8.
  split; [reflexivity|]. split.
  - exists w1, w2, w3. repeat split; assumption.
  - exists w4, w5, w6, w7. repeat split; assumption.
Qed.

(** ** Character classes, blanks and colons *)

Lemma digit_not_colon (c : ascii) : is_digit c = true -> not_colon c = true.
Proof.
  destruct c as [[] [] [] [] [] [] [] []]; vm_compute; congruence.
Qed.

Lemma space_not_colon (c : ascii) : is_space c = true -> not_colon c = true.
Proof.
  destruct c as [[] [] [] [] [] [] [] []]; vm_compute; congruence.
Qed.

Lemma digit_not_space (c : ascii) : is_digit c = true -> is_space c = false.
Proof.
  destruct c as [[] [] [] [] [] [] [] []]; vm_compute; congruence.
Qed.

Lemma digit_not_sign (c : ascii) :
  is_digit c = true -> Ascii.eqb c "-" = false /\ Ascii.eqb c "+" = false.
Proof.
  destruct c as [[] [] [] [] [] [] [] []]; vm_compute; intuition congruence.
Qed.

Lemma digit_code (c : ascii) : is_digit c = true -> 0 <= code c - 48.
Proof.
  unfold is_digit. intros H. apply andb_true_iff in H.
  destruct H as [H _]. apply Z.leb_le in H. lia.
Qed.

Lemma forallb_impl (p q : ascii -> bool) (s : text) :
  (forall c, p c = true -> q c = true) ->
  forallb p s = true -> forallb q s = true.
Proof.
  intros Hpq. rewrite !forallb_forall. auto.
Qed.

Lemma not_colon_eqb (c : ascii) :
  not_colon c = true -> Ascii.eqb c ":" = false.
Proof. unfold not_colon. destruct (Ascii.eqb c ":"); cbn; congruence. Qed.

Lemma colons_app (a b : text) : colons (a ++ b) = colons a + colons b.
Proof. unfold colons. rewrite filter_app, len_app. reflexivity. Qed.

Lemma colons_colon (s : text) : colons (":"%char :: s) = 1 + colons s.
Proof.
  unfold colons. cbn [filter].
  change (Ascii.eqb ":" ":") with true. cbv iota. apply len_cons.
Qed.

Lemma colons_nonneg (s : text) : 0 <= colons s.
Proof. apply len_nonneg. Qed.

Lemma colons_free (s : text) : forallb not_colon s = true -> colons s = 0.
Proof.
  unfold colons. induction s as [|c s IH]; [reflexivity|].
  cbn [forallb filter]. intros H. apply andb_true_iff in H.
  destruct H as [Hc Hs]. rewrite (not_colon_eqb c Hc). exact (IH Hs).
Qed.

Lemma colons_rev (s : text) : colons (rev s) = colons s.
Proof.
  unfold colons, len. rewrite filter_rev, length_rev. reflexivity.
Qed.

Lemma lstrip_split (s : text) :
  exists w, s = w ++ lstrip s /\ forallb is_space w = true.
Proof.
  induction s as [|c s [w [Hs Hw]]]; [exists []; auto|].
  cbn [lstrip]. destruct (is_space c) eqn:E.
  - exists (c :: w). cbn [app forallb]. rewrite E, Hw, <- Hs. auto.
  - exists []. auto.
Qed.

Lemma colons_lstrip (s : text) : colons (lstrip s) = colons s.
Proof.
  destruct (lstrip_split s) as [w [Hs Hw]]. rewrite Hs at 2.
  rewrite colons_app, (colons_free w); [lia|].
  exact (forallb_impl _ _ _ space_not_colon Hw).
Qed.

Lemma colons_strip (s : text) : colons (strip s) = colons s.
Proof.
  unfold strip.
  rewrite colons_rev, colons_lstrip, colons_rev, colons_lstrip.
  reflexivity.
Qed.

Lemma lstrip_blanks (w s : text) :
  forallb is_space w = true -> lstrip (w ++ s) = lstrip s.
Proof.
  induction w as [|c w IH]; [reflexivity|].
  cbn [forallb app lstrip]. intros H. apply andb_true_iff in H.
  destruct H as [Hc Hw]. rewrite Hc. exact (IH Hw).
Qed.

Lemma strip_blanks (w s : text) :
  forallb is_space w = true -> strip (w ++ s) = strip s.
Proof. intros H. unfold strip. rewrite lstrip_blanks by exact H. reflexivity. Qed.

Lemma lstrip_digits (g : text) : forallb is_digit g = true -> lstrip g = g.
Proof.
  destruct g as [|c g]; [reflexivity|]. cbn [forallb lstrip].
  intros H. apply andb_true_iff in H. destruct H as [Hc _].
  rewrite (digit_not_space c Hc). reflexivity.
Qed.

Lemma forallb_rev (p : ascii -> bool) (s : text) :
  forallb p (rev s) = forallb p s.
Proof.
  destruct (forallb p s) eqn:E.
  - rewrite forallb_forall in *. intros c Hc. apply E, in_rev, Hc.
  - destruct (forallb p (rev s)) eqn:E'; [|reflexivity].
    rewrite forallb_forall in E'.
    assert (forallb p s = true)
      by (apply forallb_forall; intros c Hc; apply E', in_rev;
          rewrite rev_involutive; exact Hc).
    congruence.
Qed.

Lemma strip_digits (g : text) : forallb is_digit g = true -> strip g = g.
Proof.
  intros H. unfold strip. rewrite (lstrip_digits g H).
  rewrite lstrip_digits by (rewrite forallb_rev; exact H).
  apply rev_involutive.
Qed.

Lemma split_len (sep : ascii) (s : text) :
  len (split sep s) = len (filter (fun c => Ascii.eqb c sep) s) + 1.
Proof.
  induction s as [|c s IH]; [reflexivity|].
  cbn [split filter]. destruct (Ascii.eqb c sep).
  - rewrite !len_cons, IH. lia.
  - pose proof (split_nonempty sep s) as Hne.
    destruct (split sep s) as [|piece pieces]; [congruence|].
    rewrite len_cons in *. exact IH.
Qed.

Lemma split_colon_free (a x : text) :
  forallb not_colon a = true ->
  split ":" (a ++ ":"%char :: x) = a :: split ":" x.
Proof.
  induction a as [|c a IH]; intros H.
  - reflexivity.
  - cbn [forallb] in H. apply andb_true_iff in H. destruct H as [Hc Ha].
    cbn [app split]. rewrite (not_colon_eqb c Hc), (IH Ha). reflexivity.
Qed.

Lemma colon_prefix_unique (a b x y : text) :
  forallb not_colon a = true -> forallb not_colon b = true ->
  a ++ ":"%char :: x = b ++ ":"%char :: y -> a = b /\ x = y.
Proof.
  revert b. induction a as [|c a IH]; intros [|d b] Ha Hb H;
    cbn [app forallb] in *.
  - injection H as H. auto.
  - injection H as <- _. discriminate Hb.
  - injection H as -> _. discriminate Ha.
  - injection H as <- H. apply andb_true_iff in Ha, Hb.
    destruct (IH b (proj2 Ha) (proj2 Hb) H) as [-> ->]. auto.
Qed.

Lemma digits_value_nonneg (s : text) (acc : Z) :
  0 <= acc -> forallb is_digit s = true ->
  0 <= fold_left (fun a c => 10 * a + (code c - 48)) s acc.
Proof.
  revert acc. induction s as [|c s IH]; intros acc Hacc Hs; [exact Hacc|].
  cbn [forallb fold_left] in *. apply andb_true_iff in Hs.
  destruct Hs as [Hc Hs]. apply IH; [|exact Hs].
  pose proof (digit_code c Hc). lia.
Qed.

Lemma decimal_nonneg (s : text) :
  forallb is_digit s = true -> 0 <= decimal s.
Proof. apply digits_value_nonneg. lia. Qed.

(** ** The digit limit of [int] *)

Lemma int_of_digits_fits (g : text) :
  len g <= int_max_str_digits -> int_of_digits g = Ok (decimal g).
Proof.
  intros H. unfold int_of_digits.
  destruct (int_max_str_digits <? len g) eqn:E; [|reflexivity].
  apply Z.ltb_lt in E. lia.
Qed.

Lemma int_of_digits_overlong (g : text) :
  int_max_str_digits < len g -> int_of_digits g = Raise int_limit_error.
Proof.
  intros H. unfold int_of_digits.
  destruct (int_max_str_digits <? len g) eqn:E; [reflexivity|].
  apply Z.ltb_ge in E. lia.
Qed.

Lemma int_of_digits_ok_inv (g : text) (n : Z) :
  int_of_digits g = Ok n -> n = decimal g /\ len g <= int_max_str_digits.
Proof.
  unfold int_of_digits.
  destruct (int_max_str_digits <? len g) eqn:E; [discriminate|].
  apply Z.ltb_ge in E. intros [= <-]. auto.
Qed.

Lemma int_of_digits_raise_inv (g : text) (e : exn) :
  int_of_digits g = Raise e ->
  e = int_limit_error /\ int_max_str_digits < len g.
Proof.
  unfold int_of_digits.
  destruct (int_max_str_digits <? len g) eqn:E; [|discriminate].
  apply Z.ltb_lt in E. intros [= <-]. auto.
Qed.

(** The two conversions of a field line, one after the other. *)
Lemma two_ints_fit (A : Type) (g1 g3 : text) (k : Z -> Z -> res A) :
  len g1 <= int_max_str_digits -> len g3 <= int_max_str_digits ->
  (field_id <- int_of_digits g1;; size <- int_of_digits g3;; k field_id size)
  = k (decimal g1) (decimal g3).
Proof.
  intros H1 H3.
  rewrite (int_of_digits_fits g1 H1), (int_of_digits_fits g3 H3).
  reflexivity.
Qed.

Lemma two_ints_overlong (A : Type) (g1 g3 : text) (k : Z -> Z -> res A) :
  overlong g1 g3 ->
  (field_id <- int_of_digits g1;; size <- int_of_digits g3;; k field_id size)
  = Raise int_limit_error.
Proof.
  intros H. destruct (int_of_digits g1) as [n|e] eqn:E1; cbn [bind].
  - destruct H as [H|H].
    + rewrite (int_of_digits_overlong g1 H) in E1. discriminate E1.
    + rewrite (int_of_digits_overlong g3 H). reflexivity.
  - apply int_of_digits_raise_inv in E1. destruct E1 as [-> _]. reflexivity.
Qed.

Lemma two_ints_inv (A : Type) (g1 g3 : text) (k : Z -> Z -> res A) :
  (len g1 <= int_max_str_digits /\ len g3 <= int_max_str_digits
   /\ (field_id <- int_of_digits g1;; size <- int_of_digits g3;;
       k field_id size) = k (decimal g1) (decimal g3))
  \/ (overlong g1 g3
      /\ (field_id <- int_of_digits g1;; size <- int_of_digits g3;;
          k field_id size) = Raise int_limit_error).
Proof.
  destruct (Z_le_gt_dec (len g1) int_max_str_digits) as [H1|H1];
    [destruct (Z_le_gt_dec (len g3) int_max_str_digits) as [H3|H3]|].
  - left. split; [exact H1|]. split; [exact H3|].
    apply two_ints_fit; assumption.
  - right. assert (H : overlong g1 g3) by (right; lia).
    split; [exact H | apply two_ints_overlong, H].
  - right. assert (H : overlong g1 g3) by (left; lia).
    split; [exact H | apply two_ints_overlong, H].
Qed.

(** ** Field lines: what the three header parsers accept *)

Lemma four_columns_colons (line g1 g2 g3 g4 rest : text) :
  four_columns line g1 g2 g3 g4 rest -> colons line = 4 + colons rest.
Proof.
  intros [w1 [w2 [w3 [-> [[_ C1] [[_ C2] [[_ C3] [[_ C4] [W1 [W2 W3]]]]]]]]]].
  repeat (rewrite ?colons_app, ?colons_colon).
  rewrite (colons_free g1) by exact (forallb_impl _ _ _ digit_not_colon C1).
  rewrite (colons_free g3) by exact (forallb_impl _ _ _ digit_not_colon C3).
  rewrite (colons_free g2), (colons_free g4) by assumption.
  rewrite (colons_free w1) by exact (forallb_impl _ _ _ space_not_colon W1).
  rewrite (colons_free w2) by exact (forallb_impl _ _ _ space_not_colon W2).
  rewrite (colons_free w3) by exact (forallb_impl _ _ _ space_not_colon W3).
  lia.
Qed.

Lemma four_more_colons (rest g5 g6 g7 g8 : text) :
  four_more rest g5 g6 g7 g8 -> 3 <= colons rest.
Proof.
  intros [w4 [w5 [w6 [w7 [-> _]]]]].
  repeat (rewrite ?colons_app, ?colons_colon).
  pose proof (colons_nonneg w4). pose proof (colons_nonneg w5).
  pose proof (colons_nonneg w6). pose proof (colons_nonneg w7).
  pose proof (colons_nonneg g5). pose proof (colons_nonneg g6).
  pose proof (colons_nonneg g7). pose proof (colons_nonneg g8). lia.
Qed.

Lemma forallb_lstrip (p : ascii -> bool) (s : text) :
  forallb p s = true -> forallb p (lstrip s) = true.
Proof.
  destruct (lstrip_split s) as [w [Hs _]]. rewrite Hs at 1.
  rewrite forallb_app. intros H. apply andb_true_iff in H. tauto.
Qed.

Lemma forallb_strip (p : ascii -> bool) (s : text) :
  forallb p s = true -> forallb p (strip s) = true.
Proof.
  intros H. unfold strip. rewrite forallb_rev.
  apply forallb_lstrip. rewrite forallb_rev. apply forallb_lstrip, H.
Qed.

Lemma blanks_token_not_colon (w g : text) :
  forallb is_space w = true -> forallb not_colon g = true ->
  forallb not_colon (w ++ g) = true.
Proof.
  intros Hw Hg. rewrite forallb_app, Hg, andb_true_r.
  exact (forallb_impl _ _ _ space_not_colon Hw).
Qed.

(** The four columns of a line are determined by the line, up to the
    blanks around the two tokens, and so is what follows them. *)
Lemma four_columns_unique (line g1 g2 g3 g4 rest h1 h2 h3 h4 rest' : text) :
  four_columns line g1 g2 g3 g4 rest ->
  four_columns line h1 h2 h3 h4 rest' ->
  g1 = h1 /\ strip g2 = strip h2 /\ g3 = h3 /\ strip g4 = strip h4
  /\ rest = rest'.
Proof.
  intros [w1 [w2 [w3 [-> [[_ C1] [[_ C2] [[_ C3] [[_ C4] [W1 [W2 W3]]]]]]]]]]
         [v1 [v2 [v3 [E [[_ D1] [[_ D2] [[_ D3] [[_ D4] [V1 [V2 V3]]]]]]]]]].
  apply colon_prefix_unique in E;
    try (apply (forallb_impl _ _ _ digit_not_colon); assumption).
  destruct E as [E1 E]. rewrite !app_assoc in E.
  apply colon_prefix_unique in E;
    try (apply blanks_token_not_colon; assumption).
  destruct E as [E2 E].
  apply colon_prefix_unique in E;
    try (apply blanks_token_not_colon;
         [|apply (forallb_impl _ _ _ digit_not_colon)]; assumption).
  destruct E as [E3 E].
  apply colon_prefix_unique in E;
    try (apply blanks_token_not_colon; assumption).
  destruct E as [E4 E5].
  repeat split.
  - exact E1.
  - rewrite <- (strip_blanks w1 g2 W1), <- (strip_blanks v1 h2 V1).
    congruence.
  - rewrite <- (lstrip_digits g3 C3), <- (lstrip_digits h3 D3).
    rewrite <- (lstrip_blanks w2 g3 W2), <- (lstrip_blanks v2 h3 V2).
    congruence.
  - rewrite <- (strip_blanks w3 g4 W3), <- (strip_blanks v3 h4 V3).
    congruence.
  - exact E5.
Qed.

(** The four last columns are determined by what follows the fourth colon,
    up to the blanks around them. *)
Lemma four_more_unique (rest g5 g6 g7 g8 h5 h6 h7 h8 : text) :
  four_more rest g5 g6 g7 g8 ->
  four_more rest h5 h6 h7 h8 ->
  strip g5 = strip h5 /\ strip g6 = strip h6 /\ strip g7 = strip h7
  /\ strip g8 = strip h8.
Proof.
  intros [w4 [w5 [w6 [w7 [-> [[_ C5] [[_ C6] [[_ C7] [_ [W4 [W5 [W6 W7]]]]]]]]]]]]
         [v4 [v5 [v6 [v7 [E [[_ D5] [[_ D6] [[_ D7] [_ [V4 [V5 [V6 V7]]]]]]]]]]]].
  rewrite !app_assoc in E.
  apply colon_prefix_unique in E;
    try (apply blanks_token_not_colon; assumption).
  destruct E as [E5 E].
  apply colon_prefix_unique in E;
    try (apply blanks_token_not_colon; assumption).
  destruct E as [E6 E].
  apply colon_prefix_unique in E;
    try (apply blanks_token_not_colon; assumption).
  destruct E as [E7 E8].
  repeat split.
  - rewrite <- (strip_blanks w4 g5 W4), <- (strip_blanks v4 h5 V4).
    congruence.
  - rewrite <- (strip_blanks w5 g6 W5), <- (strip_blanks v5 h6 V5).
    congruence.
  - rewrite <- (strip_blanks w6 g7 W6), <- (strip_blanks v6 h7 V6).
    congruence.
  - rewrite <- (strip_blanks w7 g8 W7), <- (strip_blanks v7 h8 V7).
    congruence.
Qed.

Lemma four_columns_head (line g1 g2 g3 g4 rest : text) :
  four_columns line g1 g2 g3 g4 rest ->
  exists c l, line = c :: l /\ is_digit c = true.
Proof.
  intros [w1 [w2 [w3 [-> [[N1 C1] _]]]]].
  destruct g1 as [|c g1]; [congruence|].
  cbn [forallb] in C1. apply andb_true_iff in C1.
  exists c. eexists. split; [reflexivity | tauto].
Qed.

(** Every line of the eight-column form matches the pattern of the generic
    parser. *)
Lemma parser_match_complete (line g1 g2 g3 g4 rest g5 g6 g7 g8 : text) :
  four_columns line g1 g2 g3 g4 rest ->
  four_more rest g5 g6 g7 g8 ->
  Re.pmatch UdfParser.field_pattern line <> None.
Proof.
  intros [w1 [w2 [w3 [-> [[N1 C1] [[N2 C2] [[N3 C3] [[N4 C4] [W1 [W2 W3]]]]]]]]]]
         [w4 [w5 [w6 [w7 [-> [[N5 C5] [[N6 C6] [[N7 C7] [[N8 C8]
            [W4 [W5 [W6 W7]]]]]]]]]]]].
  unfold Re.pmatch. rewrite parser_pattern_columns.
  do 7 (apply column_complete; try assumption).
  rewrite <- (app_nil_r g8).
  apply grp_complete; try assumption.
  cbn. discriminate.
Qed.

(** ** Field lines: the outcome of each line parser *)

(** The canonical-schema parser on any line: it skips the line, or the line
    opens with four columns and its id and size go through [int]. *)
Lemma rawdata_parse_line_cases (line : text) :
  RawData.parse_line line = Ok None
  \/ exists g1 g2 g3 g4 rest,
       four_columns line g1 g2 g3 g4 rest
       /\ RawData.parse_line line
          = (field_id <- int_of_digits g1;;
             size <- int_of_digits g3;;
             Ok (Some (mkField field_id (strip g2) size (strip g4) None))).
Proof.
  unfold RawData.parse_line.
  destruct (Re.pmatch RawData.field_pattern line) as [r|] eqn:E;
    [|left; reflexivity].
  right.
  destruct (rawdata_match_inv line r E) as [g1 [g2 [g3 [g4 [rest [-> H]]]]]].
  exists g1, g2, g3, g4, rest. split; [exact H | reflexivity].
Qed.

(** The generic parser on any line. *)
Lemma parser_parse_line_cases (line : text) :
  UdfParser.parse_line line = Ok None
  \/ exists g1 g2 g3 g4 g5 g6 g7 g8,
       eight_columns line g1 g2 g3 g4 g5 g6 g7 g8
       /\ UdfParser.parse_line line
          = (field_id <- int_of_digits g1;;
             size <- int_of_digits g3;;
             Ok (Some (mkField field_id (strip g2) size (strip g4)
                         (Some (strip g5, strip g6, strip g7, strip g8))))).
Proof.
  unfold UdfParser.parse_line, eight_columns. cbv zeta.
  destruct (strip line) as [|c l]; [left; reflexivity|].
  destruct (Re.pmatch UdfParser.field_pattern (c :: l)) as [r|] eqn:E;
    [|left; reflexivity].
  right.
  destruct (parser_match_inv (c :: l) r E)
    as [g1 [g2 [g3 [g4 [rest [g5 [g6 [g7 [g8 [-> [H4 H8]]]]]]]]]]].
  exists g1, g2, g3, g4, g5, g6, g7, g8.
  split; [exists rest; split; assumption | reflexivity].
Qed.

(** The canonical-schema parser on a line that opens with four columns,
    whichever way the columns are cut out. *)
Lemma rawdata_parse_line_columns (line g1 g2 g3 g4 rest : text) :
  four_columns line g1 g2 g3 g4 rest ->
  RawData.parse_line line
  = (field_id <- int_of_digits g1;;
     size <- int_of_digits g3;;
     Ok (Some (mkField field_id (strip g2) size (strip g4) None))).
Proof.
  intros H.
  destruct (rawdata_parse_line_cases line)
    as [E|[h1 [h2 [h3 [h4 [rest' [H' ->]]]]]]].
  - exfalso. apply (rawdata_match_complete _ _ _ _ _ _ H).
    unfold RawData.parse_line in E.
    destruct (Re.pmatch RawData.field_pattern line) as [r|] eqn:Er;
      [|reflexivity].
    destruct (rawdata_match_inv _ _ Er) as [k1 [k2 [k3 [k4 [k5 [-> _]]]]]].
    cbv beta iota in E.
    destruct (int_of_digits k1); cbn [bind] in E; [|discriminate E].
    destruct (int_of_digits k3); cbn [bind] in E; discriminate E.
  - destruct (four_columns_unique _ _ _ _ _ _ _ _ _ _ _ H H')
      as [-> [-> [-> [-> _]]]].
    reflexivity.
Qed.

(** The generic parser on a line of the eight-column form. *)
Lemma parser_parse_line_columns (line g1 g2 g3 g4 g5 g6 g7 g8 : text) :
  eight_columns line g1 g2 g3 g4 g5 g6 g7 g8 ->
  UdfParser.parse_line line
  = (field_id <- int_of_digits g1;;
     size <- int_of_digits g3;;
     Ok (Some (mkField field_id (strip g2) size (strip g4)
                 (Some (strip g5, strip g6, strip g7, strip g8))))).
Proof.
  intros [rest [H4 H8]].
  destruct (parser_parse_line_cases line)
    as [E|[h1 [h2 [h3 [h4 [h5 [h6 [h7 [h8 [[rest' [H4' H8']] ->]]]]]]]]]].
  - exfalso. apply (parser_match_complete _ _ _ _ _ _ _ _ _ _ H4 H8).
    destruct (four_columns_head _ _ _ _ _ _ H4) as [c [l [Hl _]]].
    unfold UdfParser.parse_line in E. cbv zeta in E. rewrite Hl in E |- *.
    destruct (Re.pmatch UdfParser.field_pattern (c :: l)) as [r|] eqn:Er;
      [|reflexivity].
    destruct (parser_match_inv _ _ Er)
      as [k1 [k2 [k3 [k4 [k [k5 [k6 [k7 [k8 [-> _]]]]]]]]]].
    cbv beta iota in E.
    destruct (int_of_digits k1); cbn [bind] in E; [|discriminate E].
    destruct (int_of_digits k3); cbn [bind] in E; discriminate E.
  - destruct (four_columns_unique _ _ _ _ _ _ _ _ _ _ _ H4 H4')
      as [-> [-> [-> [-> <-]]]].
    destruct (four_more_unique _ _ _ _ _ _ _ _ _ H8 H8')
      as [-> [-> [-> ->]]].
    reflexivity.
Qed.

(** What a descriptor answered by the canonical-schema parser tells. *)
Lemma rawdata_parse_line_inv (line : text) (f : field) :
  RawData.parse_line line = Ok (Some f) ->
  exists g1 g2 g3 g4 rest,
    four_columns line g1 g2 g3 g4 rest
    /\ len g1 <= int_max_str_digits /\ len g3 <= int_max_str_digits
    /\ f = mkField (decimal g1) (strip g2) (decimal g3) (strip g4) None.
Proof.
  intros Hf.
  destruct (rawdata_parse_line_cases line)
    as [E|[g1 [g2 [g3 [g4 [rest [H E]]]]]]]; [congruence|].
  rewrite Hf in E.
  destruct (two_ints_inv _ g1 g3
              (fun field_id size =>
                 Ok (Some (mkField field_id (strip g2) size (strip g4) None))))
    as [[H1 [H3 E']]|[_ E']]; cbv beta in E'; rewrite E' in E;
    [|discriminate E].
  injection E as ->. exists g1, g2, g3, g4, rest. auto.
Qed.

(** What a descriptor answered by the generic parser tells. *)
Lemma parser_parse_line_inv (line : text) (f : field) :
  UdfParser.parse_line line = Ok (Some f) ->
  exists g1 g2 g3 g4 g5 g6 g7 g8,
    eight_columns line g1 g2 g3 g4 g5 g6 g7 g8
    /\ len g1 <= int_max_str_digits /\ len g3 <= int_max_str_digits
    /\ f = mkField (decimal g1) (strip g2) (decimal g3) (strip g4)
             (Some (strip g5, strip g6, strip g7, strip g8)).
Proof.
  intros Hf.
  destruct (parser_parse_line_cases line)
    as [E|[g1 [g2 [g3 [g4 [g5 [g6 [g7 [g8 [H E]]]]]]]]]]; [congruence|].
  rewrite Hf in E.
  destruct (two_ints_inv _ g1 g3
              (fun field_id size =>
                 Ok (Some (mkField field_id (strip g2) size (strip g4)
                             (Some (strip g5, strip g6, strip g7,
                                    strip g8))))))
    as [[H1 [H3 E']]|[_ E']]; cbv beta in E'; rewrite E' in E;
    [|discriminate E].
  injection E as ->. exists g1, g2, g3, g4, g5, g6, g7, g8. auto.
Qed.

(** The lines on which the two parsers raise, and what they raise. *)
Lemma rawdata_parse_line_raise_iff (line : text) (e : exn) :
  RawData.parse_line line = Raise e
  <-> e = int_limit_error /\ overlong_line4 line.
Proof.
  split.
  - intros He.
    destruct (rawdata_parse_line_cases line)
      as [E|[g1 [g2 [g3 [g4 [rest [H E]]]]]]]; [congruence|].
    rewrite He in E.
    destruct (two_ints_inv _ g1 g3
                (fun field_id size =>
                   Ok (Some (mkField field_id (strip g2) size (strip g4)
                               None))))
      as [[_ [_ E']]|[Hlong E']]; cbv beta in E'; rewrite E' in E;
      [discriminate E|].
    injection E as ->. split; [reflexivity|].
    exists g1, g2, g3, g4, rest. auto.
  - intros [-> [g1 [g2 [g3 [g4 [rest [H Hlong]]]]]]].
    rewrite (rawdata_parse_line_columns _ _ _ _ _ _ H).
    apply two_ints_overlong, Hlong.
Qed.

Lemma parser_parse_line_raise_iff (line : text) (e : exn) :
  UdfParser.parse_line line = Raise e
  <-> e = int_limit_error /\ overlong_line8 line.
Proof.
  split.
  - intros He.
    destruct (parser_parse_line_cases line)
      as [E|[g1 [g2 [g3 [g4 [g5 [g6 [g7 [g8 [H E]]]]]]]]]]; [congruence|].
    rewrite He in E.
    destruct (two_ints_inv _ g1 g3
                (fun field_id size =>
                   Ok (Some (mkField field_id (strip g2) size (strip g4)
                               (Some (strip g5, strip g6, strip g7,
                                      strip g8))))))
      as [[_ [_ E']]|[Hlong E']]; cbv beta in E'; rewrite E' in E;
      [discriminate E|].
    injection E as ->. split; [reflexivity|].
    exists g1, g2, g3, g4, g5, g6, g7, g8. auto.
  - intros [-> [g1 [g2 [g3 [g4 [g5 [g6 [g7 [g8 [H Hlong]]]]]]]]]].
    rewrite (parser_parse_line_columns _ _ _ _ _ _ _ _ _ H).
    apply two_ints_overlong, Hlong.
Qed.

Section FirstError.

Variable parse_line : text -> res (option field).
Variable bad : text -> Prop.
Variable e0 : exn.

Hypothesis raise_iff :
  forall l e, parse_line l = Raise e <-> e = e0 /\ bad l.

(** A loop over the lines raises when one of them is bad, and then [e0]. *)
Lemma first_error_some (lines : list text) (e : exn) :
  first_error parse_line lines = Some e <-> e = e0 /\ Exists bad lines.
Proof.
  induction lines as [|l lines IH]; cbn [first_error].
  - split; [discriminate|]. intros [_ H]. inversion H.
  - destruct (parse_line l) as [o|e'] eqn:E.
    + rewrite IH. split; intros [He H]; (split; [exact He|]).
      * apply Exists_cons_tl, H.
      * inversion H as [x xs Hb|x xs Hb]; subst; [|exact Hb].
        assert (Hr : parse_line l = Raise e0)
          by (apply raise_iff; split; [reflexivity | exact Hb]).
        congruence.
    + apply raise_iff in E. destruct E as [-> Hb]. split.
      * intros [= <-]. split; [reflexivity | apply Exists_cons_hd, Hb].
      * intros [-> _]. reflexivity.
Qed.

Lemma first_error_none (lines : list text) :
  first_error parse_line lines = None <-> Forall (fun l => ~ bad l) lines.
Proof.
  induction lines as [|l lines IH]; cbn [first_error].
  - split; [constructor | reflexivity].
  - destruct (parse_line l) as [o|e'] eqn:E.
    + rewrite IH. split.
      * intros H. constructor; [|exact H]. intros Hb.
        assert (Hr : parse_line l = Raise e0)
          by (apply raise_iff; split; [reflexivity | exact Hb]).
        congruence.
      * intros H. inversion H; assumption.
    + apply raise_iff in E. destruct E as [_ Hb].
      split; [discriminate|]. intros H. inversion H; contradiction.
Qed.

End FirstError.

(** ** The outcome of the header parse *)

(** The two header parsers raise on a header with an overlong line and
    succeed on the others. *)
Lemma parser_parse_metadata_raises (st : UdfParser.state) (metadata : text) :
  Exists overlong_line8 (tl (split (ascii_of_nat 10) (strip metadata))) ->
  UdfParser._parse_metadata st metadata = Raise int_limit_error.
Proof.
  intros H. destruct (parser_parse_metadata_eq st metadata) as [v ->].
  destruct (first_error UdfParser.parse_line
              (tl (split (ascii_of_nat 10) (strip metadata))))
    as [e|] eqn:E.
  - apply (first_error_some _ _ _ parser_parse_line_raise_iff) in E.
    destruct E as [-> _]. reflexivity.
  - apply (first_error_none _ _ _ parser_parse_line_raise_iff) in E.
    exfalso. apply Exists_exists in H. destruct H as [l [Hin Hl]].
    rewrite Forall_forall in E. exact (E l Hin Hl).
Qed.

Lemma parser_parse_metadata_succeeds (st : UdfParser.state)
  (metadata : text) :
  Forall (fun l => ~ overlong_line8 l)
    (tl (split (ascii_of_nat 10) (strip metadata))) ->
  exists version,
    UdfParser._parse_metadata st metadata
    = Ok (UdfParser.mkState (Some version)
            (UdfParser.fields st
             ++ descriptors_of UdfParser.parse_line
                  (tl (split (ascii_of_nat 10) (strip metadata))))
            (UdfParser.binary_data st)).
Proof.
  intros H. destruct (parser_parse_metadata_eq st metadata) as [v E].
  exists v. rewrite E.
  apply (first_error_none _ _ _ parser_parse_line_raise_iff) in H.
  rewrite H. reflexivity.
Qed.

Lemma rawdata_parse_metadata_raises (metadata : text) :
  Exists overlong_line4 (tl (RawData.stripped_lines metadata)) ->
  RawData._parse_metadata metadata = Raise int_limit_error.
Proof.
  intros H. destruct (rawdata_parse_metadata_eq metadata) as [v ->].
  destruct (first_error RawData.parse_line
              (tl (RawData.stripped_lines metadata))) as [e|] eqn:E.
  - apply (first_error_some _ _ _ rawdata_parse_line_raise_iff) in E.
    destruct E as [-> _]. reflexivity.
  - apply (first_error_none _ _ _ rawdata_parse_line_raise_iff) in E.
    exfalso. apply Exists_exists in H. destruct H as [l [Hin Hl]].
    rewrite Forall_forall in E. exact (E l Hin Hl).
Qed.

Lemma rawdata_parse_metadata_succeeds (metadata : text) :
  Forall (fun l => ~ overlong_line4 l)
    (tl (RawData.stripped_lines metadata)) ->
  exists version,
    RawData._parse_metadata metadata
    = Ok (version,
          descriptors_of RawData.parse_line
            (tl (RawData.stripped_lines metadata))).
Proof.
  intros H. destruct (rawdata_parse_metadata_eq metadata) as [v E].
  exists v. rewrite E.
  apply (first_error_none _ _ _ rawdata_parse_line_raise_iff) in H.
  rewrite H. reflexivity.
Qed.

(** A raise and a success exclude each other, so the two conditions are
    also necessary. *)
Lemma parser_parse_metadata_raise_inv (st : UdfParser.state)
  (metadata : text) (e : exn) :
  UdfParser._parse_metadata st metadata = Raise e ->
  e = int_limit_error
  /\ Exists overlong_line8 (tl (split (ascii_of_nat 10) (strip metadata))).
Proof.
  destruct (parser_parse_metadata_eq st metadata) as [v ->].
  destruct (first_error UdfParser.parse_line
              (tl (split (ascii_of_nat 10) (strip metadata))))
    as [e'|] eqn:E; [|discriminate].
  intros [= <-].
  exact (proj1 (first_error_some _ _ _ parser_parse_line_raise_iff _ _) E).
Qed.

Lemma parser_parse_metadata_ok_inv (st st' : UdfParser.state)
  (metadata : text) :
  UdfParser._parse_metadata st metadata = Ok st' ->
  Forall (fun l => ~ overlong_line8 l)
    (tl (split (ascii_of_nat 10) (strip metadata))).
Proof.
  destruct (parser_parse_metadata_eq st metadata) as [v ->].
  destruct (first_error UdfParser.parse_line
              (tl (split (ascii_of_nat 10) (strip metadata))))
    as [e'|] eqn:E; [discriminate|].
  intros _.
  exact (proj1 (first_error_none _ _ _ parser_parse_line_raise_iff _) E).
Qed.

Lemma rawdata_parse_metadata_raise_inv (metadata : text) (e : exn) :
  RawData._parse_metadata metadata = Raise e ->
  e = int_limit_error
  /\ Exists overlong_line4 (tl (RawData.stripped_lines metadata)).
Proof.
  destruct (rawdata_parse_metadata_eq metadata) as [v ->].
  destruct (first_error RawData.parse_line
              (tl (RawData.stripped_lines metadata))) as [e'|] eqn:E;
    [|discriminate].
  intros [= <-].
  exact (proj1 (first_error_some _ _ _ rawdata_parse_line_raise_iff _ _) E).
Qed.

Lemma rawdata_parse_metadata_ok_inv (metadata : text)
  (out : text * list field) :
  RawData._parse_metadata metadata = Ok out ->
  Forall (fun l => ~ overlong_line4 l)
    (tl (RawData.stripped_lines metadata)).
Proof.
  destruct (rawdata_parse_metadata_eq metadata) as [v ->].
  destruct (first_error RawData.parse_line
              (tl (RawData.stripped_lines metadata))) as [e'|] eqn:E;
    [discriminate|].
  intros _.
  exact (proj1 (first_error_none _ _ _ rawdata_parse_line_raise_iff _) E).
Qed.

(** The side conditions of a line cut into columns, at a concrete line:
    equations and class tests are computed, non-emptiness is read off. *)
Ltac columns :=
  repeat match goal with |- _ /\ _ => split end;
  first [ discriminate | vm_compute; reflexivity ].



(** X16. No parser accepts a field line with too few colons, nor raises on
    it: the canonical-schema parser needs at least 4, the generic parser
    and the converter script at least 7. A line in the four-token form,
    with 3 colons, is skipped by all three. *)
Theorem field_line_needs_colons (line : text) :
  (RawData.parse_line line <> Ok None -> 4 <= colons line)
  /\ (UdfParser.parse_line line <> Ok None -> 7 <= colons line)
  /\ (Converter.parse_line line <> None -> 7 <= colons line).
Proof.
  split; [|split].
  - intros Hne.
    destruct (rawdata_parse_line_cases line)
      as [E|[g1 [g2 [g3 [g4 [rest [H _]]]]]]]; [congruence|].
    rewrite (four_columns_colons _ _ _ _ _ _ H).
    pose proof (colons_nonneg rest). lia.
  - intros Hne.
    destruct (parser_parse_line_cases line)
      as [E|[g1 [g2 [g3 [g4 [g5 [g6 [g7 [g8 [[rest [H4 H8]] _]]]]]]]]]];
      [congruence|].
    rewrite <- (colons_strip line), (four_columns_colons _ _ _ _ _ _ H4).
    pose proof (four_more_colons _ _ _ _ _ H8). lia.
  - unfold Converter.parse_line. destruct line as [|c l]; [congruence|].
    destruct (negb (is_py_digit c)); [congruence|].
    destruct (8 <=? len (map strip (split ":" (c :: l)))) eqn:E;
      [|congruence].
    intros _. apply Z.leb_le in E.
    unfold len in E. rewrite length_map in E. fold (len (split ":" (c :: l))) in E.
    rewrite split_len in E. unfold colons. lia.
Qed.

Lemma four_columns_descriptor (line g1 g2 g3 g4 rest : text)
  (extra : option (text * text * text * text)) :
  four_columns line g1 g2 g3 g4 rest ->
  descriptor_ok (mkField (decimal g1) (strip g2) (decimal g3)
                   (strip g4) extra).
Proof.
  intros [w1 [w2 [w3 [_ [[_ C1] [[_ C2] [[_ C3] [[_ C4] _]]]]]]]].
  unfold descriptor_ok. cbn [f_id f_size f_name f_type].
  repeat split.
  - apply decimal_nonneg, C1.
  - apply decimal_nonneg, C3.
  - apply forallb_strip, C2.
  - apply forallb_strip, C4.
Qed.

Lemma descriptors_of_ok (parse_line : text -> res (option field))
  (lines : list text) :
  (forall l f, parse_line l = Ok (Some f) -> descriptor_ok f) ->
  Forall descriptor_ok (descriptors_of parse_line lines).
Proof.
  intros H. unfold descriptors_of. apply Forall_flat_map.
  apply Forall_forall. intros l _.
  destruct (parse_line l) as [[f|]|e] eqn:E; try constructor.
  - exact (H l f E).
  - constructor.
Qed.

(** X17. Every descriptor the two regular-expression header parsers
    produce has a non-negative id and a non-negative size, and a name and a
    type without colon; the header parse keeps this invariant of the field
    list. (The non-negative sizes are what the cursor discipline of
    [_parse_record] relies on.) *)
Theorem parsed_descriptors_ok (metadata : text) :
  (forall version fields,
     RawData._parse_metadata metadata = Ok (version, fields) ->
     Forall descriptor_ok fields)
  /\ (forall st st',
        Forall descriptor_ok (UdfParser.fields st) ->
        UdfParser._parse_metadata st metadata = Ok st' ->
        Forall descriptor_ok (UdfParser.fields st')).
Proof.
  split.
  - intros version fields.
    destruct (rawdata_parse_metadata_eq metadata) as [v ->].
    destruct (first_error RawData.parse_line
                (tl (RawData.stripped_lines metadata))); [discriminate|].
    intros [= _ <-].
    apply descriptors_of_ok. intros l f Hf.
    apply rawdata_parse_line_inv in Hf.
    destruct Hf as [g1 [g2 [g3 [g4 [rest [H [_ [_ ->]]]]]]]].
    exact (four_columns_descriptor _ _ _ _ _ _ _ H).
  - intros st st' Hst.
    destruct (parser_parse_metadata_eq st metadata) as [v ->].
    destruct (first_error UdfParser.parse_line
                (tl (split (ascii_of_nat 10) (strip metadata))));
      [discriminate|].
    intros [= <-]. cbn [UdfParser.fields].
    apply Forall_app. split; [exact Hst|].
    apply descriptors_of_ok. intros l f Hf.
    apply parser_parse_line_inv in Hf.
    destruct Hf
      as [g1 [g2 [g3 [g4 [g5 [g6 [g7 [g8 [[r [H _]] [_ [_ ->]]]]]]]]]]].
    exact (four_columns_descriptor _ _ _ _ _ _ _ H).
Qed.

Lemma parsed_descriptors_ok_witness :
  Forall descriptor_ok
    [mkField 0 (lit "Sensor Index") 1 (lit "u8") None].
Proof.
  refine (proj1 (parsed_descriptors_ok
                   (lit "1.0" ++ [ascii_of_nat 10]
                    ++ lit "0: Sensor Index: 1: u8: 0: 0: 0: 1"))
            (lit "1.0") _ _).
  vm_compute. reflexivity.
Defined.

Lemma int_digits_all (s : text) :
  forallb is_digit s = true ->
  forall (after_digit : bool) (acc : Z),
    s <> [] \/ after_digit = true ->
    int_digits s after_digit acc
    = Some (fold_left (fun a c => 10 * a + (code c - 48)) s acc).
Proof.
  induction s as [|c s IH]; intros Hs after_digit acc Hne.
  - destruct Hne as [Hne| ->]; [congruence | reflexivity].
  - cbn [forallb] in Hs. apply andb_true_iff in Hs. destruct Hs as [Hc Hs].
    cbn [int_digits fold_left]. rewrite Hc. apply IH; auto.
Qed.

Lemma filter_digits (g : text) :
  forallb is_digit g = true -> filter is_digit g = g.
Proof.
  induction g as [|c g IH]; [reflexivity|].
  cbn [forallb filter]. intros H. apply andb_true_iff in H.
  destruct H as [Hc Hg]. rewrite Hc, (IH Hg). reflexivity.
Qed.

(** [int] on a non-empty run of digits within the limit is its decimal
    value; on a longer run it fails. *)
Lemma py_int_digits (g : text) :
  g <> [] -> forallb is_digit g = true -> len g <= int_max_str_digits ->
  py_int g = Some (decimal g).
Proof.
  intros Hne Hg Hfit. unfold py_int. cbv zeta.
  rewrite (strip_digits g Hg), (filter_digits g Hg).
  destruct (int_max_str_digits <? len g) eqn:E;
    [apply Z.ltb_lt in E; lia|].
  destruct g as [|c g]; [congruence|].
  pose proof Hg as Hg'. cbn [forallb] in Hg'. apply andb_true_iff in Hg'.
  destruct (digit_not_sign c (proj1 Hg')) as [-> ->].
  apply int_digits_all; [exact Hg | left; discriminate].
Qed.

Lemma py_int_overlong (g : text) :
  forallb is_digit g = true -> int_max_str_digits < len g ->
  py_int g = None.
Proof.
  intros Hg Hlong. unfold py_int. cbv zeta.
  rewrite (strip_digits g Hg), (filter_digits g Hg).
  destruct (int_max_str_digits <? len g) eqn:E; [reflexivity|].
  apply Z.ltb_ge in E. lia.
Qed.

Lemma strip_idempotent_digits (w g : text) :
  forallb is_space w = true -> forallb is_digit g = true ->
  strip (w ++ g) = g.
Proof.
  intros Hw Hg. rewrite strip_blanks by exact Hw. apply strip_digits, Hg.
Qed.

Lemma four_columns_split (line g1 g2 g3 g4 rest : text) :
  four_columns line g1 g2 g3 g4 rest ->
  exists p1 p2 p3,
    split ":" line = g1 :: p1 :: p2 :: p3 :: split ":" rest
    /\ strip p1 = strip g2 /\ strip p2 = g3 /\ strip p3 = strip g4.
Proof.
  intros [w1 [w2 [w3 [-> [[_ C1] [[_ C2] [[_ C3] [[_ C4] [W1 [W2 W3]]]]]]]]]].
  exists (w1 ++ g2), (w2 ++ g3), (w3 ++ g4).
  rewrite split_colon_free
    by exact (forallb_impl _ _ _ digit_not_colon C1).
  rewrite (app_assoc w1 g2).
  rewrite split_colon_free by (apply blanks_token_not_colon; assumption).
  rewrite (app_assoc w2 g3).
  rewrite split_colon_free
    by (apply blanks_token_not_colon;
        [|apply (forallb_impl _ _ _ digit_not_colon)]; assumption).
  rewrite (app_assoc w3 g4).
  rewrite split_colon_free by (apply blanks_token_not_colon; assumption).
  repeat split.
  - apply strip_blanks, W1.
  - apply strip_idempotent_digits; assumption.
  - apply strip_blanks, W3.
Qed.

(** The converter script on a line that opens with four columns and has at
    least seven colons. *)
Lemma converter_parse_line_columns (line g1 g2 g3 g4 rest : text) :
  four_columns line g1 g2 g3 g4 rest -> 3 <= colons rest ->
  Converter.parse_line line
  = match py_int g1, py_int g3 with
    | Some field_id, Some size =>
        Some (mkField field_id (strip g2) size (strip g4) None)
    | _, _ => None
    end.
Proof.
  intros H Hrest.
  destruct (four_columns_split _ _ _ _ _ _ H)
    as [p1 [p2 [p3 [Hsplit [S1 [S2 S3]]]]]].
  destruct (four_columns_head _ _ _ _ _ _ H) as [c [l [Hl Hc]]].
  destruct H as [w1 [w2 [w3 [_ [[N1 C1] [_ [[N3 C3] _]]]]]]].
  unfold Converter.parse_line. rewrite Hl.
  unfold is_py_digit. rewrite Hc. cbn [orb negb].
  rewrite <- Hl, Hsplit. cbn [map nth].
  replace (8 <=? len (strip g1 :: strip p1 :: strip p2 :: strip p3
                        :: map strip (split ":" rest))) with true.
  - rewrite (strip_digits g1 C1), S1, S2, S3. reflexivity.
  - symmetry. apply Z.leb_le. rewrite !len_cons.
    unfold len. rewrite length_map. fold (len (split ":" rest)).
    rewrite split_len. fold (colons rest). lia.
Qed.

(** X18. The three header parsers agree on every line the generic parser
    matches. When it answers a descriptor, the canonical-schema parser and
    the converter script accept the stripped line too, and all three read
    the same id, name, size and type. When it raises, on an id or a size
    with more digits than [int] converts, the canonical-schema parser
    raises the same error on the stripped line and the converter script,
    which catches it, skips the line. *)
Theorem header_parsers_agree (line : text) :
  (forall f : field,
     UdfParser.parse_line line = Ok (Some f) ->
     RawData.parse_line (strip line)
     = Ok (Some (mkField (f_id f) (f_name f) (f_size f) (f_type f) None))
     /\ Converter.parse_line (strip line)
        = Some (mkField (f_id f) (f_name f) (f_size f) (f_type f) None))
  /\ (forall e : exn,
        UdfParser.parse_line line = Raise e ->
        RawData.parse_line (strip line) = Raise e
        /\ Converter.parse_line (strip line) = None).
Proof.
  split.
  - intros f Hf. apply parser_parse_line_inv in Hf.
    destruct Hf
      as [g1 [g2 [g3 [g4 [g5 [g6 [g7 [g8 [[rest [H4 H8]] [H1 [H3 ->]]]]]]]]]]].
    cbn [f_id f_name f_size f_type]. split.
    + rewrite (rawdata_parse_line_columns _ _ _ _ _ _ H4).
      exact (two_ints_fit _ g1 g3
               (fun field_id size =>
                  Ok (Some (mkField field_id (strip g2) size (strip g4)
                              None))) H1 H3).
    + rewrite (converter_parse_line_columns _ _ _ _ _ rest H4)
        by exact (four_more_colons _ _ _ _ _ H8).
      destruct H4 as [w1 [w2 [w3 [_ [[N1 C1] [_ [[N3 C3] _]]]]]]].
      rewrite (py_int_digits g1 N1 C1 H1), (py_int_digits g3 N3 C3 H3).
      reflexivity.
  - intros e He. apply parser_parse_line_raise_iff in He.
    destruct He
      as [-> [g1 [g2 [g3 [g4 [g5 [g6 [g7 [g8 [[rest [H4 H8]] Hlong]]]]]]]]]].
    split.
    + rewrite (rawdata_parse_line_columns _ _ _ _ _ _ H4).
      apply two_ints_overlong, Hlong.
    + rewrite (converter_parse_line_columns _ _ _ _ _ rest H4)
        by exact (four_more_colons _ _ _ _ _ H8).
      destruct H4 as [w1 [w2 [w3 [_ [[N1 C1] [_ [[N3 C3] _]]]]]]].
      destruct Hlong as [Hlong|Hlong].
      * rewrite (py_int_overlong g1 C1 Hlong). reflexivity.
      * rewrite (py_int_overlong g3 C3 Hlong).
        destruct (py_int g1); reflexivity.
Qed.

Lemma header_parsers_agree_witness :
  (RawData.parse_line (strip (lit "10: Sensor Index: 1: u8: 0: 0: 0: 1"))
   = Ok (Some (mkField 10 (lit "Sensor Index") 1 (lit "u8") None))
   /\ Converter.parse_line
        (strip (lit "10: Sensor Index: 1: u8: 0: 0: 0: 1"))
      = Some (mkField 10 (lit "Sensor Index") 1 (lit "u8") None))
  /\ (RawData.parse_line
        (strip (overlong_digits ++ lit ": A: 1: u8: 0: 0: 0: 1"))
      = Raise int_limit_error
      /\ Converter.parse_line
           (strip (overlong_digits ++ lit ": A: 1: u8: 0: 0: 0: 1"))
         = None).
Proof.
  split.
  - exact (proj1 (header_parsers_agree
                    (lit "10: Sensor Index: 1: u8: 0: 0: 0: 1"))
             (mkField 10 (lit "Sensor Index") 1 (lit "u8")
                (Some (lit "0", lit "0", lit "0", lit "1"))) eq_refl).
  - refine (proj2 (header_parsers_agree
                     (overlong_digits ++ lit ": A: 1: u8: 0: 0: 0: 1"))
              int_limit_error _).
    vm_compute. reflexivity.
Defined.

(** ** The errors of the two file parsers *)

(** X1. The two file parsers raise in two situations only. When the
    six-byte delimiter does not occur in the file, and only then, they
    raise the [ValueError] about the missing delimiter. When it occurs, the
    outcome is decided by the field lines of the header before its first
    occurrence: parsing raises the [ValueError] of [int] exactly when some
    line the pattern accepts spells its id or size with more digits than
    [int] converts, and succeeds exactly when no line does. *)
Theorem parse_errors_characterised (decode : bytes -> text)
  (st : UdfParser.state) (content : bytes) :
  ((forall pre post, content <> pre ++ METADATA_DELIMITER ++ post)
   <-> UdfParser.parse decode st content
       = Raise (ValueError "Could not find metadata delimiter in UDF file"))
  /\ ((forall pre post, content <> pre ++ METADATA_DELIMITER ++ post)
      <-> RawData.parse_udf decode content
          = Raise (ValueError "Could not find metadata delimiter in UDF file"))
  /\ (forall metadata_bytes data : bytes,
        content = metadata_bytes ++ METADATA_DELIMITER ++ data ->
        (forall pre post, content = pre ++ METADATA_DELIMITER ++ post ->
                          len metadata_bytes <= len pre) ->
        (Exists overlong_line8
           (tl (split (ascii_of_nat 10) (strip (decode metadata_bytes))))
         <-> UdfParser.parse decode st content = Raise int_limit_error)
        /\ (Forall (fun l => ~ overlong_line8 l)
              (tl (split (ascii_of_nat 10) (strip (decode metadata_bytes))))
            <-> exists st', UdfParser.parse decode st content = Ok st')
        /\ (Exists overlong_line4
              (tl (RawData.stripped_lines (decode metadata_bytes)))
            <-> RawData.parse_udf decode content = Raise int_limit_error)
        /\ (Forall (fun l => ~ overlong_line4 l)
              (tl (RawData.stripped_lines (decode metadata_bytes)))
            <-> exists out, RawData.parse_udf decode content = Ok out)).
Proof.
  split; [|split].
  - rewrite <- (find_none content METADATA_DELIMITER).
    unfold UdfParser.parse.
    destruct (find content METADATA_DELIMITER =? -1) eqn:E.
    + apply Z.eqb_eq in E. tauto.
    + apply Z.eqb_neq in E. split; [tauto|]. intros H.
      apply parser_parse_metadata_raise_inv in H.
      destruct H as [H _]. discriminate H.
  - rewrite <- (find_none content METADATA_DELIMITER).
    unfold RawData.parse_udf.
    destruct (find content METADATA_DELIMITER =? -1) eqn:E.
    + apply Z.eqb_eq in E. tauto.
    + apply Z.eqb_neq in E. split; [tauto|].
      destruct (RawData._parse_metadata _) as [[v fs]|e] eqn:Hm;
        cbn [bind]; [discriminate|].
      apply rawdata_parse_metadata_raise_inv in Hm.
      destruct Hm as [-> _]. discriminate.
  - intros metadata_bytes data Hc Hmin.
    assert (Hfound : find content METADATA_DELIMITER <> -1).
    { intros Hf. exact (proj1 (find_none _ _) Hf _ _ Hc). }
    destruct (find_split content Hfound)
      as [pre [post [Hc' [Hpre [Hpost Hmin']]]]].
    assert (Hsame : pre = metadata_bytes).
    { pose proof (Hmin _ _ Hc') as L1. pose proof (Hmin' _ _ Hc) as L2.
      assert (Hlen : List.length pre = List.length metadata_bytes)
        by (unfold len in *; lia).
      rewrite Hc' in Hc.
      apply (f_equal (firstn (List.length pre))) in Hc.
      rewrite firstn_app_exact in Hc. rewrite Hlen in Hc.
      rewrite firstn_app_exact in Hc. exact Hc. }
    rewrite Hsame in Hpre.
    unfold UdfParser.parse, RawData.parse_udf.
    destruct (find content METADATA_DELIMITER =? -1) eqn:E;
      [apply Z.eqb_eq in E; congruence|].
    rewrite Hpre.
    split; [|split; [|split]].
    + split; [apply parser_parse_metadata_raises|].
      intros H. exact (proj2 (parser_parse_metadata_raise_inv _ _ _ H)).
    + split.
      * intros H.
        destruct (parser_parse_metadata_succeeds
                    (UdfParser.mkState (UdfParser.version st)
                       (UdfParser.fields st)
                       (Some (slice_from content
                                (find content METADATA_DELIMITER
                                 + len METADATA_DELIMITER))))
                    (decode metadata_bytes) H) as [v Hv].
        rewrite Hv. eauto.
      * intros [st' H]. exact (parser_parse_metadata_ok_inv _ _ _ H).
    + split.
      * intros H. rewrite (rawdata_parse_metadata_raises _ H). reflexivity.
      * destruct (RawData._parse_metadata (decode metadata_bytes))
          as [[v fs]|e] eqn:Hm; cbn [bind]; [discriminate|].
        intros _.
        exact (proj2 (rawdata_parse_metadata_raise_inv _ _ Hm)).
    + split.
      * intros H.
        destruct (rawdata_parse_metadata_succeeds _ H) as [v Hv].
        rewrite Hv. cbn [bind]. eauto.
      * destruct (RawData._parse_metadata (decode metadata_bytes))
          as [[v fs]|e] eqn:Hm; cbn [bind];
          [|intros [out H]; discriminate H].
        intros _. exact (rawdata_parse_metadata_ok_inv _ _ Hm).
Qed.

Lemma parse_errors_characterised_witness :
  UdfParser.parse decode_ascii UdfParser.init overlong_file
  = Raise int_limit_error
  /\ RawData.parse_udf decode_ascii overlong_file = Raise int_limit_error
  /\ exists st',
       UdfParser.parse decode_ascii UdfParser.init field_file = Ok st'.
Proof.
  assert (Hline8 : overlong_line8
                     (overlong_digits ++ lit ": A: 1: u8: 0: 0: 0: 1")).
  { exists overlong_digits, (lit "A"), (lit "1"), (lit "u8"),
      (lit "0"), (lit "0"), (lit "0"), (lit "1").
    split; [|left; vm_compute; reflexivity].
    exists (lit " 0: 0: 0: 1"). split.
    - exists (lit " "), (lit " "), (lit " "). columns.
    - exists (lit " "), (lit " "), (lit " "), (lit " "). columns. }
  assert (Hline4 : overlong_line4
                     (overlong_digits ++ lit ": A: 1: u8: 0: 0: 0: 1")).
  { exists overlong_digits, (lit "A"), (lit "1"), (lit "u8"),
      (lit " 0: 0: 0: 1").
    split; [|left; vm_compute; reflexivity].
    exists (lit " "), (lit " "), (lit " "). columns. }
  assert (Hover : forall pre post,
             overlong_file = pre ++ METADATA_DELIMITER ++ post ->
             len (map byte_of_ascii overlong_header) <= len pre).
  { assert (Hf : find overlong_file METADATA_DELIMITER <> -1)
      by (vm_compute; discriminate).
    destruct (find_split overlong_file Hf) as [pre [post [_ [Hpre [_ Hmin]]]]].
    assert (Hp : pre = map byte_of_ascii overlong_header)
      by (rewrite <- Hpre; vm_compute; reflexivity).
    rewrite <- Hp. exact Hmin. }
  assert (Hfield : forall pre post,
             field_file = pre ++ METADATA_DELIMITER ++ post ->
             len (map byte_of_ascii field_header) <= len pre).
  { assert (Hf : find field_file METADATA_DELIMITER <> -1)
      by (vm_compute; discriminate).
    destruct (find_split field_file Hf) as [pre [post [_ [Hpre [_ Hmin]]]]].
    assert (Hp : pre = map byte_of_ascii field_header)
      by (rewrite <- Hpre; vm_compute; reflexivity).
    rewrite <- Hp. exact Hmin. }
  destruct (proj2 (proj2 (parse_errors_characterised decode_ascii
                            UdfParser.init overlong_file))
              (map byte_of_ascii overlong_header)
              (payload_with 200 [0; 61; 122]%nat) eq_refl Hover)
    as [[H8 _] [_ [[H4 _] _]]].
  destruct (proj2 (proj2 (parse_errors_characterised decode_ascii
                            UdfParser.init field_file))
              (map byte_of_ascii field_header)
              (payload_with 200 [0; 61; 122]%nat) eq_refl Hfield)
    as [_ [[Hok _] _]].
  split; [|split].
  - apply H8.
    replace (tl (split (ascii_of_nat 10)
                   (strip (decode_ascii (map byte_of_ascii overlong_header)))))
      with [overlong_digits ++ lit ": A: 1: u8: 0: 0: 0: 1"]
      by (vm_compute; reflexivity).
    apply Exists_cons_hd, Hline8.
  - apply H4.
    replace (tl (RawData.stripped_lines
                   (decode_ascii (map byte_of_ascii overlong_header))))
      with [overlong_digits ++ lit ": A: 1: u8: 0: 0: 0: 1"]
      by (vm_compute; reflexivity).
    apply Exists_cons_hd, Hline4.
  - apply Hok.
    replace (tl (split (ascii_of_nat 10)
                   (strip (decode_ascii (map byte_of_ascii field_header)))))
      with [lit "0: Sensor Index: 1: u8: 0: 0: 0: 1"]
      by (vm_compute; reflexivity).
    constructor; [|constructor].
    intros [g1 [g2 [g3 [g4 [g5 [g6 [g7 [g8 [H Hlong]]]]]]]]].
    assert (E : UdfParser.parse_line
                  (lit "0: Sensor Index: 1: u8: 0: 0: 0: 1")
                = Raise int_limit_error).
    { rewrite (parser_parse_line_columns _ _ _ _ _ _ _ _ _ H).
      apply two_ints_overlong, Hlong. }
    vm_compute in E. discriminate E.
Defined.

(** ** Integer formats and the hex fallback *)

Lemma le_uint_bounds (d : bytes) : 0 <= le_uint d < 256 ^ len d.
Proof.
  induction d as [|b d IH].
  - cbn. lia.
  - cbn [le_uint]. rewrite len_cons.
    replace (1 + len d) with (Z.succ (len d)) by lia.
    rewrite Z.pow_succ_r by apply len_nonneg.
    assert (0 <= byte_val b <= 255)
      by (unfold byte_val; pose proof (Byte.to_N_bounded b); lia).
    lia.
Qed.

Lemma to_signed_spec (n v : Z) :
  1 <= n -> 0 <= v < 2 ^ (8 * n) ->
  - 2 ^ (8 * n - 1) <= to_signed n v < 2 ^ (8 * n - 1)
  /\ to_signed n v mod 2 ^ (8 * n) = v.
Proof.
  intros Hn Hv. unfold to_signed.
  assert (Hp : 2 ^ (8 * n) = 2 * 2 ^ (8 * n - 1)).
  { replace (8 * n) with (Z.succ (8 * n - 1)) at 1 by lia.
    apply Z.pow_succ_r. lia. }
  assert (0 < 2 ^ (8 * n - 1)) by (apply Z.pow_pos_nonneg; lia).
  destruct (v <? 2 ^ (8 * n - 1)) eqn:E.
  - apply Z.ltb_lt in E. split; [lia|]. apply Z.mod_small. lia.
  - apply Z.ltb_ge in E. split; [lia|].
    replace (v - 2 ^ (8 * n)) with (v + (-1) * 2 ^ (8 * n)) by lia.
    rewrite Z.mod_add by lia. apply Z.mod_small. lia.
Qed.

(** X19. An integer field decoded by [struct.unpack] lies in the range of
    its format: an unsigned format of [n] bytes gives the little-endian
    value of the bytes, in [0, 2^(8n)); a signed format gives the value in
    [-2^(8n-1), 2^(8n-1)) that is congruent to it modulo [2^(8n)]. The
    float format never gives an integer. *)
Theorem unpack_integer_ranges (f : fmt) (d : bytes) (z : Z) :
  unpack f d = Ok (VInt z) ->
  match f with
  | FB | FH | FI =>
      z = le_uint d /\ 0 <= z < 2 ^ (8 * fmt_size f)
  | Fb | Fh | Fi =>
      z mod 2 ^ (8 * fmt_size f) = le_uint d
      /\ - 2 ^ (8 * fmt_size f - 1) <= z < 2 ^ (8 * fmt_size f - 1)
  | Ff => False
  end.
Proof.
  pose proof (le_uint_bounds d) as Hb.
  destruct f; unfold unpack, unpack_unsigned, unpack_signed, unpack_float,
    sized; cbn [fmt_size];
    (destruct (len d =? _) eqn:E; [|discriminate]);
    apply Z.eqb_eq in E; rewrite E in Hb; cbn [bind]; intros [= <-];
    try (split; [reflexivity | exact Hb]).
  - destruct (to_signed_spec 1 (le_uint d) ltac:(lia) Hb). split; assumption.
  - destruct (to_signed_spec 2 (le_uint d) ltac:(lia) Hb). split; assumption.
  - destruct (to_signed_spec 4 (le_uint d) ltac:(lia) Hb). split; assumption.
Qed.

Lemma unpack_integer_ranges_witness :
  255 mod 2 ^ (8 * fmt_size Fb) = le_uint [xff]
  /\ - 2 ^ (8 * fmt_size Fb - 1) <= -1 < 2 ^ (8 * fmt_size Fb - 1).
Proof.
  pose proof (unpack_integer_ranges Fb [xff] (-1) eq_refl) as H.
  cbn [fmt_size] in *. destruct H as [H1 H2]. split; [|exact H2].
  vm_compute. reflexivity.
Defined.

Lemma byte_hex_round_trip (b : byte) :
  exists hi lo, byte_hex b = [hi; lo] /\ byte_of_hex hi lo = Some b.
Proof. destruct b; eexists _, _; split; reflexivity. Qed.

(** X20. The hex fallback loses nothing: two byte strings with the same hex
    string are equal, each byte being spelled by exactly two digits from
    which it can be read back. *)
Theorem hex_injective (a b : bytes) : hex a = hex b -> a = b.
Proof.
  revert b. induction a as [|x a IH]; intros [|y b] H.
  - reflexivity.
  - destruct (byte_hex_round_trip y) as [hi [lo [Hy _]]].
    change (hex (y :: b)) with (byte_hex y ++ hex b) in H.
    rewrite Hy in H. discriminate H.
  - destruct (byte_hex_round_trip x) as [hi [lo [Hx _]]].
    change (hex (x :: a)) with (byte_hex x ++ hex a) in H.
    rewrite Hx in H. discriminate H.
  - destruct (byte_hex_round_trip x) as [hi [lo [Hx Rx]]].
    destruct (byte_hex_round_trip y) as [hi' [lo' [Hy Ry]]].
    change (hex (x :: a)) with (byte_hex x ++ hex a) in H.
    change (hex (y :: b)) with (byte_hex y ++ hex b) in H.
    rewrite Hx, Hy in H. cbn [app] in H. injection H as -> -> H.
    rewrite Rx in Ry. injection Ry as ->. f_equal. exact (IH b H).
Qed.

Lemma hex_injective_witness : [x01; xab] = [x01; xab].
Proof. exact (hex_injective [x01; xab] [x01; xab] eq_refl). Defined.

(** ** After a truncated field *)

Lemma parse_fields_past_end (data : bytes) (fs : list field) :
  Forall (fun g => 0 < f_size g) fs ->
  forall (rec : record) (offset : Z),
    len data <= offset ->
    fst (UdfParser.parse_fields data fs (rec, offset))
    = fold_left (fun r g => dict_set r (field_key g) VNone) fs rec.
Proof.
  induction 1 as [|g fs Hg _ IH]; intros rec offset Hoff; [reflexivity|].
  unfold UdfParser.parse_fields in *. cbn [fold_left].
  rewrite parse_field_truncated
    by (pose proof (len_nonneg data); lia).
  apply IH. lia.
Qed.

(** X21. A truncated field drags the rest of the record with it: once a
    field's declared size exceeds the bytes left, the cursor is past the
    end of the window, and every later field of positive size is stored as
    [None] too. *)
Theorem truncation_cascades (data : bytes) (pre post : list field)
  (f : field) (record0 record1 : record) (offset1 : Z) :
  Forall (fun g => 0 <= f_size g) pre ->
  UdfParser.parse_fields data pre (record0, 0) = (record1, offset1) ->
  Z.max 0 (len data - offset1) < f_size f ->
  Forall (fun g => 0 < f_size g) post ->
  fst (UdfParser.parse_fields data (pre ++ f :: post) (record0, 0))
  = fold_left (fun r g => dict_set r (field_key g) VNone) (f :: post)
      record1.
Proof.
  intros Hsizes Hpre Htrunc Hpost.
  assert (Hoff : 0 <= offset1).
  { pose proof (parse_fields_cursor data pre record0 0) as Hc.
    rewrite Hpre in Hc. cbn [snd] in Hc.
    pose proof (declared_size_nonneg pre Hsizes). lia. }
  rewrite parse_fields_app, Hpre.
  unfold UdfParser.parse_fields at 1. cbn [fold_left].
  rewrite parse_field_truncated by assumption.
  fold (UdfParser.parse_fields data post
          (dict_set record1 (field_key f) VNone, offset1 + f_size f)).
  apply parse_fields_past_end; [exact Hpost | lia].
Qed.

Lemma truncation_cascades_witness :
  fst (UdfParser.parse_fields [x01; x02; xab]
         ([mkField 0 (lit "A") 1 (lit "u8") None]
          ++ mkField 1 (lit "T") 4 (lit "f") None
          :: [mkField 2 (lit "B") 1 (lit "u8") None])
         ([], 0))
  = [(lit "0_A", VInt 1); (lit "1_T", VNone); (lit "2_B", VNone)].
Proof.
  refine (truncation_cascades [x01; x02; xab]
            [mkField 0 (lit "A") 1 (lit "u8") None]
            [mkField 2 (lit "B") 1 (lit "u8") None]
            (mkField 1 (lit "T") 4 (lit "f") None)
            [] [(lit "0_A", VInt 1)] 1 _ eq_refl eq_refl _).
  - repeat constructor. cbn. discriminate.
  - repeat constructor.
Defined.

(** ** Parsing twice with one parser object *)

(** X22. The generic parser object accumulates: [_parse_metadata] appends
    to the field list it already holds, so a second [parse] of the same
    file with the same object holds every descriptor twice, with the
    version and the payload unchanged. *)
Theorem parse_twice_duplicates_fields (decode : bytes -> text)
  (content : bytes) (st1 : UdfParser.state) :
  UdfParser.parse decode UdfParser.init content = Ok st1 ->
  exists st2,
    UdfParser.parse decode st1 content = Ok st2
    /\ UdfParser.fields st2 = UdfParser.fields st1 ++ UdfParser.fields st1
    /\ UdfParser.version st2 = UdfParser.version st1
    /\ UdfParser.binary_data st2 = UdfParser.binary_data st1.
Proof.
  unfold UdfParser.parse.
  destruct (find content METADATA_DELIMITER =? -1); [discriminate|].
  unfold UdfParser._parse_metadata.
  destruct (split (ascii_of_nat 10)
              (strip (decode (slice content 0
                                (find content METADATA_DELIMITER)))))
    as [|first rest]; [discriminate|].
  cbn [UdfParser.fields UdfParser.version UdfParser.binary_data
       UdfParser.init].
  rewrite !parser_parse_lines_eq.
  destruct (first_error UdfParser.parse_line rest); cbn [bind];
    [discriminate|].
  intros [= <-]. eexists. split; [reflexivity|].
  cbn [UdfParser.fields UdfParser.version UdfParser.binary_data app]. auto.
Qed.

Lemma parse_twice_duplicates_fields_witness :
  exists st1 st2,
    UdfParser.parse decode_ascii UdfParser.init field_file = Ok st1
    /\ UdfParser.parse decode_ascii st1 field_file = Ok st2
    /\ len (UdfParser.fields st1) = 1
    /\ UdfParser.fields st2 = UdfParser.fields st1 ++ UdfParser.fields st1.
Proof.
  destruct (UdfParser.parse decode_ascii UdfParser.init field_file)
    as [st1|e] eqn:E; [|vm_compute in E; discriminate E].
  destruct (parse_twice_duplicates_fields decode_ascii field_file st1 E)
    as [st2 [H1 [H2 _]]].
  exists st1, st2. split; [reflexivity|]. split; [exact H1|].
  split; [|exact H2].
  vm_compute in E. injection E as <-. reflexivity.
Defined.

(** ** Compound types *)

Lemma unpack_number (f : fmt) (d : bytes) (v : value) :
  unpack f d = Ok v -> is_number v = true.
Proof.
  destruct f; unfold unpack, unpack_unsigned, unpack_signed, unpack_float,
    sized; destruct (len d =? _); cbn [bind]; intros [= <-]; reflexivity.
Qed.

Lemma type_spec_loop_len (types : list text) (i size : Z) :
  List.length (UdfParser.type_spec_loop types i size) = List.length types.
Proof.
  revert i. induction types as [|t ts IH]; intros i; [reflexivity|].
  cbn [UdfParser.type_spec_loop List.length]. rewrite IH. reflexivity.
Qed.

(** When every component is recognized and the bytes suffice, the loop
    decodes one number for each component. *)
Lemma compound_loop_all (data : bytes) (size : Z) (types : list text) :
  forall (i : Z) (values : list value) (offset : Z),
    forallb is_prim (UdfParser.type_spec_loop types i size) = true ->
    0 <= offset ->
    offset + spec_width (UdfParser.type_spec_loop types i size) <= len data ->
    exists vs,
      UdfParser.compound_loop data types values offset = Ok (values ++ vs)
      /\ List.length vs = List.length types
      /\ forallb is_number vs = true.
Proof.
  induction types as [|t ts IH]; intros i values offset Hprim Hoff Hfit.
  - exists []. rewrite app_nil_r. auto.
  - cbn [UdfParser.type_spec_loop forallb spec_width fold_right] in *.
    fold (spec_width (UdfParser.type_spec_loop ts (i + 1) size)) in Hfit.
    cbn [UdfParser.compound_loop].
    apply andb_true_iff in Hprim. destruct Hprim as [Ht Hts].
    destruct (UdfParser.TYPE_MAP t) as [[f n]|] eqn:E; [|discriminate Ht].
    pose proof (type_map_size _ _ _ E) as Hn. subst n.
    pose proof (fmt_size_pos f) as Hpos. cbn [snd] in Hfit.
    assert (Hw : 0 <= spec_width (UdfParser.type_spec_loop ts (i + 1) size)).
    { clear - Hts. revert Hts. generalize (i + 1) as j.
      induction ts as [|u us IHu]; intros j Hu; [cbn; lia|].
      cbn [UdfParser.type_spec_loop forallb spec_width fold_right] in *.
      apply andb_true_iff in Hu. destruct Hu as [Hu Hus].
      specialize (IHu (j + 1) Hus).
      fold (spec_width (UdfParser.type_spec_loop us (j + 1) size)).
      destruct (UdfParser.TYPE_MAP u) as [[g m]|] eqn:Eu;
        [|discriminate Hu].
      apply type_map_size in Eu. subst m. pose proof (fmt_size_pos g).
      cbn [snd]. lia. }
    replace (offset + fmt_size f <=? len data) with true
      by (symmetry; apply Z.leb_le; lia).
    destruct (unpack_exact f (slice data offset (offset + fmt_size f)))
      as [v Hv]; [apply slice_full_len; lia|].
    rewrite Hv. cbn [bind].
    destruct (IH (i + 1) (values ++ [v]) (offset + fmt_size f) Hts
                ltac:(lia) ltac:(lia)) as [vs [Hvs [Hlen Hnum]]].
    exists (v :: vs). rewrite Hvs, <- app_assoc. split; [reflexivity|].
    cbn [List.length forallb]. rewrite Hlen, Hnum, (unpack_number _ _ _ Hv).
    auto.
Qed.

(** X23. A compound type whose components [_parse_type_spec] all
    recognizes, decoded from at least as many bytes as their total width,
    gives a tuple with one decoded number for each component, in order:
    no [None], no hex string. *)
Theorem compound_decodes_every_component (data : bytes) (type_spec : text)
  (size : Z) :
  2 <= len (UdfParser._parse_type_spec type_spec size) ->
  forallb is_prim (UdfParser._parse_type_spec type_spec size) = true ->
  spec_width (UdfParser._parse_type_spec type_spec size) <= len data ->
  exists vs,
    UdfParser._parse_field_value data type_spec size = Ok (VTuple vs)
    /\ len vs = len (UdfParser._parse_type_spec type_spec size)
    /\ forallb is_number vs = true.
Proof.
  unfold UdfParser._parse_type_spec, UdfParser._parse_field_value.
  intros Hn Hprim Hfit.
  destruct (compound_loop_all data size (map strip (split "," type_spec))
              0 [] 0 Hprim ltac:(lia) ltac:(lia)) as [vs [Hvs [Hlen Hnum]]].
  unfold len in *. rewrite type_spec_loop_len in *.
  destruct (map strip (split "," type_spec)) as [|t [|t' ts]] eqn:Hs;
    try (cbn in Hn; lia).
  rewrite Hvs. cbn [app bind].
  destruct vs as [|v [|v' vs]]; try (cbn in Hlen; lia).
  exists (v :: v' :: vs). split; [reflexivity|]. split; [|exact Hnum].
  rewrite Hlen. reflexivity.
Qed.

Lemma compound_decodes_every_component_witness :
  exists vs,
    UdfParser._parse_field_value [x01; x02; xab; x00; x05] (lit "f,u8") 5
    = Ok (VTuple vs)
    /\ len vs = 2 /\ forallb is_number vs = true.
Proof.
  apply (compound_decodes_every_component [x01; x02; xab; x00; x05]
           (lit "f,u8") 5); vm_compute; try reflexivity; discriminate.
Defined.

(** ** The rows, window by window *)

Lemma extract_loop_rows (data : bytes) (rs : Z) :
  61 <= rs ->
  forall (fuel : nat) (offset : Z) (records : list (list value)),
    0 <= offset ->
    (Z.to_nat (len data - offset) < fuel)%nat ->
    RawData.extract_loop fuel data rs offset records
    = Some (records
            ++ map (fun i => Spec.canonical_row (window data offset rs i))
                 (range (Z.max 0 ((len data - offset) / rs)))).
Proof.
  intros Hrs. induction fuel as [|fuel IH]; intros offset records Hoff Hf;
    [lia|].
  cbn [RawData.extract_loop].
  destruct (offset + rs <=? len data) eqn:E.
  - apply Z.leb_le in E.
    rewrite parse_record_61_byte_row by (rewrite slice_full_len; lia).
    rewrite IH by lia.
    rewrite (windows_step (len data - offset) rs) by lia.
    replace (len data - offset - rs) with (len data - (offset + rs)) by lia.
    assert (Hq : 0 <= (len data - (offset + rs)) / rs)
      by (apply Z.div_pos; lia).
    rewrite !Z.max_r by lia.
    rewrite (Z.add_comm 1), range_succ by exact Hq.
    cbn [map]. rewrite <- app_assoc, map_map. cbn [app].
    assert (H0 : window data offset rs 0 = slice data offset (offset + rs))
      by (unfold window; f_equal; ring).
    assert (Hi : forall i, window data offset rs (i + 1)
                           = window data (offset + rs) rs i)
      by (intros i; unfold window; f_equal; ring).
    rewrite H0. do 3 f_equal. apply map_ext. intros i. rewrite Hi.
    reflexivity.
  - apply Z.leb_gt in E.
    assert (Hq : (len data - offset) / rs <= 0).
    { destruct (Z.lt_ge_cases (len data - offset) 0) as [Hneg|Hpos].
      - apply Z.lt_le_incl, Z.div_lt_upper_bound; lia.
      - rewrite Z.div_small by lia. lia. }
    rewrite Z.max_l by exact Hq. cbn. rewrite app_nil_r. reflexivity.
Qed.

(** X24. With a detected record size of at least 61, the rows are the
    decodings of the consecutive windows of [record_size] bytes that start
    at [header_size], one after the other and in order: extraction only
    advances by the record size and never looks for a marker again. *)
Theorem rows_are_consecutive_windows (set_iter : list Z -> list Z)
  (data : bytes) (header_size record_size : Z) (fuel : nat) :
  RawData._detect_record_size set_iter data = Ok (header_size, record_size) ->
  61 <= record_size ->
  (List.length data < fuel)%nat ->
  RawData.extract_records set_iter fuel data
  = Some (Ok (map (fun i => Spec.canonical_row
                              (window data header_size record_size i))
                (range (Z.max 0
                          ((len data - header_size) / record_size))))).
Proof.
  intros Hdet Hrs Hfuel.
  pose proof (detect_header_nonneg _ _ _ _ Hdet) as Hh.
  unfold RawData.extract_records. rewrite Hdet.
  rewrite (extract_loop_rows data record_size Hrs fuel header_size [] Hh)
    by (unfold len; lia).
  reflexivity.
Qed.

Lemma rows_are_consecutive_windows_witness :
  RawData.extract_records set_first_seen 201
    (payload_with 200 [0; 28; 89; 150]%nat)
  = Some (Ok (map (fun i => Spec.canonical_row
                              (window (payload_with 200 [0; 28; 89; 150]%nat)
                                 28 61 i))
                (range (Z.max 0
                          ((len (payload_with 200 [0; 28; 89; 150]%nat) - 28)
                           / 61))))).
Proof.
  apply (rows_are_consecutive_windows set_first_seen
           (payload_with 200 [0; 28; 89; 150]%nat) 28 61 201).
  - vm_compute. reflexivity.
  - lia.
  - vm_compute. lia.
Defined.
